(** * Aris Game: a shallow embedding of [src/js/script.js]

    The script is a browser widget: a click counter persisted in
    [localStorage], an audio preloader, and a few visual effects.  The
    development below follows the script top to bottom:

    - [JS]: the fragment of the JavaScript runtime the script leans on
      (Number values of an integer counter, [parseInt], Number-to-String);
    - [GAME_CONFIG]: the configuration object;
    - [ResourceManager]: the preloader, as an event-driven transition system;
    - [ArisGame]: the controller, in a state-and-exception monad over a
      browser world (DOM heap, storage, network log, timers);
    - the entry points [main] and the [pjax:complete] listener. *)

From Stdlib Require Import ZArith QArith Qround Qabs Qpower Lqa Lia List Ascii
  String.
From stdpp Require Import base option list strings gmap.

Local Open Scope Z_scope.

(* ===================================================================== *)
(** ** 0. The JavaScript runtime fragment *)
(* ===================================================================== *)

Module JS.

(** Strings.  A JavaScript string is written here as the UTF-8 encoding of
    its text, one [ascii] per byte; [code] is the byte value. *)
Definition code (c : ascii) : Z := Z.of_N (Ascii.N_of_ascii c).

(** Number values that an integer counter can take: the IEEE-754 doubles
    with an integral value, the two infinities, negative zero and NaN.
    [Int z] stands for the double whose value is [z]; every [Int] built by
    the functions below is representable. *)
Inductive num : Type :=
  | NaN
  | PInf
  | NInf
  | NegZero
  | Int (z : Z).

Definition num_eqb (a b : num) : bool :=
  match a, b with
  | NaN, NaN | PInf, PInf | NInf, NInf | NegZero, NegZero => true
  | Int x, Int y => x =? y
  | _, _ => false
  end.

Definition neg (x : num) : num :=
  match x with
  | NaN => NaN
  | PInf => NInf
  | NInf => PInf
  | NegZero => Int 0
  | Int 0 => NegZero
  | Int z => Int (- z)
  end.

(** Round-to-nearest, ties-to-even, of a positive integer to a double with
    a 53-bit significand; [2^1024] and beyond is an overflow. *)
Definition round_pos (z : Z) : num :=
  let e := Z.log2 z - 52 in
  if e <=? 0 then Int z
  else
    let q := z / 2 ^ e in
    let r := z mod 2 ^ e in
    let half := 2 ^ (e - 1) in
    let q' := if r <? half then q
              else if half <? r then q + 1
              else if Z.even q then q else q + 1 in
    let v := q' * 2 ^ e in
    if 2 ^ 1024 <=? v then PInf else Int v.

(** The Number value of a mathematical integer. *)
Definition of_Z (z : Z) : num :=
  match z with
  | 0 => Int 0
  | Zpos _ => round_pos z
  | Zneg _ => neg (round_pos (- z))
  end.

(** [x + 1] on Number values, as the postfix [++] computes the new value. *)
Definition succ (x : num) : num :=
  match x with
  | NaN => NaN
  | PInf => PInf
  | NInf => NInf
  | NegZero => Int 1
  | Int z => of_Z (z + 1)
  end.


(** *** [parseInt]

    [StrWhiteSpaceChar]: TAB, LF, VT, FF, CR, SP, then (in UTF-8) U+00A0,
    U+1680, U+2000..U+200A, U+2028, U+2029, U+202F, U+205F, U+3000 and
    U+FEFF.  [ws_char s] drops one such character from the front of [s]. *)
Definition ws_char (s : string) : option string :=
  match s with
  | String c1 r1 =>
      let b1 := code c1 in
      if (b1 =? 9) || (b1 =? 10) || (b1 =? 11) || (b1 =? 12) || (b1 =? 13)
         || (b1 =? 32) then Some r1
      else
        match r1 with
        | String c2 r2 =>
            let b2 := code c2 in
            if (b1 =? 194) && (b2 =? 160) then Some r2
            else
              match r2 with
              | String c3 r3 =>
                  let b3 := code c3 in
                  if (b1 =? 225) && (b2 =? 154) && (b3 =? 128) then Some r3
                  else if (b1 =? 226) && (b2 =? 128)
                          && (((128 <=? b3) && (b3 <=? 138)) || (b3 =? 168)
                              || (b3 =? 169) || (b3 =? 175)) then Some r3
                  else if (b1 =? 226) && (b2 =? 129) && (b3 =? 159) then Some r3
                  else if (b1 =? 227) && (b2 =? 128) && (b3 =? 128) then Some r3
                  else if (b1 =? 239) && (b2 =? 187) && (b3 =? 191) then Some r3
                  else None
              | EmptyString => None
              end
        | EmptyString => None
        end
  | EmptyString => None
  end.

Fixpoint trim_start_fuel (fuel : nat) (s : string) : string :=
  match fuel with
  | O => s
  | S f => match ws_char s with
           | Some r => trim_start_fuel f r
           | None => s
           end
  end.

Definition trim_start (s : string) : string :=
  trim_start_fuel (String.length s) s.

(** The value of [c] as a digit of radix [R] (10 or 16). *)
Definition digit_val (R : Z) (c : ascii) : option Z :=
  let b := code c in
  if (48 <=? b) && (b <=? 57) then Some (b - 48)
  else if (R =? 16) && (97 <=? b) && (b <=? 102) then Some (b - 87)
  else if (R =? 16) && (65 <=? b) && (b <=? 70) then Some (b - 55)
  else None.

(** The longest prefix of radix-[R] digits, as an integer; [None] when that
    prefix is empty. *)
Fixpoint digits_prefix (R : Z) (s : string) (acc : Z) (seen : bool)
  : option Z :=
  match s with
  | String c r =>
      match digit_val R c with
      | Some d => digits_prefix R r (acc * R + d) true
      | None => if seen then Some acc else None
      end
  | EmptyString => if seen then Some acc else None
  end.

(** [parseInt(s)] with no radix argument: leading white space, an optional
    sign, an optional [0x]/[0X] prefix, the digits.  (Past 20 significant
    decimal digits the standard lets an engine approximate; the exact value
    is rounded here.) *)
Definition parseInt (s : string) : num :=
  let s0 := trim_start s in
  let '(negative, s1) :=
    match s0 with
    | String c r =>
        if code c =? 45 then (true, r)
        else if code c =? 43 then (false, r)
        else (false, s0)
    | EmptyString => (false, s0)
    end in
  let '(R, s2) :=
    match s1 with
    | String c0 (String cx r) =>
        if (code c0 =? 48) && ((code cx =? 120) || (code cx =? 88))
        then (16, r) else (10, s1)
    | _ => (10, s1)
    end in
  match digits_prefix R s2 0 false with
  | None => NaN
  | Some 0 => if negative then NegZero else Int 0
  | Some m => of_Z (if negative then - m else m)
  end.

(** *** Number to String *)

Definition digit_char (d : Z) : ascii := ascii_of_N (Z.to_N (48 + d)).

Fixpoint dec_fuel (fuel : nat) (z : Z) (acc : string) : string :=
  match fuel with
  | O => acc
  | S f =>
      let acc' := String (digit_char (z mod 10)) acc in
      if z <? 10 then acc' else dec_fuel f (z / 10) acc'
  end.

(** The decimal digits of a non-negative integer. *)
Definition dec (z : Z) : string :=
  dec_fuel (S (Z.to_nat (Z.log2 z))) z EmptyString.

Definition ndigits (z : Z) : Z := Z.of_nat (String.length (dec z)).

Fixpoint zeros (n : nat) : string :=
  match n with
  | O => EmptyString
  | S m => String (digit_char 0) (zeros m)
  end.

(** The candidates [(s, k, n)] with exactly [k] digits whose value
    [s * 10^(n-k)] has the Number value [z]. *)
Definition candidates (z k : Z) : list (Z * Z * Z) :=
  let d := ndigits z in
  List.filter
    (fun '(s, k, n) =>
       (10 ^ (k - 1) <=? s) && (s <? 10 ^ k) && (k <=? n)
       && num_eqb (of_Z (s * 10 ^ (n - k))) (Int z))
    [ (z / 10 ^ (d - k), k, d); (z / 10 ^ (d - k) + 1, k, d);
      (z / 10 ^ (d + 1 - k), k, d + 1); (z / 10 ^ (d + 1 - k) + 1, k, d + 1) ].

(** Among candidates, the one whose value is closest to [z]. *)
Fixpoint closest (z : Z) (best : Z * Z * Z) (l : list (Z * Z * Z))
  : Z * Z * Z :=
  match l with
  | [] => best
  | c :: r =>
      let dist := fun '(s, k, n) => Z.abs (s * 10 ^ (n - k) - z) in
      closest z (if dist c <? dist best then c else best) r
  end.

(** The shortest digit string: the least [k] that has a candidate. *)
Fixpoint shortest_from (fuel : nat) (z k : Z) : Z * Z * Z :=
  match fuel with
  | O => (z, ndigits z, ndigits z)
  | S f =>
      match candidates z k with
      | c :: r => closest z c r
      | [] => shortest_from f z (k + 1)
      end
  end.

Definition shortest (z : Z) : Z * Z * Z := shortest_from 17 z 1.

(** [Number::toString] of a positive integral double. *)
Definition pos_to_string (z : Z) : string :=
  let '(s, k, n) := shortest z in
  if n <=? 21 then dec s ++ zeros (Z.to_nat (n - k))
  else
    match dec s with
    | String c1 rest =>
        String c1 (match rest with
                   | EmptyString => EmptyString
                   | _ => String "." rest
                   end)
        ++ "e+" ++ dec (n - 1)
    | EmptyString => EmptyString
    end.

(** [ToString] of a Number value, as [setItem] applies it to its argument. *)
Definition to_string (x : num) : string :=
  match x with
  | NaN => "NaN"
  | PInf => "Infinity"
  | NInf => "-Infinity"
  | NegZero => "0"
  | Int 0 => "0"
  | Int (Zpos p) => pos_to_string (Zpos p)
  | Int (Zneg p) => String "-" (pos_to_string (Zpos p))
  end.

(** *** [toLocaleString('en-US')]

    Default options: grouping by thousands; an integral value has no
    fraction digits.  The digits shown are the shortest ones that read back
    as the same double, padded with zeros: up to [2^53] those of the value
    itself, beyond that at most 17 significant ones. *)
Fixpoint group3 (rev_digits : list ascii) : list ascii :=
  match rev_digits with
  | a :: b :: c :: ((_ :: _) as r) => a :: b :: c :: ","%char :: group3 r
  | l => l
  end.

Definition grouped (z : Z) : string :=
  string_of_list_ascii
    (List.rev (group3 (List.rev (list_ascii_of_string (dec z))))).

Definition locale_digits (z : Z) : Z :=
  let '(s, k, n) := shortest z in s * 10 ^ (n - k).

Definition to_locale_string (x : num) : string :=
  match x with
  | NaN => "NaN"
  | PInf => "∞"
  | NInf => "-∞"
  | NegZero => "-0"
  | Int 0 => "0"
  | Int (Zpos p) => grouped (locale_digits (Zpos p))
  | Int (Zneg p) => String "-" (grouped (locale_digits (Zpos p)))
  end.

(** *** Arithmetic on doubles

    A finite double is written as the rational it denotes.  [fl q] is [q]
    rounded to the nearest double, ties to even: 53 significant bits at the
    binade of [q], and below [2^-1022] the fixed spacing [2^-1074] of the
    subnormals.  Every arithmetic operator of the script on such values is
    the exact operation followed by this rounding.  [fl] alone serves where
    the exact value is bounded (the product of a draw by an array length, a
    percentage); [to_double] below adds the overflow to an infinity. *)
Definition pow2 (z : Z) : Q := (2 ^ z)%Q.

(** [floor (log2 q)] for [0 < q]. *)
Definition ilog2 (q : Q) : Z :=
  let e0 := Z.log2 (Qnum q) - Z.log2 (Zpos (Qden q)) in
  if Qle_bool (pow2 e0) q then e0 else e0 - 1.

Definition round_half_even (s : Q) : Z :=
  let f := Qfloor s in
  match Qcompare (s - inject_Z f) (1 # 2) with
  | Lt => f
  | Gt => f + 1
  | Eq => if Z.even f then f else f + 1
  end.

(** The exponent of the unit in the last place at [q]. *)
Definition ulp_exp (q : Q) : Z := Z.max (ilog2 q - 52) (-1074).

Definition fl_pos (q : Q) : Q :=
  let u := ulp_exp q in
  Qred (inject_Z (round_half_even (q / pow2 u)) * pow2 u).

Definition fl (q : Q) : Q :=
  match Qcompare q 0 with
  | Eq => 0
  | Gt => fl_pos q
  | Lt => - fl_pos (- q)
  end.

(** The rationals that are finite doubles: [m * 2^e] with [|m| < 2^53] and
    [-1074 <= e <= 971]. *)
Definition is_double (q : Q) : Prop :=
  exists m e : Z,
    Z.abs m < 2 ^ 53 /\ -1074 <= e <= 971 /\ (q == inject_Z m * pow2 e)%Q.

(** The relative rounding error [2^-53], and half the subnormal spacing. *)
Definition unit_roundoff : Q := 1 # (2 ^ 53).
Definition half_min_ulp : Q := 1 # (2 ^ 1075).

(** The rounding error of [fl] at [q] is at most [err q]. *)
Definition err (q : Q) : Q := (Qabs q * unit_roundoff + half_min_ulp)%Q.

(** The result of an operation whose exact value is [q]: the double
    [fl q], or an infinity ([None]) from [2^1024 - 2^970] on, the midpoint
    between the largest double and [2^1024]. *)
Definition overflow_threshold : Q := (pow2 1024 - pow2 970)%Q.

Definition to_double (q : Q) : option Q :=
  if Qle_bool overflow_threshold (Qabs q) then None else Some (fl q).

(** [a - b] on Number values that are finite or an infinity, the two
    operands not being infinities at once. *)
Definition js_sub (a b : option Q) : option Q :=
  match a, b with
  | Some x, Some y => to_double (x - y)
  | _, _ => None
  end.

(** *** [Math.random] and [Math.floor]

    A draw of [Math.random()] is a double [r] with [0 <= r < 1].
    [floor_mul r n] is [Math.floor(r * n)] for an array length [n] (an
    integer below [2^32], hence a double): the product of the two doubles,
    rounded, then floored. *)
Definition is_random (r : Q) : Prop :=
  (0 <= r)%Q /\ (r < 1)%Q /\ is_double r.

Definition floor_mul (r : Q) (n : nat) : Z :=
  Qfloor (fl (r * inject_Z (Z.of_nat n))).

End JS.

(* ===================================================================== *)
(** ** 1. Configuration *)
(* ===================================================================== *)

Module Config.

(** A text slot is a fixed string or an array of variants. *)
Inductive content : Type :=
  | Fixed (s : string)
  | Variants (l : list string).

Record config : Type := {
  audioList : list string;
  texts : gmap string content;
  preloadImages : list string
}.

Definition GAME_CONFIG : config := {|
  audioList := [ "audio/1.mp3"; "audio/2.mp3" ];
  texts :=
    <[ "page-title" := Fixed "Welcome to Aris" ]>
    (<[ "doc-title" := Fixed "邦卡卡邦" ]>
    (<[ "page-descriptions" :=
          Fixed "给爱丽丝酱写的小网站，对，就是那个最可爱的《蔚蓝档案》角色！" ]>
    (<[ "counter-descriptions" :=
          Variants [ "爱丽丝已经“邦卡卡邦！”了"; "爱丽丝已经摇了" ] ]>
    (<[ "counter-unit" := Variants [ "次"; "次" ] ]>
    (<[ "counter-button" := Variants [ "邦卡卡邦！"; "SenSei！" ] ]>
     ∅)))));
  preloadImages := [ "img/arisu1.gif"; "img/arisu2.gif" ]
|}.

End Config.

(* ===================================================================== *)
(** ** 2. The browser world *)
(* ===================================================================== *)

Module Browser.

Import JS.

(** Layout boxes and inline styles, in CSS pixels; each number is a finite
    double, written as the rational it denotes. *)
Record rect : Type := {
  r_left : Q; r_top : Q; r_width : Q; r_height : Q
}.

(** [s_left] and [s_top] are [None] when the number put in the template
    is not finite: its text is then no length, and the assignment leaves
    the property as it was, unset. *)
Record style : Type := {
  s_width : Q; s_height : Q; s_left : option Q; s_top : option Q
}.

(** A DOM node, with the properties the script reads or writes.
    [n_onclick] says that [onclick] holds the arrow function of
    [onGameReady]; [n_onanimationend] that [onanimationend] holds the arrow
    function of [spawnHerta], which removes the node. *)
Record node : Type := {
  n_tag : string;
  n_text : string;
  n_onclick : bool;
  n_rect : rect;
  n_children : list nat;
  n_src : string;
  n_class : list string;
  n_style : option style;
  n_onanimationend : bool
}.

Definition zero_rect : rect :=
  {| r_left := 0; r_top := 0; r_width := 0; r_height := 0 |}.

(** What [document.createElement(tag)] returns. *)
Definition new_node (tag : string) : node :=
  {| n_tag := tag; n_text := ""; n_onclick := false; n_rect := zero_rect;
     n_children := []; n_src := ""; n_class := []; n_style := None;
     n_onanimationend := false |}.

(** [this.elements]: the handles of one lookup pass ([None] is [null]).
    [texts] is flattened: [title], [desc], [ctDesc] and [ctUnit] are its
    four properties. *)
Record elements : Type := {
  btn : option nat;
  counter : option nat;
  loading : option nat;
  title : option nat;
  desc : option nat;
  ctDesc : option nat;
  ctUnit : option nat
}.

(** The handles before the first [init]: every read of one finds nothing.
    (The object is then [{}], without its [texts] part, so that
    [refreshTexts] would throw on it where it skips a [null] handle; the
    script calls it only after [init] has assigned the handles.) *)
Definition no_elements : elements :=
  {| btn := None; counter := None; loading := None; title := None;
     desc := None; ctDesc := None; ctUnit := None |}.

(** The [ArisGame] singleton. *)
Record game : Type := {
  manager : option nat;
  count : num;
  elems : elements
}.

(** A [ResourceManager] instance. *)
Record resource_manager : Type := {
  audioCache : list (option string);
  isReady : bool
}.

(** The value passed as [onProgress]: the arrow function of
    [ArisGame.init], or some other function, of which only whether it
    throws at [(current, total)] matters here. *)
Inductive callback : Type :=
  | InitProgress
  | Host (throws : nat -> nat -> bool).

Inductive task_state : Type := Pending | Fulfilled | Rejected.

(** One invocation of [loadAll]: its locals, its tasks, its promise, and
    whether [init] chained [onGameReady] on it. *)
Record batch : Type := {
  b_manager : nat;
  b_loadedCount : nat;
  b_total : nat;
  b_tasks : list task_state;
  b_onProgress : option callback;
  b_promise : task_state;
  b_then_ready : bool
}.

Inductive storage_op : Type :=
  | GetItem (key : string)
  | SetItem (key value : string).

Inductive request : Type :=
  | Fetch (url : string)
  | ImageLoad (src : string).

(** An [Audio] object on which [play()] was called. *)
Record audio : Type := {
  a_src : string;
  a_volume : Q
}.

Record world : Type := {
  w_nodes : list node;                 (* every node ever created *)
  w_document : gmap string nat;        (* id -> node, for nodes in the page *)
  w_body : list nat;                   (* children appended to <body> *)
  w_storage : gmap string string;      (* localStorage *)
  w_storage_log : list storage_op;     (* calls made on localStorage *)
  w_net : list request;                (* requests issued *)
  w_initialized : bool;                (* window.arisGameInitialized *)
  w_game : game;
  w_managers : list resource_manager;
  w_batches : list batch;
  w_progress : list (nat * nat * nat); (* onProgress calls: batch, args *)
  w_timers : list (Z * nat);           (* setTimeout: delay, node to remove *)
  w_audio : list audio;
  w_console : list string;
  w_rng : nat -> Q;                    (* the draws of Math.random *)
  w_draws : nat                        (* how many were consumed *)
}.

(** Field updates.  Nothing writes [w_initialized] or [w_rng]. *)
Definition set_nodes v (w : world) : world :=
  {| w_nodes := v; w_document := w_document w; w_body := w_body w;
     w_storage := w_storage w; w_storage_log := w_storage_log w;
     w_net := w_net w; w_initialized := w_initialized w; w_game := w_game w;
     w_managers := w_managers w; w_batches := w_batches w;
     w_progress := w_progress w; w_timers := w_timers w;
     w_audio := w_audio w; w_console := w_console w; w_rng := w_rng w;
     w_draws := w_draws w |}.

Definition set_document v (w : world) : world :=
  {| w_nodes := w_nodes w; w_document := v; w_body := w_body w;
     w_storage := w_storage w; w_storage_log := w_storage_log w;
     w_net := w_net w; w_initialized := w_initialized w; w_game := w_game w;
     w_managers := w_managers w; w_batches := w_batches w;
     w_progress := w_progress w; w_timers := w_timers w;
     w_audio := w_audio w; w_console := w_console w; w_rng := w_rng w;
     w_draws := w_draws w |}.

Definition set_body v (w : world) : world :=
  {| w_nodes := w_nodes w; w_document := w_document w; w_body := v;
     w_storage := w_storage w; w_storage_log := w_storage_log w;
     w_net := w_net w; w_initialized := w_initialized w; w_game := w_game w;
     w_managers := w_managers w; w_batches := w_batches w;
     w_progress := w_progress w; w_timers := w_timers w;
     w_audio := w_audio w; w_console := w_console w; w_rng := w_rng w;
     w_draws := w_draws w |}.

Definition set_storage v (w : world) : world :=
  {| w_nodes := w_nodes w; w_document := w_document w; w_body := w_body w;
     w_storage := v; w_storage_log := w_storage_log w; w_net := w_net w;
     w_initialized := w_initialized w; w_game := w_game w;
     w_managers := w_managers w; w_batches := w_batches w;
     w_progress := w_progress w; w_timers := w_timers w;
     w_audio := w_audio w; w_console := w_console w; w_rng := w_rng w;
     w_draws := w_draws w |}.

Definition set_storage_log v (w : world) : world :=
  {| w_nodes := w_nodes w; w_document := w_document w; w_body := w_body w;
     w_storage := w_storage w; w_storage_log := v; w_net := w_net w;
     w_initialized := w_initialized w; w_game := w_game w;
     w_managers := w_managers w; w_batches := w_batches w;
     w_progress := w_progress w; w_timers := w_timers w;
     w_audio := w_audio w; w_console := w_console w; w_rng := w_rng w;
     w_draws := w_draws w |}.

Definition set_net v (w : world) : world :=
  {| w_nodes := w_nodes w; w_document := w_document w; w_body := w_body w;
     w_storage := w_storage w; w_storage_log := w_storage_log w; w_net := v;
     w_initialized := w_initialized w; w_game := w_game w;
     w_managers := w_managers w; w_batches := w_batches w;
     w_progress := w_progress w; w_timers := w_timers w;
     w_audio := w_audio w; w_console := w_console w; w_rng := w_rng w;
     w_draws := w_draws w |}.

Definition set_game v (w : world) : world :=
  {| w_nodes := w_nodes w; w_document := w_document w; w_body := w_body w;
     w_storage := w_storage w; w_storage_log := w_storage_log w;
     w_net := w_net w; w_initialized := w_initialized w; w_game := v;
     w_managers := w_managers w; w_batches := w_batches w;
     w_progress := w_progress w; w_timers := w_timers w;
     w_audio := w_audio w; w_console := w_console w; w_rng := w_rng w;
     w_draws := w_draws w |}.

Definition set_managers v (w : world) : world :=
  {| w_nodes := w_nodes w; w_document := w_document w; w_body := w_body w;
     w_storage := w_storage w; w_storage_log := w_storage_log w;
     w_net := w_net w; w_initialized := w_initialized w; w_game := w_game w;
     w_managers := v; w_batches := w_batches w; w_progress := w_progress w;
     w_timers := w_timers w; w_audio := w_audio w; w_console := w_console w;
     w_rng := w_rng w; w_draws := w_draws w |}.

Definition set_batches v (w : world) : world :=
  {| w_nodes := w_nodes w; w_document := w_document w; w_body := w_body w;
     w_storage := w_storage w; w_storage_log := w_storage_log w;
     w_net := w_net w; w_initialized := w_initialized w; w_game := w_game w;
     w_managers := w_managers w; w_batches := v; w_progress := w_progress w;
     w_timers := w_timers w; w_audio := w_audio w; w_console := w_console w;
     w_rng := w_rng w; w_draws := w_draws w |}.

Definition set_progress v (w : world) : world :=
  {| w_nodes := w_nodes w; w_document := w_document w; w_body := w_body w;
     w_storage := w_storage w; w_storage_log := w_storage_log w;
     w_net := w_net w; w_initialized := w_initialized w; w_game := w_game w;
     w_managers := w_managers w; w_batches := w_batches w; w_progress := v;
     w_timers := w_timers w; w_audio := w_audio w; w_console := w_console w;
     w_rng := w_rng w; w_draws := w_draws w |}.

Definition set_timers v (w : world) : world :=
  {| w_nodes := w_nodes w; w_document := w_document w; w_body := w_body w;
     w_storage := w_storage w; w_storage_log := w_storage_log w;
     w_net := w_net w; w_initialized := w_initialized w; w_game := w_game w;
     w_managers := w_managers w; w_batches := w_batches w;
     w_progress := w_progress w; w_timers := v; w_audio := w_audio w;
     w_console := w_console w; w_rng := w_rng w; w_draws := w_draws w |}.

Definition set_audio v (w : world) : world :=
  {| w_nodes := w_nodes w; w_document := w_document w; w_body := w_body w;
     w_storage := w_storage w; w_storage_log := w_storage_log w;
     w_net := w_net w; w_initialized := w_initialized w; w_game := w_game w;
     w_managers := w_managers w; w_batches := w_batches w;
     w_progress := w_progress w; w_timers := w_timers w; w_audio := v;
     w_console := w_console w; w_rng := w_rng w; w_draws := w_draws w |}.

Definition set_console v (w : world) : world :=
  {| w_nodes := w_nodes w; w_document := w_document w; w_body := w_body w;
     w_storage := w_storage w; w_storage_log := w_storage_log w;
     w_net := w_net w; w_initialized := w_initialized w; w_game := w_game w;
     w_managers := w_managers w; w_batches := w_batches w;
     w_progress := w_progress w; w_timers := w_timers w;
     w_audio := w_audio w; w_console := v; w_rng := w_rng w;
     w_draws := w_draws w |}.

Definition set_draws v (w : world) : world :=
  {| w_nodes := w_nodes w; w_document := w_document w; w_body := w_body w;
     w_storage := w_storage w; w_storage_log := w_storage_log w;
     w_net := w_net w; w_initialized := w_initialized w; w_game := w_game w;
     w_managers := w_managers w; w_batches := w_batches w;
     w_progress := w_progress w; w_timers := w_timers w;
     w_audio := w_audio w; w_console := w_console w; w_rng := w_rng w;
     w_draws := v |}.

(** *** Computations: state and exceptions

    A computation runs on a world and either returns or throws (the only
    exception this script can raise is the [TypeError] of a property access
    on [null]); the world it leaves behind is kept in both cases. *)
Inductive result (A : Type) : Type :=
  | Ok (a : A)
  | Throw.
Arguments Ok {A} a.
Arguments Throw {A}.

Definition M (A : Type) : Type := world -> world * result A.

Definition ret {A} (a : A) : M A := fun w => (w, Ok a).
Definition throw {A} : M A := fun w => (w, Throw).

Definition bind {A B} (m : M A) (k : A -> M B) : M B :=
  fun w =>
    match m w with
    | (w', Ok a) => k a w'
    | (w', Throw) => (w', Throw)
    end.

Definition get {A} (f : world -> A) : M A := fun w => (w, Ok (f w)).
Definition modify (f : world -> world) : M unit := fun w => (f w, Ok tt).

(** [try { m } catch { }]: the outcome of [m] as a value. *)
Definition catch {A} (m : M A) : M (result A) :=
  fun w => let '(w', r) := m w in (w', Ok r).

Definition exec {A} (m : M A) (w : world) : world := fst (m w).

Declare Scope js_scope.
Delimit Scope js_scope with js.
Notation "'let*' x := m 'in' k" := (bind m (fun x => k))
  (at level 10, x pattern, m at level 100, k at level 200) : js_scope.
Notation "m ;; k" := (bind m (fun _ => k))
  (at level 100, k at level 200, right associativity) : js_scope.
Local Open Scope js_scope.

(** *** DOM primitives *)

Definition getElementById (id : string) : M (option nat) :=
  get (fun w => w_document w !! id).

(** Dereferencing a handle: [null] throws. *)
Definition deref (h : option nat) : M nat :=
  match h with
  | Some n => ret n
  | None => throw
  end.

Definition update_node (n : nat) (f : node -> node) : M unit :=
  modify (fun w =>
    set_nodes (match w_nodes w !! n with
               | Some x => <[ n := f x ]> (w_nodes w)
               | None => w_nodes w
               end) w).

(** The [innerText] setter: the text replaces the children. *)
Definition set_text (s : string) (x : node) : node :=
  {| n_tag := n_tag x; n_text := s; n_onclick := n_onclick x;
     n_rect := n_rect x; n_children := []; n_src := n_src x;
     n_class := n_class x; n_style := n_style x;
     n_onanimationend := n_onanimationend x |}.

Definition set_onclick (b : bool) (x : node) : node :=
  {| n_tag := n_tag x; n_text := n_text x; n_onclick := b;
     n_rect := n_rect x; n_children := n_children x; n_src := n_src x;
     n_class := n_class x; n_style := n_style x;
     n_onanimationend := n_onanimationend x |}.

Definition set_children (l : list nat) (x : node) : node :=
  {| n_tag := n_tag x; n_text := n_text x; n_onclick := n_onclick x;
     n_rect := n_rect x; n_children := l; n_src := n_src x;
     n_class := n_class x; n_style := n_style x;
     n_onanimationend := n_onanimationend x |}.

(** [document.createElement]: the node gets the next free reference. *)
Definition createElement (x : node) : M nat :=
  fun w => (set_nodes (w_nodes w ++ [x]) w, Ok (length (w_nodes w))).

(** [parent.appendChild(child)]. *)
Definition appendChild (parent child : nat) : M unit :=
  update_node parent (fun x => set_children (n_children x ++ [child]) x).

(** [document.body.appendChild(child)]. *)
Definition body_appendChild (child : nat) : M unit :=
  modify (fun w => set_body (w_body w ++ [child]) w).

Definition drop_ref (n : nat) (l : list nat) : list nat :=
  List.filter (fun m => negb (Nat.eqb m n)) l.

(** [node.remove()]: the node leaves its parent, whichever it is. *)
Definition remove (n : nat) : M unit :=
  modify (fun w =>
    set_document (filter (fun kv => kv.2 ≠ n) (w_document w))
      (set_body (drop_ref n (w_body w))
         (set_nodes
            (List.map (fun x => set_children (drop_ref n (n_children x)) x)
                      (w_nodes w)) w))).

(** *** Storage, network, console, randomness *)

Definition localStorage_getItem (key : string) : M (option string) :=
  fun w => (set_storage_log (w_storage_log w ++ [GetItem key]) w,
            Ok (w_storage w !! key)).

Definition localStorage_setItem (key value : string) : M unit :=
  modify (fun w =>
    set_storage (<[ key := value ]> (w_storage w))
      (set_storage_log (w_storage_log w ++ [SetItem key value]) w)).

Definition issue (r : request) : M unit :=
  modify (fun w => set_net (w_net w ++ [r]) w).

Definition console_log (s : string) : M unit :=
  modify (fun w => set_console (w_console w ++ [s]) w).

Definition Math_random : M Q :=
  fun w => (set_draws (S (w_draws w)) w, Ok (w_rng w (w_draws w))).

Definition update_game (f : game -> game) : M unit :=
  modify (fun w => set_game (f (w_game w)) w).

End Browser.

(* ===================================================================== *)
(** ** 3. [ResourceManager] *)
(* ===================================================================== *)

Module ResourceManager.

Import JS Config Browser.
Local Open Scope js_scope.

(** How the body of one audio task ends: [fetch], [blob()] and the
    [FileReader] hand back the data URL; or the reader ends on a failed
    read, and [_blobToBase64] resolves with its [result], which is then
    [null]; or one of the awaited promises rejects. *)
Inductive outcome : Type :=
  | Loaded (base64 : string)
  | ReadError
  | Failed.

(** [arr[i]] for a computed index: [undefined] out of range. *)
Definition js_index {A} (l : list A) (i : Z) : option A :=
  if i <? 0 then None else l !! Z.to_nat i.

(** The arrow function that [ArisGame.init] passes as [onProgress]
    (script.js, lines 134-138).  The quotient and product are taken
    exactly. *)
(** [Math.floor((current / total) * 100)]: the quotient and the product are
    each rounded to a double; a zero [total] gives [NaN] or [Infinity]. *)
Definition percentage (current total : nat) : num :=
  match total, current with
  | O, O => NaN
  | O, _ => PInf
  | _, _ =>
      Int (Qfloor (fl (fl (inject_Z (Z.of_nat current)
                           / inject_Z (Z.of_nat total)) * 100)))
  end.

Definition init_onProgress (current total : nat) : M unit :=
  let progress := percentage current total in
  let* b := get (fun w => btn (elems (w_game w))) in
  let* n := deref b in
  update_node n (set_text ("Loading " ++ to_string progress ++ "%")).

Definition call (c : callback) (current total : nat) : M unit :=
  match c with
  | InitProgress => init_onProgress current total
  | Host throws => if throws current total then throw else ret tt
  end.

(** [new ResourceManager()]. *)
Definition constructor : M nat :=
  fun w => (set_managers (w_managers w ++
                          [ {| audioCache := []; isReady := false |} ]) w,
            Ok (length (w_managers w))).

Definition update_manager (m : nat) (f : resource_manager -> resource_manager)
  : M unit :=
  modify (fun w =>
    set_managers (match w_managers w !! m with
                  | Some x => <[ m := f x ]> (w_managers w)
                  | None => w_managers w
                  end) w).

Definition update_batch (b : nat) (f : batch -> batch) : M unit :=
  modify (fun w =>
    set_batches (match w_batches w !! b with
                 | Some x => <[ b := f x ]> (w_batches w)
                 | None => w_batches w
                 end) w).

Fixpoint for_each {A} (l : list A) (f : A -> M unit) : M unit :=
  match l with
  | [] => ret tt
  | a :: r => f a ;; for_each r f
  end.

Section WithConfig.

Variable cfg : config.

(** [loadAll(onProgress)], up to its [await]: every task has run up to its
    own first [await] (the request is out), the images are requested, and
    the promise of the batch is returned. *)
Definition loadAll (m : nat) (onProgress : option callback) : M nat :=
  for_each (audioList cfg) (fun url => issue (Fetch url)) ;;
  for_each (preloadImages cfg) (fun src => issue (ImageLoad src)) ;;
  fun w =>
    (set_batches
       (w_batches w ++
        [ {| b_manager := m; b_loadedCount := 0;
             b_total := length (audioList cfg);
             b_tasks := replicate (length (audioList cfg)) Pending;
             b_onProgress := onProgress; b_promise := Pending;
             b_then_ready := false |} ]) w,
     Ok (length (w_batches w))).

(** [await Promise.all(audioTasks); this.isReady = true]: the promise of the
    batch rejects as soon as one task has rejected, and resolves, after
    setting the flag, once all have fulfilled.  Returns whether it resolved
    in this step. *)
Definition join (b : nat) : M bool :=
  let* ob := get (fun w => w_batches w !! b) in
  match ob with
  | Some x =>
      match b_promise x with
      | Pending =>
          if existsb (fun t => match t with Rejected => true | _ => false end)
                     (b_tasks x)
          then
            update_batch b (fun x =>
              {| b_manager := b_manager x; b_loadedCount := b_loadedCount x;
                 b_total := b_total x; b_tasks := b_tasks x;
                 b_onProgress := b_onProgress x; b_promise := Rejected;
                 b_then_ready := b_then_ready x |}) ;;
            ret false
          else if forallb (fun t => match t with Fulfilled => true
                                            | _ => false end) (b_tasks x)
          then
            update_manager (b_manager x) (fun r =>
              {| audioCache := audioCache r; isReady := true |}) ;;
            update_batch b (fun x =>
              {| b_manager := b_manager x; b_loadedCount := b_loadedCount x;
                 b_total := b_total x; b_tasks := b_tasks x;
                 b_onProgress := b_onProgress x; b_promise := Fulfilled;
                 b_then_ready := b_then_ready x |}) ;;
            ret true
          else ret false
      | _ => ret false
      end
  | None => ret false
  end.

(** The rest of task [i] of batch [b], run when its awaited promises
    settle with outcome [o]: the [try] pushes or the [catch] logs, the
    [finally] counts and reports; an exception of the callback rejects the
    task.  Then the [await] of [loadAll] is revisited. *)
Definition settle (b i : nat) (o : outcome) : M bool :=
  let* ob := get (fun w => w_batches w !! b) in
  match ob with
  | Some x =>
      match b_tasks x !! i with
      | Some Pending =>
          match o with
          | Loaded base64 =>
              update_manager (b_manager x) (fun r =>
                {| audioCache := audioCache r ++ [Some base64];
                   isReady := isReady r |})
          | ReadError =>
              update_manager (b_manager x) (fun r =>
                {| audioCache := audioCache r ++ [None];
                   isReady := isReady r |})
          | Failed =>
              console_log ("Failed to load audio: "
                           ++ default "" (audioList cfg !! i))
          end ;;
          let loadedCount := S (b_loadedCount x) in
          let* r :=
            catch
              match b_onProgress x with
              | Some c =>
                  modify (fun w =>
                    set_progress
                      (w_progress w ++ [(b, loadedCount, b_total x)]) w) ;;
                  call c loadedCount (b_total x)
              | None => ret tt
              end in
          update_batch b (fun x =>
            {| b_manager := b_manager x; b_loadedCount := loadedCount;
               b_total := b_total x;
               b_tasks := <[ i := match r with
                                  | Ok _ => Fulfilled
                                  | Throw => Rejected
                                  end ]> (b_tasks x);
               b_onProgress := b_onProgress x; b_promise := b_promise x;
               b_then_ready := b_then_ready x |}) ;;
          join b
      | _ => ret false
      end
  | None => ret false
  end.

End WithConfig.

(** [getRandomAudio()]: [None] is [null] (or [undefined]). *)
Definition getRandomAudio (m : nat) : M (option string) :=
  let* cache := get (fun w => match w_managers w !! m with
                              | Some r => audioCache r
                              | None => []
                              end) in
  if Nat.eqb (length cache) 0 then ret None
  else
    let* r := Math_random in
    ret (match js_index cache (floor_mul r (length cache)) with
         | Some entry => entry
         | None => None
         end).

End ResourceManager.

(* ===================================================================== *)
(** ** 4. [ArisGame], the controller *)
(* ===================================================================== *)

Module ArisGame.

Import JS Config Browser ResourceManager.
Local Open Scope js_scope.

(** The fields of a pointer event that the script reads, two finite
    doubles. *)
Record pointer_event : Type := {
  clientX : Q;
  clientY : Q
}.

Definition set_count (c : num) (g : game) : game :=
  {| manager := manager g; count := c; elems := elems g |}.

Definition set_manager (m : option nat) (g : game) : game :=
  {| manager := m; count := count g; elems := elems g |}.

Definition set_elems (e : elements) (g : game) : game :=
  {| manager := manager g; count := count g; elems := e |}.

Definition Math_max (a b : Q) : Q := if Qle_bool a b then b else a.

(** The keys that [refreshTexts] passes to its local [setRandomText]. *)
Inductive text_key : Type :=
  | CounterButton
  | CounterDescriptions
  | CounterUnit.

Definition key_name (k : text_key) : string :=
  match k with
  | CounterButton => "counter-button"
  | CounterDescriptions => "counter-descriptions"
  | CounterUnit => "counter-unit"
  end.

Section WithConfig.

Variable cfg : config.

(** The local [setRandomText] of [refreshTexts].  The closure is called at
    three places, each with a literal key; none of the three names a
    property that an object inherits, so [GAME_CONFIG.texts[key]] is the
    lookup among the object's own properties. *)
Definition setRandomText (elem : option nat) (key : text_key) : M unit :=
  match elem, texts cfg !! key_name key with
  | Some n, Some (Fixed s) =>
      if String.eqb s "" then ret tt else update_node n (set_text s)
  | Some n, Some (Variants l) =>
      let* r := Math_random in
      update_node n
        (set_text (default "undefined" (js_index l (floor_mul r (length l)))))
  | _, _ => ret tt
  end.

Definition refreshTexts : M unit :=
  let* e := get (fun w => elems (w_game w)) in
  setRandomText (btn e) CounterButton ;;
  let* e := get (fun w => elems (w_game w)) in
  setRandomText (ctDesc e) CounterDescriptions ;;
  let* e := get (fun w => elems (w_game w)) in
  setRandomText (ctUnit e) CounterUnit.

Definition updateDisplay (randomizeText : bool) : M unit :=
  let* g := get w_game in
  match counter (elems g) with
  | Some n => update_node n (set_text (to_locale_string (count g)))
  | None => ret tt
  end ;;
  if randomizeText then refreshTexts else ret tt.

Definition playAudio : M unit :=
  let* m := get (fun w => manager (w_game w)) in
  let* m := deref m in
  let* source := getRandomAudio m in
  match source with
  | None => ret tt
  | Some s =>
      if String.eqb s "" then ret tt
      else modify (fun w =>
             set_audio (w_audio w ++ [ {| a_src := s; a_volume := 0.6 |} ]) w)
  end.

Definition spawnHerta : M unit :=
  let* r := Math_random in
  let id := floor_mul r 2 + 1 in
  let* img :=
    createElement
      {| n_tag := "img"; n_text := ""; n_onclick := false;
         n_rect := zero_rect; n_children := [];
         n_src := "img/arisu" ++ to_string (Int id) ++ ".gif";
         n_class := [ "herta-animation-obj" ]; n_style := None;
         n_onanimationend := true |} in
  body_appendChild img.

(** The style, class and timer given to the ripple of a click at [e] on a
    button laid out at [rect]. *)
Definition ripple_size (rect : rect) : Q :=
  Math_max (r_width rect) (r_height rect).

(** [x = e.clientX - rect.left - size / 2] and [y] likewise: two
    subtractions and a halving, each rounded to a double. *)
Definition ripple_style (rect : rect) (e : pointer_event) : style :=
  let size := ripple_size rect in
  let half := to_double (size / 2) in
  let x := js_sub (js_sub (Some (clientX e)) (Some (r_left rect))) half in
  let y := js_sub (js_sub (Some (clientY e)) (Some (r_top rect))) half in
  {| s_width := size; s_height := size; s_left := x; s_top := y |}.

Definition createRipple (e : pointer_event) : M unit :=
  let* b := get (fun w => btn (elems (w_game w))) in
  let* ripple := createElement (new_node "span") in
  let* b := deref b in
  let* rect := get (fun w => match w_nodes w !! b with
                             | Some x => n_rect x
                             | None => zero_rect
                             end) in
  update_node ripple (fun x =>
    {| n_tag := n_tag x; n_text := n_text x; n_onclick := n_onclick x;
       n_rect := n_rect x; n_children := n_children x; n_src := n_src x;
       n_class := n_class x ++ [ "ripple" ];
       n_style := Some (ripple_style rect e);
       n_onanimationend := n_onanimationend x |}) ;;
  appendChild b ripple ;;
  modify (fun w => set_timers (w_timers w ++ [ (400, ripple) ]) w).

Definition handleInteraction (e : pointer_event) : M unit :=
  update_game (fun g => set_count (succ (count g)) g) ;;
  let* c := get (fun w => count (w_game w)) in
  localStorage_setItem "count-v2" (to_string c) ;;
  updateDisplay true ;;
  playAudio ;;
  spawnHerta ;;
  createRipple e.

Definition onGameReady : M unit :=
  let* l := get (fun w => loading (elems (w_game w))) in
  match l with
  | Some n => remove n
  | None => ret tt
  end ;;
  let* b := get (fun w => btn (elems (w_game w))) in
  let* b := deref b in
  update_node b (set_onclick true) ;;
  refreshTexts.

(** The lookups of step 1 of [init]. *)
Definition lookup_elements : M elements :=
  let* e_btn := getElementById "counter-button" in
  let* e_counter := getElementById "local-counter" in
  let* e_loading := getElementById "loading" in
  let* e_title := getElementById "page-title" in
  let* e_desc := getElementById "page-descriptions" in
  let* e_ctDesc := getElementById "counter-descriptions" in
  let* e_ctUnit := getElementById "counter-unit" in
  ret {| btn := e_btn; counter := e_counter; loading := e_loading;
         title := e_title; desc := e_desc; ctDesc := e_ctDesc;
         ctUnit := e_ctUnit |}.

(** [a || '0'] on what [getItem] returned: [null] and the empty string are
    falsy. *)
Definition or_zero (v : option string) : string :=
  match v with
  | None => "0"
  | Some s => if String.eqb s "" then "0" else s
  end.

(** [init()], up to the point where it returns; the result is the batch
    on whose promise [onGameReady] was chained, if any. *)
Definition init : M (option nat) :=
  let* e := lookup_elements in
  update_game (set_elems e) ;;
  match btn e with
  | None => ret None
  | Some _ =>
      let* v := localStorage_getItem "count-v2" in
      update_game (set_count (parseInt (or_zero v))) ;;
      updateDisplay false ;;
      let* m := constructor in
      update_game (set_manager (Some m)) ;;
      let* b := loadAll cfg m (Some InitProgress) in
      update_batch b (fun x =>
        {| b_manager := b_manager x; b_loadedCount := b_loadedCount x;
           b_total := b_total x; b_tasks := b_tasks x;
           b_onProgress := b_onProgress x; b_promise := b_promise x;
           b_then_ready := true |}) ;;
      ret (Some b)
  end.

End WithConfig.

End ArisGame.

(* ===================================================================== *)
(** ** 5. Entry points and the event loop *)
(* ===================================================================== *)

Module Entry.

Import JS Config Browser ResourceManager ArisGame.
Local Open Scope js_scope.

(** [main()]. *)
Definition main : M (option nat) :=
  let* initialized := get w_initialized in
  if initialized then ret None
  else init GAME_CONFIG.

(** The listener of [pjax:complete]. *)
Definition on_pjax_complete : M (option nat) := init GAME_CONFIG.

(** The listener of [pjax:send]: an empty body. *)
Definition on_pjax_send : M unit := ret tt.

(** The reaction chained by [.then(() => this.onGameReady())], run when the
    promise of batch [b] has just resolved. *)
Definition then_ready (b : nat) (resolved : bool) : M unit :=
  let* ob := get (fun w => w_batches w !! b) in
  match ob with
  | Some x =>
      if resolved && b_then_ready x
      then (let* _ := catch (onGameReady GAME_CONFIG) in ret tt)
      else ret tt
  | None => ret tt
  end.

(** What the host does, and what runs in response. *)
Inductive event : Type :=
  | DOMContentLoaded
  | PjaxSend
  | PjaxComplete (page : list (string * node))
  | TaskSettled (b i : nat) (o : outcome)
  | Click (n : nat) (e : pointer_event)
  | Timeout (k : nat)
  | AnimationEnd (n : nat).

(** The page swap that precedes [pjax:complete] ([swap_page]): fresh
    nodes, a fresh id table. *)
Fixpoint install (page : list (string * node)) : M unit :=
  match page with
  | [] => ret tt
  | (id, x) :: r =>
      let* n := createElement x in
      modify (fun w => set_document (<[ id := n ]> (w_document w)) w) ;;
      install r
  end.

Definition swap_page (page : list (string * node)) : M unit :=
  modify (fun w => set_body [] (set_document ∅ w)) ;;
  install page.

(** A listener that started a batch is followed by the microtask that
    revisits the batch (it resolves at once when there is no audio). *)
Definition after_init (m : M (option nat)) : M unit :=
  let* r := catch m in
  match r with
  | Ok (Some b) =>
      let* resolved := join b in
      then_ready b resolved
  | _ => ret tt
  end.

Definition dispatch (ev : event) : M unit :=
  match ev with
  | DOMContentLoaded => after_init main
  | PjaxSend => on_pjax_send
  | PjaxComplete page =>
      swap_page page ;;
      after_init on_pjax_complete
  | TaskSettled b i o =>
      let* resolved := settle GAME_CONFIG b i o in
      then_ready b resolved
  | Click n e =>
      let* bound := get (fun w => match w_nodes w !! n with
                                  | Some x => n_onclick x
                                  | None => false
                                  end) in
      if bound
      then (let* _ := catch (handleInteraction GAME_CONFIG e) in ret tt)
      else ret tt
  | Timeout k =>
      let* t := get (fun w => w_timers w !! k) in
      match t with
      | Some (_, n) => remove n
      | None => ret tt
      end
  | AnimationEnd n =>
      let* h := get (fun w => match w_nodes w !! n with
                              | Some x => n_onanimationend x
                              | None => false
                              end) in
      if h then remove n else ret tt
  end.

Fixpoint run (evs : list event) (w : world) : world :=
  match evs with
  | [] => w
  | ev :: r => run r (exec (dispatch ev) w)
  end.

(** A page as the host presents it before any script ran. *)
Definition fresh_world (storage : gmap string string) (rng : nat -> Q)
  : world :=
  {| w_nodes := []; w_document := ∅; w_body := []; w_storage := storage;
     w_storage_log := []; w_net := []; w_initialized := false;
     w_game := {| manager := None; count := Int 0; elems := no_elements |};
     w_managers := []; w_batches := []; w_progress := []; w_timers := [];
     w_audio := []; w_console := []; w_rng := rng; w_draws := 0 |}.

(** The widget's page: the button, the counter, the loading indicator and
    the two text slots; [box] is the layout box of the button. *)
Definition game_page (box : rect) : list (string * node) :=
  [ ("counter-button",
     {| n_tag := "button"; n_text := ""; n_onclick := false; n_rect := box;
        n_children := []; n_src := ""; n_class := []; n_style := None;
        n_onanimationend := false |});
    ("local-counter", new_node "span");
    ("loading", new_node "div");
    ("counter-descriptions", new_node "span");
    ("counter-unit", new_node "span") ].

End Entry.

(* ===================================================================== *)
(** ** 6. Sample sessions *)
(* ===================================================================== *)

Module Scenario.

Import JS Config Browser ResourceManager ArisGame Entry.

Definition box : rect :=
  {| r_left := 10; r_top := 20; r_width := 100; r_height := 40 |}.

(** The widget's page, loaded, before [DOMContentLoaded]. *)
Definition page_world (storage : gmap string string) (rng : nat -> Q)
  : world :=
  exec (install (game_page box)) (fresh_world storage rng).

(** The same page once both audio files have arrived. *)
Definition ready_world (storage : gmap string string) (rng : nat -> Q)
  : world :=
  run [ DOMContentLoaded;
        TaskSettled 0 0 (Loaded "data:audio/mpeg;base64,AAAA");
        TaskSettled 0 1 (Loaded "data:audio/mpeg;base64,BBBB") ]
      (page_world storage rng).

(** The results of [k] calls of [getRandomAudio] in a row. *)
Fixpoint draw_many (m k : nat) (w : world) : list (result (option string)) :=
  match k with
  | O => []
  | S k' =>
      let '(w', r) := getRandomAudio m w in
      r :: draw_many m k' w'
  end.

(** A page of the site that does not carry the widget. *)
Definition other_page : list (string * node) :=
  [ ("page-title", new_node "h1") ].

(** The widget's page while its audio is still loading. *)
Definition loading_world (storage : gmap string string) (rng : nat -> Q)
  : world :=
  run [ DOMContentLoaded ] (page_world storage rng).

(** The same session after the visitor has moved to [other_page]: the page
    is swapped, [pjax:complete] has not been dispatched yet. *)
Definition navigated_world (storage : gmap string string) (rng : nat -> Q)
  : world :=
  exec (swap_page other_page) (loading_world storage rng).

(** The session after [pjax:complete] on [other_page]: [init] has aborted,
    the audio of the widget's page is still loading. *)
Definition stale_world (storage : gmap string string) (rng : nat -> Q)
  : world :=
  run [ PjaxComplete other_page ] (loading_world storage rng).

(** A world in which some other script has set
    [window.arisGameInitialized]. *)
Definition flagged (w : world) : world :=
  {| w_nodes := w_nodes w; w_document := w_document w; w_body := w_body w;
     w_storage := w_storage w; w_storage_log := w_storage_log w;
     w_net := w_net w; w_initialized := true; w_game := w_game w;
     w_managers := w_managers w; w_batches := w_batches w;
     w_progress := w_progress w; w_timers := w_timers w;
     w_audio := w_audio w; w_console := w_console w; w_rng := w_rng w;
     w_draws := w_draws w |}.

(** A sequence of interactions, each handled by [handleInteraction]. *)
Fixpoint interactions (es : list pointer_event) (w : world) : world :=
  match es with
  | [] => w
  | e :: r => interactions r (exec (handleInteraction GAME_CONFIG e) w)
  end.

(** The writes that [n] interactions make when the counter starts at the
    integer [s] and stays exact: one per interaction, in order. *)
Fixpoint counter_writes (s : Z) (n : nat) : list storage_op :=
  match n with
  | O => []
  | S k => counter_writes s k
           ++ [ SetItem "count-v2" (to_string (Int (s + Z.of_nat (S k)))) ]
  end.

(** A computation that leaves the controller's fields and the storage
    alone, whether it returns or throws. *)
Definition keeps_counter {A} (m : M A) : Prop :=
  forall w : world,
    w_game (fst (m w)) = w_game w /\
    w_storage (fst (m w)) = w_storage w /\
    w_storage_log (fst (m w)) = w_storage_log w.

(** A run of one batch: the tasks of batch [b] settle in the order of
    [sched], each entry giving the index of the task and how it ended. *)
Fixpoint settle_all (cfg : config) (b : nat) (sched : list (nat * outcome))
    (w : world) : world :=
  match sched with
  | [] => w
  | (i, o) :: r => settle_all cfg b r (exec (settle cfg b i o) w)
  end.

(** The entries that a schedule pushes on the cache, in completion order:
    the payload of a task that loaded, [null] for one whose read failed. *)
Fixpoint loaded_payloads (sched : list (nat * outcome))
  : list (option string) :=
  match sched with
  | [] => []
  | (_, Loaded base64) :: r => Some base64 :: loaded_payloads r
  | (_, ReadError) :: r => None :: loaded_payloads r
  | (_, Failed) :: r => loaded_payloads r
  end.

(** The console lines of its failures, in completion order. *)
Fixpoint failure_logs (cfg : config) (sched : list (nat * outcome))
  : list string :=
  match sched with
  | [] => []
  | (_, Loaded _) :: r => failure_logs cfg r
  | (_, ReadError) :: r => failure_logs cfg r
  | (i, Failed) :: r =>
      ("Failed to load audio: " ++ default "" (audioList cfg !! i))%string
      :: failure_logs cfg r
  end.

(** The calls [onProgress(1, total)], ..., [onProgress(k, total)] of
    batch [b]. *)
Definition progress_calls (b k total : nat) : list (nat * nat * nat) :=
  List.map (fun j => (b, j, total)) (seq 1 k).

(** The task table after the tasks of [sched] have fulfilled. *)
Fixpoint mark_done (sched : list (nat * outcome)) (t : list task_state)
  : list task_state :=
  match sched with
  | [] => t
  | (i, _) :: r => mark_done r (<[ i := Fulfilled ]> t)
  end.

(** The callback returns normally from every call made in world [w]: there
    is none, or it is the arrow function of [init] and the button handle is
    bound, or it is a host function that does not throw. *)
Definition returns_normally (cb : option callback) (w : world) : Prop :=
  match cb with
  | None => True
  | Some InitProgress => btn (elems (w_game w)) <> None
  | Some (Host throws) => forall current total, throws current total = false
  end.

(** The callback throws when called with [(current, total)] in world [w]:
    it is the arrow function of [init] and the button handle is [null], or
    a host function that throws on these arguments. *)
Definition throws_at (cb : option callback) (current total : nat) (w : world)
  : Prop :=
  match cb with
  | None => False
  | Some InitProgress => btn (elems (w_game w)) = None
  | Some (Host throws) => throws current total = true
  end.

(** A schedule settles each task at most once, and only tasks of the
    batch. *)
Definition valid_schedule (total : nat) (sched : list (nat * outcome))
  : Prop :=
  NoDup (List.map fst sched) /\
  Forall (fun i => (i < total)%nat) (List.map fst sched).

Definition is_pending (t : task_state) : bool :=
  match t with Pending => true | _ => false end.

(** Whether node [n] carries the click handler ([None]: no such node). *)
Definition onclick_of (w : world) (n : nat) : option bool :=
  n_onclick <$> (w_nodes w !! n).

(** A computation that changes no node's click handler and leaves the
    document's id table alone, whether it returns or throws. *)
Definition keeps_clicks {A} (m : M A) : Prop :=
  forall w : world,
    (forall k, onclick_of (fst (m w)) k = onclick_of w k) /\
    w_document (fst (m w)) = w_document w.

(** A computation that leaves the text of node [n] as it is, whether it
    returns or throws. *)
Definition keeps_text (n : nat) {A} (m : M A) : Prop :=
  forall (w : world) (x : node),
    w_nodes w !! n = Some x ->
    exists x', w_nodes (fst (m w)) !! n = Some x' /\ n_text x' = n_text x.






(** How far the centre of a ripple can be from the pointer's offset [a] in
    the box, for a ripple of size [s]: the rounding errors of the two
    subtractions and of the halving. *)
Definition centre_error (a s : Q) : Q :=
  (err a + err (s / 2) + err (fl a - fl (s / 2)))%Q.

(** The handle record that [init] assigns: one [getElementById] per
    field. *)
Definition lookups (w : world) : elements :=
  {| btn := w_document w !! "counter-button";
     counter := w_document w !! "local-counter";
     loading := w_document w !! "loading";
     title := w_document w !! "page-title";
     desc := w_document w !! "page-descriptions";
     ctDesc := w_document w !! "counter-descriptions";
     ctUnit := w_document w !! "counter-unit" |}.

(** What [init] would read back from storage as the counter. *)
Definition persisted_counter (w : world) : num :=
  parseInt (or_zero (w_storage w !! "count-v2")).

End Scenario.

(* ===================================================================== *)
(** ** 7. Properties *)
(* ===================================================================== *)

Import JS Config Browser ResourceManager ArisGame Entry Scenario.

(** *** Rounding to a double, and random indices *)

Lemma pow2_pos (z : Z) : (0 < pow2 z)%Q.
Proof. apply Qpower_0_lt. reflexivity. Qed.

Lemma pow2_add (a b : Z) : (pow2 (a + b) == pow2 a * pow2 b)%Q.
Proof. apply Qpower_plus. discriminate. Qed.

Lemma pow2_Z (z : Z) : 0 <= z -> (pow2 z == inject_Z (2 ^ z))%Q.
Proof. intros H. symmetry. apply (Zpower_Qpower 2 z H). Qed.

Lemma pow2_sub (a b : Z) : (pow2 (a - b) == pow2 a / pow2 b)%Q.
Proof. apply Qpower_minus. discriminate. Qed.

Lemma pow2_le (a b : Z) : a <= b -> (pow2 a <= pow2 b)%Q.
Proof. intros H. apply Qpower_le_compat_l; [exact H | discriminate]. Qed.

Lemma pow2_lt_inv (a b : Z) : (pow2 a < pow2 b)%Q -> a < b.
Proof. intros H. apply (Qpower_lt_compat_l_inv 2); [exact H | reflexivity]. Qed.

Lemma ilog2_le (q : Q) : (0 < q)%Q -> (pow2 (ilog2 q) <= q)%Q.
Proof.
  intros Hq. unfold ilog2.
  destruct (Qle_bool _ q) eqn:E; [apply Qle_bool_iff; exact E|].
  clear E. destruct q as [a b]. cbn [Qnum Qden].
  assert (Ha : 0 < a) by (unfold Qlt in Hq; cbn in Hq; lia).
  set (la := Z.log2 a). set (lb := Z.log2 (Z.pos b)).
  assert (Hla : 0 <= la) by apply Z.log2_nonneg.
  assert (Hlb : 0 <= lb) by apply Z.log2_nonneg.
  replace (la - lb - 1) with (la - (lb + 1)) by lia.
  rewrite pow2_sub, (pow2_Z la Hla), (pow2_Z (lb + 1)) by lia.
  destruct (Z.log2_spec a Ha) as [A1 _]. fold la in A1.
  destruct (Z.log2_spec (Z.pos b) ltac:(lia)) as [_ B1].
  fold lb in B1. rewrite <- Z.add_1_r in B1.
  set (A := 2 ^ la) in *. set (B := 2 ^ (lb + 1)) in *.
  assert (HA : 0 < A) by (apply Z.pow_pos_nonneg; lia).
  destruct B as [|pB|pB]; try lia.
  unfold Qle, Qdiv, Qinv, Qmult, inject_Z. cbn [Qnum Qden].
  nia.
Qed.

Lemma round_half_even_bounds (s : Q) :
  (s - (1 # 2) <= inject_Z (round_half_even s) <= s + (1 # 2))%Q.
Proof.
  unfold round_half_even.
  pose proof (Qfloor_le s) as L. pose proof (Qlt_floor s) as U.
  rewrite inject_Z_plus in U. change (inject_Z 1) with 1%Q in U.
  set (f := Qfloor s) in *.
  destruct (Qcompare_spec (s - inject_Z f) (1 # 2)) as [E|E|E].
  - destruct (Z.even f); rewrite ?inject_Z_plus;
      change (inject_Z 1) with 1%Q; lra.
  - lra.
  - rewrite inject_Z_plus. change (inject_Z 1) with 1%Q. lra.
Qed.

Lemma round_half_even_comp (s t : Q) :
  (s == t)%Q -> round_half_even s = round_half_even t.
Proof.
  intros E. unfold round_half_even.
  rewrite (Qfloor_comp s t E).
  assert (E' : (s - inject_Z (Qfloor t) == t - inject_Z (Qfloor t))%Q)
    by (rewrite E; reflexivity).
  rewrite (Qcompare_comp _ _ E' (1 # 2) (1 # 2) (Qeq_refl _)). reflexivity.
Qed.

Lemma round_half_even_Z (k : Z) : round_half_even (inject_Z k) = k.
Proof.
  unfold round_half_even. rewrite Qfloor_Z.
  destruct (Qcompare_spec (inject_Z k - inject_Z k) (1 # 2)) as [E|E|E];
    [lra | reflexivity | lra].
Qed.

Lemma fl_pos_eq (q : Q) :
  (fl_pos q
   == inject_Z (round_half_even (q / pow2 (ulp_exp q))) * pow2 (ulp_exp q))%Q.
Proof. unfold fl_pos. apply Qred_correct. Qed.

Lemma half_ulp (q : Q) :
  (0 < q)%Q -> (pow2 (ulp_exp q) * (1 # 2) <= q * unit_roundoff + half_min_ulp)%Q.
Proof.
  intros Hq. unfold ulp_exp.
  assert (T : (0 < half_min_ulp)%Q) by reflexivity.
  assert (Ep : (0 < unit_roundoff)%Q) by reflexivity.
  destruct (Z.max_spec (ilog2 q - 52) (-1074)) as [[_ E]|[_ E]]; rewrite E.
  - assert (X : (pow2 (-1074) * (1 # 2) == half_min_ulp)%Q) by (vm_compute; reflexivity).
    rewrite X. assert (0 <= q * unit_roundoff)%Q by (apply Qmult_le_0_compat; lra). lra.
  - replace (ilog2 q - 52) with (ilog2 q + (-52)) by lia.
    rewrite pow2_add.
    assert (X : (pow2 (-52) * (1 # 2) == unit_roundoff)%Q) by (vm_compute; reflexivity).
    rewrite <- Qmult_assoc, X.
    pose proof (ilog2_le q Hq) as L.
    assert ((pow2 (ilog2 q) * unit_roundoff <= q * unit_roundoff)%Q).
    { apply Qmult_le_compat_r; lra. }
    lra.
Qed.

Lemma fl_pos_err (q : Q) :
  (0 < q)%Q ->
  (q - (q * unit_roundoff + half_min_ulp) <= fl_pos q <= q + (q * unit_roundoff + half_min_ulp))%Q.
Proof.
  intros Hq. rewrite fl_pos_eq.
  pose proof (half_ulp q Hq) as H.
  pose proof (pow2_pos (ulp_exp q)) as P.
  set (p := pow2 (ulp_exp q)) in *.
  pose proof (round_half_even_bounds (q / p)) as [L U].
  set (M := inject_Z (round_half_even (q / p))) in *.
  assert (E : (q / p * p == q)%Q) by (field; lra).
  assert (L' : ((q / p - (1 # 2)) * p <= M * p)%Q)
    by (apply Qmult_le_compat_r; lra).
  assert (U' : (M * p <= (q / p + (1 # 2)) * p)%Q)
    by (apply Qmult_le_compat_r; lra).
  assert (E1 : ((q / p - (1 # 2)) * p == q - p * (1 # 2))%Q) by (field; lra).
  assert (E2 : ((q / p + (1 # 2)) * p == q + p * (1 # 2))%Q) by (field; lra).
  rewrite E1 in L'. rewrite E2 in U'. lra.
Qed.

Lemma fl_pos_nonneg (q : Q) : (0 < q)%Q -> (0 <= fl_pos q)%Q.
Proof.
  intros Hq. rewrite fl_pos_eq.
  pose proof (pow2_pos (ulp_exp q)) as P.
  set (p := pow2 (ulp_exp q)) in *.
  pose proof (round_half_even_bounds (q / p)) as [L _].
  assert (S : (0 < q / p)%Q).
  { unfold Qdiv. apply Qmult_lt_0_compat; [exact Hq|].
    apply Qinv_lt_0_compat. exact P. }
  assert (Z0 : 0 <= round_half_even (q / p)).
  { destruct (Z.le_gt_cases 0 (round_half_even (q / p))) as [?|N]; [assumption|].
    assert (N' : (inject_Z (round_half_even (q / p)) <= inject_Z (-1))%Q)
      by (rewrite <- Zle_Qle; lia).
    change (inject_Z (-1)) with (-1 # 1)%Q in N'. lra. }
  apply Qmult_le_0_compat; [|lra].
  change 0%Q with (inject_Z 0). rewrite <- Zle_Qle. exact Z0.
Qed.

(** Rounding errs by at most half a unit in the last place. *)
Lemma fl_err (q : Q) : (Qabs (fl q - q) <= err q)%Q.
Proof.
  unfold err, fl. destruct (Qcompare_spec q 0) as [E|E|E].
  - rewrite E. vm_compute. discriminate.
  - assert (Hq : (0 < - q)%Q) by lra.
    pose proof (fl_pos_err (- q) Hq) as [L U].
    rewrite (Qabs_neg q) by lra.
    apply Qabs_Qle_condition. split; lra.
  - pose proof (fl_pos_err q E) as [L U].
    rewrite (Qabs_pos q) by lra.
    apply Qabs_Qle_condition. split; lra.
Qed.

Lemma fl_nonneg (q : Q) : (0 <= q)%Q -> (0 <= fl q)%Q.
Proof.
  intros H. unfold fl. destruct (Qcompare_spec q 0) as [E|E|E];
    [lra | lra | apply fl_pos_nonneg; exact E].
Qed.

Lemma fl_pos_double (q : Q) (m e : Z) :
  0 < m < 2 ^ 53 -> -1074 <= e ->
  (q == inject_Z m * pow2 e)%Q ->
  (fl_pos q == q)%Q.
Proof.
  intros Hm He Eq.
  assert (Pe : (0 < pow2 e)%Q) by apply pow2_pos.
  assert (Mq : (0 < inject_Z m)%Q)
    by (change 0%Q with (inject_Z 0); rewrite <- Zlt_Qlt; lia).
  assert (Hq : (0 < q)%Q).
  { rewrite Eq. apply Qmult_lt_0_compat; assumption. }
  assert (Hu : ulp_exp q <= e).
  { unfold ulp_exp. apply Z.max_lub; [|exact He].
    pose proof (ilog2_le q Hq) as L.
    assert (U : (q < pow2 (53 + e))%Q).
    { rewrite Eq, pow2_add, (pow2_Z 53) by lia.
      apply Qmult_lt_compat_r; [exact Pe|]. rewrite <- Zlt_Qlt. lia. }
    assert (pow2 (ilog2 q) < pow2 (53 + e))%Q by lra.
    apply pow2_lt_inv in H. lia. }
  rewrite fl_pos_eq. set (u := ulp_exp q) in *.
  assert (Pu : (0 < pow2 u)%Q) by apply pow2_pos.
  assert (Ed : (pow2 e == pow2 (e - u) * pow2 u)%Q).
  { rewrite <- pow2_add. replace (e - u + u) with e by lia. reflexivity. }
  assert (Es : (q / pow2 u == inject_Z (m * 2 ^ (e - u)))%Q).
  { rewrite inject_Z_mult, <- (pow2_Z (e - u)) by lia.
    rewrite Eq, Ed. field. lra. }
  rewrite (round_half_even_comp _ _ Es), round_half_even_Z.
  rewrite inject_Z_mult, <- (pow2_Z (e - u)) by lia.
  rewrite Eq, Ed. ring.
Qed.

(** A double is a fixed point of rounding. *)
Lemma fl_double (q : Q) : is_double q -> (fl q == q)%Q.
Proof.
  intros (m & e & Hm & He & Eq). unfold fl.
  assert (Pe : (0 < pow2 e)%Q) by apply pow2_pos.
  destruct (Qcompare_spec q 0) as [E|E|E].
  - symmetry. exact E.
  - assert (Hneg : m < 0).
    { destruct (Z.lt_ge_cases m 0) as [?|N]; [assumption|].
      assert (0 <= inject_Z m)%Q
        by (change 0%Q with (inject_Z 0); rewrite <- Zle_Qle; lia).
      assert (0 <= inject_Z m * pow2 e)%Q by (apply Qmult_le_0_compat; lra).
      lra. }
    rewrite (fl_pos_double (- q) (- m) e); [ring | lia | lia |].
    rewrite Eq, inject_Z_opp. ring.
  - assert (Hpos : 0 < m).
    { destruct (Z.lt_ge_cases 0 m) as [?|N]; [assumption|].
      assert (inject_Z m <= 0)%Q
        by (change 0%Q with (inject_Z 0); rewrite <- Zle_Qle; lia).
      assert (inject_Z m * pow2 e <= 0 * pow2 e)%Q
        by (apply Qmult_le_compat_r; lra).
      lra. }
    apply (fl_pos_double q m e); [lia | lia | exact Eq].
Qed.

(** The largest double below 1 is [1 - 2^-53]. *)
Lemma double_below_one (q : Q) :
  is_double q -> (q < 1)%Q -> (q <= 1 - unit_roundoff)%Q.
Proof.
  intros (m & e & Hm & He & Eq) H1.
  assert (Pe : (0 < pow2 e)%Q) by apply pow2_pos.
  destruct (Z.le_gt_cases m 0) as [Hn|Hp].
  { assert (inject_Z m <= 0)%Q
      by (change 0%Q with (inject_Z 0); rewrite <- Zle_Qle; lia).
    assert (inject_Z m * pow2 e <= 0 * pow2 e)%Q
      by (apply Qmult_le_compat_r; lra).
    assert (0 < unit_roundoff)%Q by reflexivity.
    assert (unit_roundoff < 1)%Q by reflexivity. lra. }
  destruct (Z.le_gt_cases (-53) e) as [Hb|Hs].
  - (* q * 2^53 is an integer below 2^53 *)
    assert (Ek : (q == inject_Z (m * 2 ^ (e + 53)) * unit_roundoff)%Q).
    { rewrite inject_Z_mult, <- (pow2_Z (e + 53)) by lia.
      rewrite pow2_add, Eq.
      assert (X : (pow2 53 * unit_roundoff == 1)%Q) by (vm_compute; reflexivity).
      rewrite <- !Qmult_assoc, X. ring. }
    set (k := m * 2 ^ (e + 53)) in *.
    assert (Hk : k < 2 ^ 53).
    { destruct (Z.lt_ge_cases k (2 ^ 53)) as [?|N]; [assumption|].
      assert (inject_Z (2 ^ 53) <= inject_Z k)%Q by (rewrite <- Zle_Qle; lia).
      assert (inject_Z (2 ^ 53) * unit_roundoff <= inject_Z k * unit_roundoff)%Q
        by (apply Qmult_le_compat_r; [assumption | discriminate]).
      assert (X : (inject_Z (2 ^ 53) * unit_roundoff == 1)%Q) by (vm_compute; reflexivity).
      lra. }
    assert (Hk' : (inject_Z k <= inject_Z (2 ^ 53 - 1))%Q)
      by (rewrite <- Zle_Qle; lia).
    assert (inject_Z k * unit_roundoff <= inject_Z (2 ^ 53 - 1) * unit_roundoff)%Q
      by (apply Qmult_le_compat_r; [assumption | discriminate]).
    assert (X : (inject_Z (2 ^ 53 - 1) * unit_roundoff == 1 - unit_roundoff)%Q)
      by (vm_compute; reflexivity).
    lra.
  - assert (L : (pow2 e <= pow2 (-54))%Q) by (apply pow2_le; lia).
    assert (M1 : (inject_Z m <= inject_Z (2 ^ 53))%Q)
      by (rewrite <- Zle_Qle; lia).
    assert (M0 : (0 <= inject_Z m)%Q)
      by (change 0%Q with (inject_Z 0); rewrite <- Zle_Qle; lia).
    assert (A : (inject_Z m * pow2 e <= inject_Z m * pow2 (-54))%Q).
    { rewrite !(Qmult_comm (inject_Z m)). apply Qmult_le_compat_r; lra. }
    assert (B : (inject_Z m * pow2 (-54) <= inject_Z (2 ^ 53) * pow2 (-54))%Q).
    { apply Qmult_le_compat_r; [exact M1|]. apply Qlt_le_weak, pow2_pos. }
    assert (X : (inject_Z (2 ^ 53) * pow2 (-54) == 1 # 2)%Q)
      by (vm_compute; reflexivity).
    assert (Y : ((1 # 2) <= 1 - unit_roundoff)%Q) by (vm_compute; discriminate).
    lra.
Qed.

Lemma floor_mul_range (r : Q) (n : nat) :
  is_random r -> (0 < n)%nat -> 0 <= floor_mul r n < Z.of_nat n.
Proof.
  intros (H0 & H1 & Hd) Hn. unfold floor_mul.
  set (k := inject_Z (Z.of_nat n)).
  assert (Hk : (1 <= k)%Q).
  { unfold k. change 1%Q with (inject_Z 1). rewrite <- Zle_Qle. lia. }
  set (x := (r * k)%Q).
  assert (Hx : (0 <= x)%Q) by (apply Qmult_le_0_compat; lra).
  split.
  - change 0 with (Qfloor 0). apply Qfloor_resp_le, fl_nonneg, Hx.
  - rewrite Zlt_Qlt. eapply Qle_lt_trans; [apply Qfloor_le|]. fold k.
    pose proof (double_below_one r Hd H1) as Hr.
    pose proof (fl_err x) as E. unfold err in E.
    rewrite (Qabs_pos x Hx) in E.
    apply Qabs_Qle_condition in E. destruct E as [_ U].
    assert (Ep : (0 < unit_roundoff)%Q) by reflexivity.
    assert (X1 : (x <= (1 - unit_roundoff) * k)%Q)
      by (apply Qmult_le_compat_r; lra).
    assert (X2 : (x * unit_roundoff <= (1 - unit_roundoff) * k * unit_roundoff)%Q)
      by (apply Qmult_le_compat_r; lra).
    assert (T : (half_min_ulp < unit_roundoff * unit_roundoff)%Q) by reflexivity.
    assert (K2 : (unit_roundoff * unit_roundoff * 1 <= unit_roundoff * unit_roundoff * k)%Q).
    { rewrite !(Qmult_comm (unit_roundoff * unit_roundoff)). apply Qmult_le_compat_r; [lra|].
      vm_compute. discriminate. }
    assert (R : ((1 - unit_roundoff) * k + (1 - unit_roundoff) * k * unit_roundoff == k - unit_roundoff * unit_roundoff * k)%Q)
      by ring.
    lra.
Qed.

(** A dyadic draw [m * 2^e] meets the contract of [Math.random]. *)
Ltac draw_ok m e :=
  split;
  [ vm_compute; discriminate
  | split;
    [ vm_compute; reflexivity
    | exists m, e; split;
      [ vm_compute; reflexivity | split; [ lia | vm_compute; reflexivity ] ] ] ].

Lemma floor_mul_2 (r : Q) :
  is_random r -> floor_mul r 2 = 0 \/ floor_mul r 2 = 1.
Proof.
  intros H. pose proof (floor_mul_range r 2 H ltac:(lia)). lia.
Qed.

Lemma js_index_in_range {A} (l : list A) (i : Z) :
  0 <= i < Z.of_nat (length l) ->
  exists a, js_index l i = Some a /\ l !! Z.to_nat i = Some a.
Proof.
  intros H. unfold js_index.
  destruct (Z.ltb_spec i 0) as [?|_]; [lia|].
  destruct (lookup_lt_is_Some_2 l (Z.to_nat i)) as [a Ha]; [lia|].
  exists a. split; exact Ha.
Qed.

(** *** Nodes under [update_node] *)

Lemma update_node_nodes (n : nat) (f : node -> node) (w : world) (x : node) :
  w_nodes w !! n = Some x ->
  update_node n f w = (set_nodes (<[ n := f x ]> (w_nodes w)) w, Ok tt).
Proof. intros H. unfold update_node, modify. rewrite H. reflexivity. Qed.

(** **** C9 *)

(** C9.  Whatever [Math.random()] draws, the image that [spawnHerta] creates
    and appends to the body carries id 1 or 2, so its [src] is
    [img/arisu1.gif] or [img/arisu2.gif]; both are entries of
    [GAME_CONFIG.preloadImages], and [loadAll] requests every such entry. *)
Theorem spawnHerta_image_preloaded (w : world) :
  is_random (w_rng w (w_draws w)) ->
  exists (id : Z) (img : node),
    (id = 1 \/ id = 2) /\
    w_nodes (exec spawnHerta w) = w_nodes w ++ [img] /\
    w_body (exec spawnHerta w) = w_body w ++ [length (w_nodes w)] /\
    n_src img = ("img/arisu" ++ to_string (Int id) ++ ".gif")%string /\
    (n_src img = "img/arisu1.gif" \/ n_src img = "img/arisu2.gif") /\
    n_src img ∈ preloadImages GAME_CONFIG /\
    (forall (m : nat) (cb : option callback) (w' : world),
        ImageLoad (n_src img)
          ∈ w_net (exec (loadAll GAME_CONFIG m cb) w')).
Proof.
  intros Hr.
  exists (floor_mul (w_rng w (w_draws w)) 2 + 1). eexists.
  split; [destruct (floor_mul_2 _ Hr); lia|].
  split; [reflexivity|]. split; [reflexivity|]. split; [reflexivity|].
  cbn [n_src].
  destruct (floor_mul_2 _ Hr) as [E|E]; rewrite E.
  - split; [left; reflexivity|]. split.
    + apply list_elem_of_In. vm_compute. tauto.
    + intros. apply list_elem_of_In. cbn. rewrite !in_app_iff. simpl. tauto.
  - split; [right; reflexivity|]. split.
    + apply list_elem_of_In. vm_compute. tauto.
    + intros. apply list_elem_of_In. cbn. rewrite !in_app_iff. simpl. tauto.
Qed.

Lemma spawnHerta_image_preloaded_witness :
  let w := fresh_world ∅ (fun _ => 1 # 2) in
  exists (id : Z) (img : node),
    (id = 1 \/ id = 2) /\
    w_nodes (exec spawnHerta w) = w_nodes w ++ [img] /\
    w_body (exec spawnHerta w) = w_body w ++ [length (w_nodes w)] /\
    n_src img = ("img/arisu" ++ to_string (Int id) ++ ".gif")%string /\
    (n_src img = "img/arisu1.gif" \/ n_src img = "img/arisu2.gif") /\
    n_src img ∈ preloadImages GAME_CONFIG /\
    (forall (m : nat) (cb : option callback) (w' : world),
        ImageLoad (n_src img)
          ∈ w_net (exec (loadAll GAME_CONFIG m cb) w')).
Proof.
  intros w. apply (spawnHerta_image_preloaded w).
  draw_ok 1 (-1).
Defined.

(** **** C10 *)

Lemma counter_unit_variants :
  texts GAME_CONFIG !! "counter-unit" = Some (Variants [ "次"; "次" ]).
Proof. reflexivity. Qed.

(** Whichever in-range index is drawn, the variant is the same string. *)
Lemma counter_unit_pick (r : Q) :
  is_random r ->
  default "undefined" (js_index [ "次"; "次" ] (floor_mul r 2)) = "次".
Proof.
  intros H. destruct (floor_mul_2 r H) as [E|E]; rewrite E; reflexivity.
Qed.

Lemma setRandomText_counter_unit (w : world) (n : nat) (x : node) :
  is_random (w_rng w (w_draws w)) ->
  w_nodes w !! n = Some x ->
  setRandomText GAME_CONFIG (Some n) CounterUnit w
  = (set_nodes (<[ n := set_text "次" x ]> (w_nodes w))
       (set_draws (S (w_draws w)) w), Ok tt).
Proof.
  intros Hr Hx. unfold setRandomText. cbn [key_name].
  rewrite counter_unit_variants.
  unfold bind, Math_random. cbn [length].
  rewrite (counter_unit_pick _ Hr).
  rewrite (update_node_nodes n _ _ x) by exact Hx. reflexivity.
Qed.

(** [setRandomText] keeps the shape of the world: the node table keeps its
    length, and the handles and the draws to come are those of before. *)
Lemma setRandomText_frame (elem : option nat) (key : text_key) (w : world) :
  let w' := exec (setRandomText GAME_CONFIG elem key) w in
  length (w_nodes w') = length (w_nodes w) /\
  w_game w' = w_game w /\
  w_rng w' = w_rng w.
Proof.
  unfold exec, setRandomText.
  destruct elem as [n|]; [|cbn; auto].
  destruct (texts GAME_CONFIG !! key_name key) as [[s|l]|]; [| |cbn; auto].
  - destruct (String.eqb s ""); [cbn; auto|].
    unfold update_node, modify. cbn.
    destruct (w_nodes w !! n); cbn; rewrite ?length_insert; auto.
  - unfold bind, Math_random, update_node, modify. cbn.
    destruct (w_nodes w !! n); cbn; rewrite ?length_insert; auto.
Qed.

Lemma setRandomText_ok (cfg : config) (elem : option nat) (key : text_key)
    (w : world) :
  setRandomText cfg elem key w = (exec (setRandomText cfg elem key) w, Ok tt).
Proof.
  unfold exec, setRandomText.
  destruct elem as [n|]; [|reflexivity].
  destruct (texts cfg !! key_name key) as [[s|l]|]; try reflexivity.
  destruct (String.eqb s ""); reflexivity.
Qed.

(** [refreshTexts] is its three calls in a row, on the handles it finds. *)
Lemma refreshTexts_steps (w : world) :
  let e := elems (w_game w) in
  let w1 := exec (setRandomText GAME_CONFIG (btn e) CounterButton) w in
  let w2 :=
    exec (setRandomText GAME_CONFIG (ctDesc e) CounterDescriptions) w1 in
  refreshTexts GAME_CONFIG w
  = (exec (setRandomText GAME_CONFIG (ctUnit e) CounterUnit) w2, Ok tt).
Proof.
  intros e w1 w2. unfold refreshTexts, bind, get.
  rewrite setRandomText_ok. fold e. fold w1.
  destruct (setRandomText_frame (btn e) CounterButton w) as (_ & G1 & _).
  fold w1 in G1. rewrite G1. fold e.
  rewrite setRandomText_ok. fold w2.
  destruct (setRandomText_frame (ctDesc e) CounterDescriptions w1)
    as (_ & G2 & _).
  fold w2 in G2. rewrite G2, G1. fold e.
  apply setRandomText_ok.
Qed.

(** After [refreshTexts], the counter-unit element reads "次". *)
Lemma refreshTexts_counter_unit (w : world) (n : nat) :
  (forall i, is_random (w_rng w i)) ->
  ctUnit (elems (w_game w)) = Some n ->
  (n < length (w_nodes w))%nat ->
  exists x, w_nodes (exec (refreshTexts GAME_CONFIG) w) !! n = Some x
            /\ n_text x = "次".
Proof.
  intros Hr Hu Hn. unfold exec at 1. rewrite refreshTexts_steps. cbn [fst].
  set (e := elems (w_game w)).
  set (w1 := exec (setRandomText GAME_CONFIG (btn e) CounterButton) w).
  set (w2 := exec (setRandomText GAME_CONFIG (ctDesc e)
                     CounterDescriptions) w1).
  destruct (setRandomText_frame (btn e) CounterButton w) as (L1 & _ & R1).
  destruct (setRandomText_frame (ctDesc e) CounterDescriptions w1)
    as (L2 & _ & R2).
  fold w1 in L1, R1. fold w2 in L2, R2.
  destruct (lookup_lt_is_Some_2 (w_nodes w2) n) as [x Hx]; [lia|].
  fold e in Hu. rewrite Hu. unfold exec.
  rewrite (setRandomText_counter_unit w2 n x); [|rewrite R2, R1; apply Hr|exact Hx].
  cbn. exists (set_text "次" x). split; [|reflexivity].
  apply list_lookup_insert_eq. lia.
Qed.

(** C10.  The counter-unit text does not depend on the draws: in any two
    runs of [refreshTexts], under any two sequences of random values, the
    counter-unit element is assigned the same text, "次", the string that
    both entries of the variant list hold. *)
Theorem refreshTexts_counter_unit_deterministic
    (w1 w2 : world) (n1 n2 : nat) :
  (forall i, is_random (w_rng w1 i)) ->
  (forall i, is_random (w_rng w2 i)) ->
  ctUnit (elems (w_game w1)) = Some n1 ->
  ctUnit (elems (w_game w2)) = Some n2 ->
  (n1 < length (w_nodes w1))%nat ->
  (n2 < length (w_nodes w2))%nat ->
  texts GAME_CONFIG !! "counter-unit" = Some (Variants [ "次"; "次" ]) /\
  exists x1 x2,
    w_nodes (exec (refreshTexts GAME_CONFIG) w1) !! n1 = Some x1 /\
    w_nodes (exec (refreshTexts GAME_CONFIG) w2) !! n2 = Some x2 /\
    n_text x1 = n_text x2 /\ n_text x1 = "次".
Proof.
  intros R1 R2 U1 U2 L1 L2. split; [reflexivity|].
  destruct (refreshTexts_counter_unit w1 n1 R1 U1 L1) as (x1 & H1 & T1).
  destruct (refreshTexts_counter_unit w2 n2 R2 U2 L2) as (x2 & H2 & T2).
  exists x1, x2. rewrite T1, T2. auto.
Qed.

Lemma refreshTexts_counter_unit_deterministic_witness :
  let w1 := ready_world ∅ (fun _ => 1 # 4) in
  let w2 := ready_world ∅ (fun _ => 3 # 4) in
  texts GAME_CONFIG !! "counter-unit" = Some (Variants [ "次"; "次" ]) /\
  exists x1 x2,
    w_nodes (exec (refreshTexts GAME_CONFIG) w1) !! 4%nat = Some x1 /\
    w_nodes (exec (refreshTexts GAME_CONFIG) w2) !! 4%nat = Some x2 /\
    n_text x1 = n_text x2 /\ n_text x1 = "次".
Proof.
  intros w1 w2.
  apply (refreshTexts_counter_unit_deterministic w1 w2 4 4).
  - intros i. draw_ok 1 (-2).
  - intros i. draw_ok 3 (-2).
  - vm_compute. reflexivity.
  - vm_compute. reflexivity.
  - vm_compute. lia.
  - vm_compute. lia.
Defined.

(** **** C6 *)

(** One call of [getRandomAudio] on a non-empty cache: a draw is consumed,
    the index is in range, the entry at the index is returned. *)
Lemma getRandomAudio_nonempty (w : world) (m : nat) (r : resource_manager) :
  is_random (w_rng w (w_draws w)) ->
  w_managers w !! m = Some r ->
  audioCache r <> [] ->
  let idx := floor_mul (w_rng w (w_draws w)) (length (audioCache r)) in
  exists entry : option string,
    0 <= idx < Z.of_nat (length (audioCache r)) /\
    audioCache r !! Z.to_nat idx = Some entry /\
    getRandomAudio m w = (set_draws (S (w_draws w)) w, Ok entry).
Proof.
  intros Hr Hm Hne idx.
  assert (Hlen : (0 < length (audioCache r))%nat).
  { destruct (audioCache r); [congruence | cbn; lia]. }
  pose proof (floor_mul_range _ _ Hr Hlen) as Hi. fold idx in Hi.
  destruct (js_index_in_range (audioCache r) idx Hi) as (s & Hs & Hl).
  exists s. split; [exact Hi|]. split; [exact Hl|].
  unfold getRandomAudio, bind, get. rewrite Hm.
  destruct (Nat.eqb_spec (length (audioCache r)) 0) as [E|_]; [lia|].
  unfold Math_random, ret. fold idx. rewrite Hs. reflexivity.
Qed.

Lemma getRandomAudio_empty (w : world) (m : nat) (r : resource_manager) :
  w_managers w !! m = Some r ->
  audioCache r = [] ->
  getRandomAudio m w = (w, Ok None).
Proof.
  intros Hm He. unfold getRandomAudio, bind, get. rewrite Hm, He. reflexivity.
Qed.

Lemma draw_many_cached (m : nat) (r : resource_manager) (k : nat) :
  forall w : world,
    (forall i, is_random (w_rng w i)) ->
    w_managers w !! m = Some r ->
    audioCache r <> [] ->
    Forall (fun d => exists (i : nat) (entry : option string),
                       (i < length (audioCache r))%nat /\
                       audioCache r !! i = Some entry /\ d = Ok entry)
           (draw_many m k w).
Proof.
  induction k as [|k IH]; intros w Hr Hm Hne; cbn [draw_many].
  - constructor.
  - destruct (getRandomAudio_nonempty w m r (Hr _) Hm Hne)
      as (s & Hi & Hl & E).
    rewrite E. constructor.
    + exists (Z.to_nat (floor_mul (w_rng w (w_draws w))
                          (length (audioCache r)))), s.
      split; [lia|]. split; [exact Hl | reflexivity].
    + apply IH; [intros i; apply Hr | exact Hm | exact Hne].
Qed.

(** [playAudio] when [getRandomAudio] hands back [null]: nothing is
    played. *)
Lemma playAudio_null (w w1 : world) (m : nat) :
  manager (w_game w) = Some m ->
  getRandomAudio m w = (w1, Ok None) ->
  playAudio w = (w1, Ok tt).
Proof.
  intros Hg E. unfold playAudio, bind, get, deref. rewrite Hg.
  unfold ret. rewrite E. reflexivity.
Qed.

(** C6, as the code has it.  On an empty cache [getRandomAudio] returns
    [null] without drawing, and [playAudio] returns normally without
    creating an [Audio].  On a cache of [M > 0] entries the index drawn,
    [Math.floor(Math.random() * M)] with the product rounded as a double,
    lies in [0 .. M-1] and the entry at that index is returned, and so does
    every one of any number of draws in a row.  The result is [null] when
    the cache is empty or the entry drawn is itself [null] (what a failed
    read leaves in the cache), and in no other case; whenever it is [null],
    [playAudio] returns normally and plays nothing. *)
Theorem getRandomAudio_draws_cached
    (w : world) (m : nat) (r : resource_manager) :
  (forall i, is_random (w_rng w i)) ->
  w_managers w !! m = Some r ->
  (audioCache r = [] ->
     getRandomAudio m w = (w, Ok None) /\
     (manager (w_game w) = Some m -> playAudio w = (w, Ok tt))) /\
  (audioCache r <> [] ->
     (exists entry : option string,
        0 <= floor_mul (w_rng w (w_draws w)) (length (audioCache r))
          < Z.of_nat (length (audioCache r)) /\
        audioCache r
          !! Z.to_nat (floor_mul (w_rng w (w_draws w))
                         (length (audioCache r))) = Some entry /\
        getRandomAudio m w = (set_draws (S (w_draws w)) w, Ok entry)) /\
     (forall k : nat,
        Forall (fun d => exists (i : nat) (entry : option string),
                           (i < length (audioCache r))%nat /\
                           audioCache r !! i = Some entry /\ d = Ok entry)
               (draw_many m k w))) /\
  (exists res,
     snd (getRandomAudio m w) = Ok res /\
     (res = None <->
      audioCache r = [] \/
      audioCache r
        !! Z.to_nat (floor_mul (w_rng w (w_draws w))
                       (length (audioCache r))) = Some None)) /\
  (manager (w_game w) = Some m ->
   snd (getRandomAudio m w) = Ok None ->
   snd (playAudio w) = Ok tt /\ w_audio (exec playAudio w) = w_audio w).
Proof.
  intros Hr Hm.
  destruct (audioCache r) as [|a l] eqn:Hc.
  - pose proof (getRandomAudio_empty w m r Hm Hc) as E.
    split; [|split; [congruence|split]].
    + intros _. split; [exact E|]. intros Hg.
      apply (playAudio_null w w m Hg E).
    + exists None. rewrite E. split; [reflexivity|]. tauto.
    + intros Hg _. rewrite (playAudio_null w w m Hg E).
      unfold exec. rewrite (playAudio_null w w m Hg E). auto.
  - assert (Hne : audioCache r <> []) by (rewrite Hc; discriminate).
    destruct (getRandomAudio_nonempty w m r (Hr _) Hm Hne)
      as (s & Hi & Hl & E).
    rewrite Hc in Hi, Hl.
    split; [discriminate|]. split; [|split].
    + intros _. split.
      * exists s. rewrite E. auto.
      * intros k. pose proof (draw_many_cached m r k w Hr Hm Hne) as D.
        rewrite Hc in D. exact D.
    + exists s. rewrite E. split; [reflexivity|]. rewrite Hl. split.
      * intros ->. right. reflexivity.
      * intros [?|?]; congruence.
    + intros Hg E0. rewrite E in E0. cbn [snd] in E0.
      assert (s = None) by congruence. subst s.
      unfold exec. rewrite (playAudio_null w _ m Hg E). auto.
Qed.

Lemma getRandomAudio_draws_cached_witness :
  let w := ready_world ∅ (fun _ => 3 # 4) in
  let m := 0%nat in
  let r := {| audioCache := [ Some "data:audio/mpeg;base64,AAAA";
                              Some "data:audio/mpeg;base64,BBBB" ];
              isReady := true |} in
  (audioCache r = [] ->
     getRandomAudio m w = (w, Ok None) /\
     (manager (w_game w) = Some m -> playAudio w = (w, Ok tt))) /\
  (audioCache r <> [] ->
     (exists entry : option string,
        0 <= floor_mul (w_rng w (w_draws w)) (length (audioCache r))
          < Z.of_nat (length (audioCache r)) /\
        audioCache r
          !! Z.to_nat (floor_mul (w_rng w (w_draws w))
                         (length (audioCache r))) = Some entry /\
        getRandomAudio m w = (set_draws (S (w_draws w)) w, Ok entry)) /\
     (forall k : nat,
        Forall (fun d => exists (i : nat) (entry : option string),
                           (i < length (audioCache r))%nat /\
                           audioCache r !! i = Some entry /\ d = Ok entry)
               (draw_many m k w))) /\
  (exists res,
     snd (getRandomAudio m w) = Ok res /\
     (res = None <->
      audioCache r = [] \/
      audioCache r
        !! Z.to_nat (floor_mul (w_rng w (w_draws w))
                       (length (audioCache r))) = Some None)) /\
  (manager (w_game w) = Some m ->
   snd (getRandomAudio m w) = Ok None ->
   snd (playAudio w) = Ok tt /\ w_audio (exec playAudio w) = w_audio w).
Proof.
  intros w m r. apply (getRandomAudio_draws_cached w m r).
  - intros i. draw_ok 3 (-2).
  - vm_compute. reflexivity.
Defined.

(** The claim as worded fails on a cache that is not empty: the read of the
    first audio ends in an error, [loadAll] caches the reader's [null]
    result next to the payload of the second audio, and a draw of [1/4]
    picks index 0, so [getRandomAudio] returns [null] from a cache of two
    entries. *)
Lemma getRandomAudio_null_from_nonempty_cache :
  let w := run [ DOMContentLoaded;
                 TaskSettled 0 0 ReadError;
                 TaskSettled 0 1 (Loaded "data:audio/mpeg;base64,BBBB") ]
               (page_world ∅ (fun _ => 1 # 4)) in
  exists r : resource_manager,
    manager (w_game w) = Some 0%nat /\
    w_managers w !! 0%nat = Some r /\
    audioCache r = [ None; Some "data:audio/mpeg;base64,BBBB" ] /\
    audioCache r <> [] /\
    isReady r = true /\
    floor_mul (w_rng w (w_draws w)) (length (audioCache r)) = 0 /\
    snd (getRandomAudio 0 w) = Ok None.
Proof.
  exists {| audioCache := [ None; Some "data:audio/mpeg;base64,BBBB" ];
            isReady := true |}.
  vm_compute. repeat split; try reflexivity. discriminate.
Qed.

(** **** C8: the geometry of a ripple *)

Lemma Math_max_spec (a b : Q) :
  (Math_max a b = a \/ Math_max a b = b) /\
  (a <= Math_max a b)%Q /\ (b <= Math_max a b)%Q.
Proof.
  unfold Math_max. destruct (Qle_bool a b) eqn:E.
  - apply Qle_bool_iff in E. repeat split; auto. apply Qle_refl.
  - repeat split; auto; [apply Qle_refl|].
    apply Qlt_le_weak, Qnot_le_lt. intros H. apply Qle_bool_iff in H.
    congruence.
Qed.

(** The world that [createRipple] leaves when the button handle is bound. *)
Lemma createRipple_run (w : world) (e : pointer_event) (b : nat) (xb : node) :
  btn (elems (w_game w)) = Some b ->
  w_nodes w !! b = Some xb ->
  let ripple := length (w_nodes w) in
  let styled :=
    {| n_tag := "span"; n_text := ""; n_onclick := false;
       n_rect := zero_rect; n_children := []; n_src := "";
       n_class := [ "ripple" ];
       n_style := Some (ripple_style (n_rect xb) e);
       n_onanimationend := false |} in
  createRipple e w
  = (set_timers (w_timers w ++ [ (400, ripple) ])
       (set_nodes
          (<[ b := set_children (n_children xb ++ [ripple]) xb ]>
             (w_nodes w) ++ [styled]) w),
     Ok tt).
Proof.
  intros Hb Hx ripple styled.
  assert (Hlt : (b < length (w_nodes w))%nat)
    by (apply lookup_lt_is_Some; eauto).
  unfold createRipple, bind, get, createElement, deref, ret.
  rewrite Hb. cbn [w_nodes set_nodes].
  rewrite (lookup_app_l _ _ _ Hlt), Hx.
  unfold update_node, modify, appendChild, update_node, modify.
  cbn [w_nodes set_nodes].
  rewrite lookup_app_r by lia. rewrite Nat.sub_diag. cbn [lookup list_lookup].
  fold ripple.
  assert (E1 : <[ ripple := styled ]> (w_nodes w ++ [new_node "span"])
               = w_nodes w ++ [styled]).
  { unfold ripple. rewrite insert_app_r_alt by lia.
    rewrite Nat.sub_diag. reflexivity. }
  cbn [new_node n_tag n_text n_onclick n_rect n_children n_src n_class
       n_onanimationend app].
  fold styled. rewrite E1.
  rewrite (lookup_app_l _ _ _ Hlt), Hx.
  rewrite insert_app_l by exact Hlt.
  reflexivity.
Qed.

Lemma lookup_map {A B} (f : A -> B) (l : list A) (i : nat) :
  List.map f l !! i = f <$> (l !! i).
Proof.
  revert i. induction l as [|a l IH]; intros [|i]; cbn; auto.
Qed.

Lemma drop_ref_gone (n : nat) (l : list nat) : n ∉ drop_ref n l.
Proof.
  rewrite list_elem_of_In. unfold drop_ref. rewrite filter_In.
  intros [_ H]. rewrite Nat.eqb_refl in H. discriminate.
Qed.

(** C8 rests on how far the rounded coordinates are from the exact ones. *)
Lemma to_double_fl (q x : Q) : to_double q = Some x -> x = fl q.
Proof.
  unfold to_double. destruct (Qle_bool _ _); [discriminate|].
  intros H. injection H as <-. reflexivity.
Qed.

Lemma to_double_err (q x : Q) :
  to_double q = Some x -> (Qabs (x - q) <= err q)%Q.
Proof. intros H. rewrite (to_double_fl q x H). apply fl_err. Qed.

(** A double is below the overflow threshold, and is its own rounding. *)
Lemma to_double_double (q : Q) :
  is_double q -> exists x, to_double q = Some x /\ (x == q)%Q.
Proof.
  intros Hd. exists (fl q). split; [|apply fl_double; exact Hd].
  destruct Hd as (m & e & Hm & He & Eq).
  unfold to_double.
  destruct (Qle_bool overflow_threshold (Qabs q)) eqn:E; [|reflexivity].
  exfalso. apply Qle_bool_iff in E.
  assert (Pe : (0 < pow2 e)%Q) by apply pow2_pos.
  assert (A : (Qabs q == inject_Z (Z.abs m) * pow2 e)%Q).
  { rewrite Eq, Qabs_Qmult. rewrite (Qabs_pos (pow2 e)) by lra.
    unfold Qabs, inject_Z. cbn. reflexivity. }
  assert (M1 : (inject_Z (Z.abs m) <= inject_Z (2 ^ 53 - 1))%Q)
    by (rewrite <- Zle_Qle; lia).
  assert (M0 : (0 <= inject_Z (2 ^ 53 - 1))%Q) by (vm_compute; discriminate).
  assert (P1 : (pow2 e <= pow2 971)%Q) by (apply pow2_le; lia).
  assert (B1 : (inject_Z (Z.abs m) * pow2 e <= inject_Z (2 ^ 53 - 1) * pow2 e)%Q)
    by (apply Qmult_le_compat_r; lra).
  assert (B2 : (inject_Z (2 ^ 53 - 1) * pow2 e
                <= inject_Z (2 ^ 53 - 1) * pow2 971)%Q).
  { rewrite !(Qmult_comm (inject_Z (2 ^ 53 - 1))).
    apply Qmult_le_compat_r; lra. }
  assert (T : (inject_Z (2 ^ 53 - 1) * pow2 971 < overflow_threshold)%Q)
    by (vm_compute; reflexivity).
  lra.
Qed.

(** The coordinate [a - h'], computed as the script does from the exact
    offset [a] and half the size [s / 2]. *)
Lemma js_sub_centre (c l s x : Q) :
  js_sub (js_sub (Some c) (Some l)) (to_double (s / 2)) = Some x ->
  (Qabs (x + s / 2 - (c - l)) <= centre_error (c - l) s)%Q.
Proof.
  unfold js_sub at 2.
  destruct (to_double (c - l)) as [a|] eqn:Ea; [|discriminate].
  unfold js_sub.
  destruct (to_double (s / 2)) as [h|] eqn:Eh; [|discriminate].
  intros Ex.
  pose proof (to_double_err _ _ Ea) as Da.
  pose proof (to_double_err _ _ Eh) as Dh.
  pose proof (to_double_err _ _ Ex) as Dx.
  rewrite (to_double_fl _ _ Ea), (to_double_fl _ _ Eh) in Dx.
  unfold centre_error.
  set (E1 := err (c - l)) in *. set (E2 := err (s / 2)) in *.
  set (E3 := err (fl (c - l) - fl (s / 2))) in *.
  rewrite (to_double_fl _ _ Ea) in Da. rewrite (to_double_fl _ _ Eh) in Dh.
  apply Qabs_Qle_condition in Da, Dh, Dx.
  apply Qabs_Qle_condition. split; lra.
Qed.

(** When no operation rounds, the coordinate is the exact one. *)
Lemma js_sub_exact (c l s : Q) :
  is_double (c - l) -> is_double (s / 2) -> is_double (c - l - s / 2) ->
  exists x,
    js_sub (js_sub (Some c) (Some l)) (to_double (s / 2)) = Some x /\
    (x == c - l - s / 2)%Q /\ (x + s / 2 == c - l)%Q.
Proof.
  intros Da Dh Dx.
  destruct (to_double_double _ Da) as (a & Ea & Qa).
  destruct (to_double_double _ Dh) as (h & Eh & Qh).
  assert (Dx' : is_double (a - h)).
  { destruct Dx as (m & e & Hm & He & Eq). exists m, e.
    split; [exact Hm|]. split; [exact He|]. rewrite Qa, Qh. exact Eq. }
  destruct (to_double_double _ Dx') as (x & Ex & Qx).
  exists x. unfold js_sub at 2. rewrite Ea. unfold js_sub. rewrite Eh.
  split; [exact Ex|]. rewrite Qx, Qa, Qh. split; [reflexivity | ring].
Qed.

Lemma to_double_below (q : Q) :
  (Qabs q < overflow_threshold)%Q -> to_double q = Some (fl q).
Proof.
  intros H. unfold to_double.
  destruct (Qle_bool overflow_threshold (Qabs q)) eqn:E; [|reflexivity].
  apply Qle_bool_iff in E. lra.
Qed.

(** Offsets and sizes up to [2^1022] keep the coordinate finite. *)
Lemma js_sub_finite (c l s : Q) :
  (Qabs (c - l) <= pow2 1022)%Q -> (Qabs s <= pow2 1022)%Q ->
  exists x, js_sub (js_sub (Some c) (Some l)) (to_double (s / 2)) = Some x.
Proof.
  intros Ha Hs.
  set (P := pow2 1022) in *.
  assert (P0 : (0 < P)%Q) by apply pow2_pos.
  assert (U0 : (0 <= unit_roundoff)%Q) by (vm_compute; discriminate).
  assert (T1 : (P + (P * unit_roundoff + half_min_ulp)
                + (P + (P * unit_roundoff + half_min_ulp))
                < overflow_threshold)%Q) by (vm_compute; reflexivity).
  assert (PU : (0 <= P * unit_roundoff)%Q)
    by (apply Qmult_le_0_compat; lra).
  assert (H0 : (0 <= half_min_ulp)%Q) by (vm_compute; discriminate).
  assert (Hh : (Qabs (s / 2) <= P)%Q).
  { assert (E : (s / 2 == s * (1 # 2))%Q) by (unfold Qdiv; reflexivity).
    rewrite E. apply Qabs_Qle_condition in Hs. apply Qabs_Qle_condition.
    split; lra. }
  assert (Ea : to_double (c - l) = Some (fl (c - l))) by (apply to_double_below; lra).
  assert (Eh : to_double (s / 2) = Some (fl (s / 2))) by (apply to_double_below; lra).
  pose proof (fl_err (c - l)) as Da. pose proof (fl_err (s / 2)) as Dh.
  unfold err in Da, Dh.
  assert (Ma : (Qabs (c - l) * unit_roundoff <= P * unit_roundoff)%Q)
    by (apply Qmult_le_compat_r; assumption).
  assert (Mh : (Qabs (s / 2) * unit_roundoff <= P * unit_roundoff)%Q)
    by (apply Qmult_le_compat_r; assumption).
  apply Qabs_Qle_condition in Da, Dh, Ha, Hh.
  assert (Hx : (Qabs (fl (c - l) - fl (s / 2)) < overflow_threshold)%Q).
  { apply Qle_lt_trans with
      (P + (P * unit_roundoff + half_min_ulp)
       + (P + (P * unit_roundoff + half_min_ulp)))%Q; [|exact T1].
    apply Qabs_Qle_condition. split; lra. }
  exists (fl (fl (c - l) - fl (s / 2))).
  unfold js_sub at 2. rewrite Ea. unfold js_sub. rewrite Eh.
  apply to_double_below. exact Hx.
Qed.

(** What [createRipple] does in a world where the button handle is bound. *)
Lemma createRipple_geometry
    (w : world) (e : pointer_event) (b : nat) (xb : node) :
  btn (elems (w_game w)) = Some b ->
  w_nodes w !! b = Some xb ->
  let rect := n_rect xb in
  let s := Math_max (r_width rect) (r_height rect) in
  let ripple := length (w_nodes w) in
  let w' := exec (createRipple e) w in
  snd (createRipple e w) = Ok tt /\
  length (w_nodes w') = S (length (w_nodes w)) /\
  (exists xr,
      w_nodes w' !! ripple = Some xr /\
      n_tag xr = "span" /\ n_class xr = [ "ripple" ] /\
      n_style xr = Some (ripple_style rect e)) /\
  (exists xb', w_nodes w' !! b = Some xb'
               /\ n_children xb' = n_children xb ++ [ripple]) /\
  w_timers w' = w_timers w ++ [ (400, ripple) ] /\
  (exists xb'',
      w_nodes (exec (dispatch (Timeout (length (w_timers w)))) w') !! b
      = Some xb''
      /\ ripple ∉ n_children xb'').
Proof.
  intros Hb Hx rect s ripple w'.
  assert (Hlt : (b < length (w_nodes w))%nat)
    by (apply lookup_lt_is_Some; eauto).
  pose proof (createRipple_run w e b xb Hb Hx) as E. cbv zeta in E.
  fold ripple in E.
  assert (Ew : w' = fst (createRipple e w)) by reflexivity.
  rewrite E in Ew. cbn [fst] in Ew.
  split; [rewrite E; reflexivity|].
  split; [rewrite Ew; cbn; rewrite length_app, length_insert; cbn; lia|].
  split.
  { eexists. split.
    - rewrite Ew. cbn [w_nodes set_nodes set_timers].
      rewrite lookup_app_r by (rewrite length_insert; unfold ripple; lia).
      rewrite length_insert. unfold ripple. rewrite Nat.sub_diag. reflexivity.
    - cbn [n_tag n_class n_style]. auto. }
  split.
  { eexists. split.
    - rewrite Ew. cbn [w_nodes set_nodes set_timers].
      rewrite lookup_app_l by (rewrite length_insert; exact Hlt).
      apply list_lookup_insert_eq. exact Hlt.
    - reflexivity. }
  split; [rewrite Ew; reflexivity|].
  unfold exec at 1, dispatch, bind, get.
  assert (Et : w_timers w' !! length (w_timers w) = Some (400, ripple)).
  { rewrite Ew. cbn [w_timers set_timers].
    rewrite lookup_app_r by lia. rewrite Nat.sub_diag. reflexivity. }
  rewrite Et. unfold remove, modify. cbn [fst w_nodes set_nodes set_document
    set_body].
  rewrite lookup_map. rewrite Ew. cbn [w_nodes set_nodes set_timers].
  rewrite lookup_app_l by (rewrite length_insert; exact Hlt).
  rewrite list_lookup_insert_eq by exact Hlt. cbn.
  eexists. split; [reflexivity|]. cbn. apply drop_ref_gone.
Qed.

(** *** [init], step by step *)

Lemma lookup_snoc_length {A} (l : list A) (a : A) :
  (l ++ [a]) !! length l = Some a.
Proof. rewrite lookup_app_r by lia. rewrite Nat.sub_diag. reflexivity. Qed.

Lemma insert_snoc_length {A} (l : list A) (a a' : A) :
  <[ length l := a' ]> (l ++ [a]) = l ++ [a'].
Proof.
  rewrite insert_app_r_alt by lia. rewrite Nat.sub_diag. reflexivity.
Qed.

(** The handles that the lookups of [init] produce on the page of [w]. *)
Lemma lookup_elements_run (w : world) :
  lookup_elements w
  = (w, Ok {| btn := w_document w !! "counter-button";
              counter := w_document w !! "local-counter";
              loading := w_document w !! "loading";
              title := w_document w !! "page-title";
              desc := w_document w !! "page-descriptions";
              ctDesc := w_document w !! "counter-descriptions";
              ctUnit := w_document w !! "counter-unit" |}).
Proof. reflexivity. Qed.

(** [init] on a page without the button: the handles are rebound, and that
    is all. *)
Lemma init_absent (cfg : config) (w : world) :
  w_document w !! "counter-button" = None ->
  init cfg w
  = (set_game
       (set_elems
          {| btn := None;
             counter := w_document w !! "local-counter";
             loading := w_document w !! "loading";
             title := w_document w !! "page-title";
             desc := w_document w !! "page-descriptions";
             ctDesc := w_document w !! "counter-descriptions";
             ctUnit := w_document w !! "counter-unit" |} (w_game w)) w,
     Ok None).
Proof.
  intros Hb. unfold init, bind. rewrite lookup_elements_run, Hb. reflexivity.
Qed.

(** Running a sequence: when the first part returns, the rest goes on. *)
Lemma bind_ok {A B} (m : M A) (k : A -> M B) (w w' : world) (a : A) :
  m w = (w', Ok a) -> bind m k w = k a w'.
Proof. intros H. unfold bind. rewrite H. reflexivity. Qed.

Lemma bind_throw {A B} (m : M A) (k : A -> M B) (w w' : world) :
  m w = (w', Throw) -> bind m k w = (w', Throw).
Proof. intros H. unfold bind. rewrite H. reflexivity. Qed.

Ltac step :=
  lazymatch goal with
  | |- bind ?m ?k ?w = _ =>
      erewrite (bind_ok m k w); [| reflexivity]; cbv beta
  end.

Lemma updateDisplay_false_run (cfg : config) (w : world) :
  updateDisplay cfg false w
  = (set_nodes
       match counter (elems (w_game w)) with
       | Some n =>
           match w_nodes w !! n with
           | Some x =>
               <[ n := set_text (to_locale_string (count (w_game w))) x ]>
                 (w_nodes w)
           | None => w_nodes w
           end
       | None => w_nodes w
       end w, Ok tt).
Proof.
  unfold updateDisplay.
  rewrite (bind_ok _ _ w w (w_game w)) by reflexivity. cbv beta.
  destruct (counter (elems (w_game w))) as [n|].
  - step. reflexivity.
  - step. destruct w; reflexivity.
Qed.

Lemma loadAll_GAME_CONFIG_run (m : nat) (cb : option callback) (w : world) :
  loadAll GAME_CONFIG m cb w
  = (set_batches
       (w_batches w
        ++ [ {| b_manager := m; b_loadedCount := 0; b_total := 2;
                b_tasks := [ Pending; Pending ];
                b_onProgress := cb; b_promise := Pending;
                b_then_ready := false |} ])
       (set_net (w_net w ++ [ Fetch "audio/1.mp3"; Fetch "audio/2.mp3";
                              ImageLoad "img/arisu1.gif";
                              ImageLoad "img/arisu2.gif" ]) w),
     Ok (length (w_batches w))).
Proof.
  unfold loadAll. cbn [audioList preloadImages GAME_CONFIG for_each].
  unfold issue.
  repeat step.
  cbn [length replicate w_batches w_net set_net].
  rewrite <- !app_assoc. cbn [app]. destruct w; reflexivity.
Qed.

(** [init] on a page with the button. *)
Lemma init_present (w : world) (b : nat) :
  w_document w !! "counter-button" = Some b ->
  let e := {| btn := Some b;
              counter := w_document w !! "local-counter";
              loading := w_document w !! "loading";
              title := w_document w !! "page-title";
              desc := w_document w !! "page-descriptions";
              ctDesc := w_document w !! "counter-descriptions";
              ctUnit := w_document w !! "counter-unit" |} in
  let c := parseInt (or_zero (w_storage w !! "count-v2")) in
  let shown :=
    match counter e with
    | Some n =>
        match w_nodes w !! n with
        | Some x => <[ n := set_text (to_locale_string c) x ]> (w_nodes w)
        | None => w_nodes w
        end
    | None => w_nodes w
    end in
  init GAME_CONFIG w
  = ({| w_nodes := shown;
        w_document := w_document w;
        w_body := w_body w;
        w_storage := w_storage w;
        w_storage_log := w_storage_log w ++ [ GetItem "count-v2" ];
        w_net := w_net w ++ [ Fetch "audio/1.mp3"; Fetch "audio/2.mp3";
                              ImageLoad "img/arisu1.gif";
                              ImageLoad "img/arisu2.gif" ];
        w_initialized := w_initialized w;
        w_game := {| manager := Some (length (w_managers w));
                     count := c; elems := e |};
        w_managers := w_managers w
                      ++ [ {| audioCache := []; isReady := false |} ];
        w_batches := w_batches w
                     ++ [ {| b_manager := length (w_managers w);
                             b_loadedCount := 0; b_total := 2;
                             b_tasks := [ Pending; Pending ];
                             b_onProgress := Some InitProgress;
                             b_promise := Pending;
                             b_then_ready := true |} ];
        w_progress := w_progress w;
        w_timers := w_timers w;
        w_audio := w_audio w;
        w_console := w_console w;
        w_rng := w_rng w;
        w_draws := w_draws w |},
     Ok (Some (length (w_batches w)))).
Proof.
  intros Hb e c shown. unfold init.
  rewrite (bind_ok _ _ _ _ _ (lookup_elements_run w)). rewrite Hb.
  fold e.
  cbv beta. step.
  change (btn e) with (Some b). cbv iota.
  step. step.
  erewrite (bind_ok (updateDisplay _ _)) by apply updateDisplay_false_run.
  cbv beta. step. step.
  erewrite (bind_ok (loadAll _ _ _)) by apply loadAll_GAME_CONFIG_run.
  cbv beta. unfold update_batch. step.
  unfold ret.
  cbn [w_batches set_batches w_managers set_managers set_net set_game
       set_nodes set_storage_log w_game w_storage w_nodes w_net
       set_manager set_count set_elems count elems manager length].
  rewrite lookup_snoc_length, insert_snoc_length.
  reflexivity.
Qed.

(** **** C3 *)

(** C3, as the code has it.  When the page has no [counter-button], [init]
    returns after its first step, and the world it leaves is the one it
    found with the handle bindings alone replaced: the counter, the manager,
    the storage slot and its access log, the network log, the node heap, the
    document and its body, the initialisation flag, the managers, the
    batches, the progress log, the timers, the sounds, the console and the
    random stream are those of before.  The handle bindings are overwritten
    with the results of the fresh lookups, the button handle being
    [null]. *)
Theorem init_abort_frame (w : world) :
  w_document w !! "counter-button" = None ->
  let w' := exec (init GAME_CONFIG) w in
  snd (init GAME_CONFIG w) = Ok None /\
  w' = set_game (set_elems (lookups w) (w_game w)) w /\
  count (w_game w') = count (w_game w) /\
  manager (w_game w') = manager (w_game w) /\
  elems (w_game w') = lookups w /\
  btn (elems (w_game w')) = None /\
  w_storage w' = w_storage w /\
  w_storage_log w' = w_storage_log w /\
  w_net w' = w_net w /\
  w_nodes w' = w_nodes w /\
  w_document w' = w_document w /\
  w_body w' = w_body w /\
  w_initialized w' = w_initialized w /\
  w_managers w' = w_managers w /\
  w_batches w' = w_batches w /\
  w_progress w' = w_progress w /\
  w_timers w' = w_timers w /\
  w_audio w' = w_audio w /\
  w_console w' = w_console w /\
  w_rng w' = w_rng w /\
  w_draws w' = w_draws w.
Proof.
  intros Hb w'. unfold w', exec, lookups. rewrite (init_absent _ _ Hb), Hb.
  cbn. repeat split; reflexivity.
Qed.

Lemma init_abort_frame_witness :
  let w := navigated_world ∅ (fun _ => 1 # 2) in
  let w' := exec (init GAME_CONFIG) w in
  snd (init GAME_CONFIG w) = Ok None /\
  w' = set_game (set_elems (lookups w) (w_game w)) w /\
  count (w_game w') = count (w_game w) /\
  manager (w_game w') = manager (w_game w) /\
  elems (w_game w') = lookups w /\
  btn (elems (w_game w')) = None /\
  w_storage w' = w_storage w /\
  w_storage_log w' = w_storage_log w /\
  w_net w' = w_net w /\
  w_nodes w' = w_nodes w /\
  w_document w' = w_document w /\
  w_body w' = w_body w /\
  w_initialized w' = w_initialized w /\
  w_managers w' = w_managers w /\
  w_batches w' = w_batches w /\
  w_progress w' = w_progress w /\
  w_timers w' = w_timers w /\
  w_audio w' = w_audio w /\
  w_console w' = w_console w /\
  w_rng w' = w_rng w /\
  w_draws w' = w_draws w.
Proof.
  intros w. apply (init_abort_frame w). vm_compute. reflexivity.
Defined.

(** The claim as worded fails on the handle bindings: a session that was
    loading on the widget's page holds the button; after the visitor moves
    to a page without it, [init] aborts and yet the button handle, bound
    before the call, is [null] after it. *)
Lemma init_abort_rebinds_handles :
  let w := navigated_world ∅ (fun _ => 1 # 2) in
  w_document w !! "counter-button" = None /\
  btn (elems (w_game w)) = Some 0%nat /\
  btn (elems (w_game (exec (init GAME_CONFIG) w))) = None /\
  elems (w_game (exec (init GAME_CONFIG) w)) <> elems (w_game w).
Proof.
  vm_compute. repeat split; try reflexivity. discriminate.
Qed.

(** **** C4 *)

(** C4, as the code has it.  On the widget's page [init] reads the
    [count-v2] slot once and writes nothing to storage; the counter becomes
    [parseInt] of the stored string, with ["0"] standing in for an absent
    slot and for the empty string.  So the counter is 0 when the slot is
    absent or empty, and it is [NaN], not 0, when the slot holds a non-empty
    string from which no integer parses. *)
Theorem init_restores_counter (w : world) (b : nat) :
  w_document w !! "counter-button" = Some b ->
  let w' := exec (init GAME_CONFIG) w in
  w_storage_log w' = w_storage_log w ++ [ GetItem "count-v2" ] /\
  w_storage w' = w_storage w /\
  count (w_game w') = parseInt (or_zero (w_storage w !! "count-v2")) /\
  (w_storage w !! "count-v2" = None -> count (w_game w') = Int 0) /\
  (w_storage w !! "count-v2" = Some "" -> count (w_game w') = Int 0) /\
  (forall s : string,
      w_storage w !! "count-v2" = Some s -> s <> "" -> parseInt s = NaN ->
      count (w_game w') = NaN).
Proof.
  intros Hb w'. unfold w', exec. rewrite (init_present w b Hb).
  cbn [fst w_storage_log w_storage w_game count].
  split; [reflexivity|]. split; [reflexivity|]. split; [reflexivity|].
  split; [intros E; rewrite E; reflexivity|].
  split; [intros E; rewrite E; reflexivity|].
  intros s E Hs Hp. rewrite E. unfold or_zero.
  destruct (String.eqb_spec s ""); [contradiction | exact Hp].
Qed.

Lemma init_restores_counter_witness :
  let w := page_world ∅ (fun _ => 1 # 2) in
  let w' := exec (init GAME_CONFIG) w in
  w_storage_log w' = w_storage_log w ++ [ GetItem "count-v2" ] /\
  w_storage w' = w_storage w /\
  count (w_game w') = parseInt (or_zero (w_storage w !! "count-v2")) /\
  (w_storage w !! "count-v2" = None -> count (w_game w') = Int 0) /\
  (w_storage w !! "count-v2" = Some "" -> count (w_game w') = Int 0) /\
  (forall s : string,
      w_storage w !! "count-v2" = Some s -> s <> "" -> parseInt s = NaN ->
      count (w_game w') = NaN).
Proof.
  intros w. apply (init_restores_counter w 0). vm_compute. reflexivity.
Defined.

(** The claim as worded fails on a stored value that does not parse: with
    ["abc"] in the slot the counter after [init] is [NaN], not 0. *)
Lemma init_unparsable_is_NaN :
  let w := page_world {[ "count-v2" := "abc" ]} (fun _ => 1 # 2) in
  w_document w !! "counter-button" = Some 0%nat /\
  w_storage w !! "count-v2" = Some "abc" /\
  parseInt "abc" = NaN /\
  count (w_game (exec (init GAME_CONFIG) w)) = NaN /\
  count (w_game (exec (init GAME_CONFIG) w)) <> Int 0.
Proof.
  vm_compute. repeat split; try reflexivity. discriminate.
Qed.

(** **** C7 *)

(** [main] leaves [window.arisGameInitialized] as it found it. *)
Lemma main_keeps_flag (w : world) :
  w_initialized (exec main w) = w_initialized w.
Proof.
  unfold exec, main, bind, get.
  destruct (w_initialized w) eqn:E; [exact E|].
  destruct (w_document w !! "counter-button") as [b|] eqn:Hb.
  - rewrite (init_present w b Hb). exact E.
  - rewrite (init_absent _ w Hb). exact E.
Qed.

(** C7, evaluated on the code.  [main] consults the flag (when it is set,
    [main] does nothing) and the [pjax:complete] listener does not (it
    initializes even then); but [main] never sets the flag, so a second
    [main] on the widget's page initializes a second time: a second
    manager, a second batch, the four requests issued again. *)
Theorem main_twice_initializes_twice :
  (forall w : world, w_initialized (exec main w) = w_initialized w) /\
  (let w0 := page_world ∅ (fun _ => 1 # 2) in
   let w1 := exec main w0 in
   let w2 := exec main w1 in
   w_initialized w0 = false /\
   snd (main w0) = Ok (Some 0%nat) /\
   w_initialized w1 = false /\
   snd (main w1) = Ok (Some 1%nat) /\
   length (w_managers w1) = 1%nat /\
   length (w_managers w2) = 2%nat /\
   length (w_batches w2) = 2%nat /\
   manager (w_game w2) = Some 1%nat /\
   w_net w2 = w_net w1 ++ w_net w1 /\
   w_storage_log w2 = [ GetItem "count-v2"; GetItem "count-v2" ]) /\
  (let w := flagged (page_world ∅ (fun _ => 1 # 2)) in
   main w = (w, Ok None) /\
   snd (on_pjax_complete w) = Ok (Some 0%nat) /\
   length (w_managers (exec on_pjax_complete w)) = 1%nat).
Proof.
  split; [exact main_keeps_flag|].
  split; vm_compute; repeat split; reflexivity.
Qed.

(** *** What the feedback effects leave alone *)

Create HintDb keeps.

Lemma keeps_bind {A B} (m : M A) (k : A -> M B) :
  keeps_counter m -> (forall a, keeps_counter (k a)) -> keeps_counter (bind m k).
Proof.
  intros Hm Hk w. unfold bind. specialize (Hm w).
  destruct (m w) as [w1 [a|]]; cbn [fst] in *.
  - destruct (Hk a w1) as (G & S & L). destruct Hm as (G1 & S1 & L1).
    rewrite G, S, L. auto.
  - exact Hm.
Qed.

Lemma keeps_ret {A} (a : A) : keeps_counter (ret a).
Proof. intros w. cbn. auto. Qed.

Lemma keeps_throw {A} : keeps_counter (@throw A).
Proof. intros w. cbn. auto. Qed.

Lemma keeps_get {A} (f : world -> A) : keeps_counter (get f).
Proof. intros w. cbn. auto. Qed.

Lemma keeps_deref (h : option nat) : keeps_counter (deref h).
Proof. destruct h; [apply keeps_ret | apply keeps_throw]. Qed.

Lemma keeps_update_node (n : nat) (f : node -> node) :
  keeps_counter (update_node n f).
Proof. intros w. cbn. auto. Qed.

Lemma keeps_createElement (x : node) : keeps_counter (createElement x).
Proof. intros w. cbn. auto. Qed.

Lemma keeps_appendChild (p c : nat) : keeps_counter (appendChild p c).
Proof. apply keeps_update_node. Qed.

Lemma keeps_body_appendChild (c : nat) : keeps_counter (body_appendChild c).
Proof. intros w. cbn. auto. Qed.

Lemma keeps_Math_random : keeps_counter Math_random.
Proof. intros w. cbn. auto. Qed.

Lemma keeps_set_audio (f : world -> list audio) :
  keeps_counter (modify (fun w => set_audio (f w) w)).
Proof. intros w. cbn. auto. Qed.

Lemma keeps_set_timers (f : world -> list (Z * nat)) :
  keeps_counter (modify (fun w => set_timers (f w) w)).
Proof. intros w. cbn. auto. Qed.

#[local] Hint Resolve keeps_ret keeps_throw keeps_get keeps_deref
  keeps_update_node keeps_createElement keeps_appendChild
  keeps_body_appendChild keeps_Math_random keeps_set_audio keeps_set_timers
  : keeps.

Ltac keeps :=
  repeat first
    [ apply keeps_bind; [| intros ? ]
    | progress auto with keeps
    | match goal with
      | |- keeps_counter (match ?x with _ => _ end) => destruct x
      | |- keeps_counter (if ?x then _ else _) => destruct x
      end ].

Lemma keeps_setRandomText (cfg : config) (elem : option nat)
    (key : text_key) :
  keeps_counter (setRandomText cfg elem key).
Proof. unfold setRandomText. keeps. Qed.

Lemma keeps_refreshTexts (cfg : config) : keeps_counter (refreshTexts cfg).
Proof.
  unfold refreshTexts.
  repeat (apply keeps_bind; [| intros ? ]);
    auto using keeps_setRandomText with keeps.
Qed.

Lemma keeps_updateDisplay (cfg : config) (r : bool) :
  keeps_counter (updateDisplay cfg r).
Proof.
  unfold updateDisplay. apply keeps_bind; [auto with keeps|]. intros g.
  apply keeps_bind; [keeps|]. intros _.
  destruct r; [apply keeps_refreshTexts | apply keeps_ret].
Qed.

Lemma keeps_getRandomAudio (m : nat) : keeps_counter (getRandomAudio m).
Proof. unfold getRandomAudio. keeps. Qed.

Lemma keeps_playAudio : keeps_counter playAudio.
Proof.
  unfold playAudio. apply keeps_bind; [auto with keeps|]. intros m.
  apply keeps_bind; [auto with keeps|]. intros n.
  apply keeps_bind; [apply keeps_getRandomAudio|]. intros [s|]; keeps.
Qed.

Lemma keeps_spawnHerta : keeps_counter spawnHerta.
Proof. unfold spawnHerta. keeps. Qed.

Lemma keeps_createRipple (e : pointer_event) : keeps_counter (createRipple e).
Proof. unfold createRipple. keeps. Qed.

(** *** The counter under one interaction *)

(** The first two statements of [handleInteraction] always run; the rest
    is feedback. *)
Lemma handleInteraction_steps (cfg : config) (e : pointer_event) (w : world) :
  let c := succ (count (w_game w)) in
  handleInteraction cfg e w
  = bind (updateDisplay cfg true) (fun _ =>
      bind playAudio (fun _ =>
        bind spawnHerta (fun _ => createRipple e)))
      (set_storage (<[ "count-v2" := to_string c ]> (w_storage w))
         (set_storage_log
            (w_storage_log w ++ [ SetItem "count-v2" (to_string c) ])
            (set_game (set_count c (w_game w)) w))).
Proof. intros c. unfold handleInteraction. step. step. step. reflexivity. Qed.

Lemma keeps_feedback (cfg : config) (e : pointer_event) :
  keeps_counter
    (bind (updateDisplay cfg true) (fun _ =>
       bind playAudio (fun _ =>
         bind spawnHerta (fun _ => createRipple e)))).
Proof.
  apply keeps_bind; [apply keeps_updateDisplay|]. intros _.
  apply keeps_bind; [apply keeps_playAudio|]. intros _.
  apply keeps_bind; [apply keeps_spawnHerta|]. intros _.
  apply keeps_createRipple.
Qed.

Lemma handleInteraction_counter (e : pointer_event) (w : world) :
  let c := succ (count (w_game w)) in
  let w' := exec (handleInteraction GAME_CONFIG e) w in
  count (w_game w') = c /\
  manager (w_game w') = manager (w_game w) /\
  elems (w_game w') = elems (w_game w) /\
  w_storage w' = <[ "count-v2" := to_string c ]> (w_storage w) /\
  w_storage_log w' = w_storage_log w ++ [ SetItem "count-v2" (to_string c) ].
Proof.
  intros c w'. unfold w', exec. rewrite handleInteraction_steps. fold c.
  match goal with
  | |- context [fst (_ ?w0)] =>
      destruct (keeps_feedback GAME_CONFIG e w0) as (G & S & L)
  end.
  rewrite G, S, L. cbn. auto.
Qed.

(** *** The ripple of an interaction *)

(** The feedback that runs before [createRipple]. *)
Lemma updateDisplay_true_run (w : world) :
  exists w1 : world,
    updateDisplay GAME_CONFIG true w = (w1, Ok tt) /\
    length (w_nodes w1) = length (w_nodes w) /\
    w_game w1 = w_game w.
Proof.
  unfold updateDisplay, bind, get.
  set (m1 := match counter (elems (w_game w)) with
             | Some n => update_node n _
             | None => ret tt
             end).
  assert (E1 : exists w0, m1 w = (w0, Ok tt)
                          /\ length (w_nodes w0) = length (w_nodes w)
                          /\ w_game w0 = w_game w).
  { unfold m1. destruct (counter (elems (w_game w))) as [n|].
    - unfold update_node, modify. eexists. split; [reflexivity|].
      cbn [w_nodes set_nodes w_game].
      destruct (w_nodes w !! n); rewrite ?length_insert; auto.
    - exists w. auto. }
  destruct E1 as (w0 & E1 & L0 & G0). rewrite E1.
  rewrite refreshTexts_steps. eexists. split; [reflexivity|].
  set (e0 := elems (w_game w0)).
  set (wa := exec (setRandomText GAME_CONFIG (btn e0) CounterButton) w0).
  set (wb := exec (setRandomText GAME_CONFIG (ctDesc e0) CounterDescriptions)
               wa).
  destruct (setRandomText_frame (btn e0) CounterButton w0) as (La & Ga & _).
  destruct (setRandomText_frame (ctDesc e0) CounterDescriptions wa)
    as (Lb & Gb & _).
  destruct (setRandomText_frame (ctUnit e0) CounterUnit wb) as (Lc & Gc & _).
  fold wa in La, Ga. fold wb in Lb, Gb.
  split; [rewrite Lc, Lb, La; exact L0 | rewrite Gc, Gb, Ga; exact G0].
Qed.

Lemma playAudio_run (w : world) (m : nat) :
  manager (w_game w) = Some m ->
  exists w1 : world,
    playAudio w = (w1, Ok tt) /\
    w_nodes w1 = w_nodes w /\
    w_game w1 = w_game w.
Proof.
  intros Hg.
  unfold playAudio, bind, get, deref, getRandomAudio, bind, get, Math_random.
  rewrite Hg. cbn [ret fst].
  destruct (Nat.eqb _ 0); cbn [ret fst]; [eexists; repeat split; reflexivity|].
  destruct (js_index _ _) as [[s|]|];
    try (eexists; repeat split; reflexivity).
  destruct (String.eqb s ""); eexists; repeat split; reflexivity.
Qed.

Lemma spawnHerta_run (w : world) :
  exists (w1 : world) (img : node),
    spawnHerta w = (w1, Ok tt) /\
    w_nodes w1 = w_nodes w ++ [img] /\
    w_game w1 = w_game w.
Proof.
  unfold spawnHerta, bind, Math_random, createElement, body_appendChild,
    modify.
  eexists. eexists. split; [reflexivity|]. split; reflexivity.
Qed.

(** C8, as the code has it.  An interaction handled with the button handle
    bound and a manager present runs its feedback up to [createRipple] (the
    world is then [w4], one [img] richer), which adds one [span] of class
    [ripple] under the button.  With [s] the larger of the width and height
    of the box that the button then has, the span is [s] by [s]; its [left]
    is [(clientX - rect.left) - s/2] and its [top] is
    [(clientY - rect.top) - s/2] as doubles compute them, each subtraction
    and the halving rounded.  The centre of the span is therefore the
    pointer's offset in the box up to these roundings, within
    [centre_error], and exactly when none of the three operations rounds;
    the coordinates are finite numbers as long as the offset and the size
    stay within [2^1022].  A timer of 400 ms is set whose firing removes
    the span. *)
Theorem handleInteraction_spawns_ripple
    (w : world) (e : pointer_event) (b m : nat) (xb : node) :
  btn (elems (w_game w)) = Some b ->
  w_nodes w !! b = Some xb ->
  manager (w_game w) = Some m ->
  exists (w4 : world) (xb4 : node),
    handleInteraction GAME_CONFIG e w = createRipple e w4 /\
    length (w_nodes w4) = S (length (w_nodes w)) /\
    btn (elems (w_game w4)) = Some b /\
    w_nodes w4 !! b = Some xb4 /\
    let rect := n_rect xb4 in
    let s := Math_max (r_width rect) (r_height rect) in
    let ripple := length (w_nodes w4) in
    let w' := exec (handleInteraction GAME_CONFIG e) w in
    snd (handleInteraction GAME_CONFIG e w) = Ok tt /\
    length (w_nodes w') = S (length (w_nodes w4)) /\
    (exists xr st,
        w_nodes w' !! ripple = Some xr /\
        n_tag xr = "span" /\ n_class xr = [ "ripple" ] /\
        n_style xr = Some st /\
        s_width st = s /\ s_height st = s /\
        s_left st
        = js_sub (js_sub (Some (clientX e)) (Some (r_left rect)))
            (to_double (s / 2)) /\
        s_top st
        = js_sub (js_sub (Some (clientY e)) (Some (r_top rect)))
            (to_double (s / 2)) /\
        ((Qabs (clientX e - r_left rect) <= pow2 1022)%Q ->
         (Qabs s <= pow2 1022)%Q -> exists x, s_left st = Some x) /\
        ((Qabs (clientY e - r_top rect) <= pow2 1022)%Q ->
         (Qabs s <= pow2 1022)%Q -> exists y, s_top st = Some y) /\
        (forall x, s_left st = Some x ->
           (Qabs (x + s / 2 - (clientX e - r_left rect))
            <= centre_error (clientX e - r_left rect) s)%Q) /\
        (forall y, s_top st = Some y ->
           (Qabs (y + s / 2 - (clientY e - r_top rect))
            <= centre_error (clientY e - r_top rect) s)%Q) /\
        (is_double (clientX e - r_left rect) -> is_double (s / 2) ->
         is_double (clientX e - r_left rect - s / 2) ->
         exists x, s_left st = Some x /\
                   (x + s / 2 == clientX e - r_left rect)%Q) /\
        (is_double (clientY e - r_top rect) -> is_double (s / 2) ->
         is_double (clientY e - r_top rect - s / 2) ->
         exists y, s_top st = Some y /\
                   (y + s / 2 == clientY e - r_top rect)%Q)) /\
    (exists xb', w_nodes w' !! b = Some xb'
                 /\ n_children xb' = n_children xb4 ++ [ripple]) /\
    w_timers w' = w_timers w4 ++ [ (400, ripple) ] /\
    (exists xb'',
        w_nodes (exec (dispatch (Timeout (length (w_timers w4)))) w') !! b
        = Some xb''
        /\ ripple ∉ n_children xb'').
Proof.
  intros Hb Hx Hm.
  pose proof (handleInteraction_steps GAME_CONFIG e w) as St. cbv zeta in St.
  set (w2 := set_storage _ _) in St.
  assert (G2 : elems (w_game w2) = elems (w_game w)) by reflexivity.
  assert (M2 : manager (w_game w2) = Some m) by exact Hm.
  assert (N2 : w_nodes w2 = w_nodes w) by reflexivity.
  destruct (updateDisplay_true_run w2) as (w3 & E3 & L3 & G3).
  destruct (playAudio_run w3 m) as (wa & Ea & La & Ga);
    [rewrite G3; exact M2|].
  destruct (spawnHerta_run wa) as (w4 & img & E4 & L4 & G4).
  assert (Eh : handleInteraction GAME_CONFIG e w = createRipple e w4).
  { rewrite St. rewrite (bind_ok _ _ _ _ _ E3). cbv beta.
    rewrite (bind_ok _ _ _ _ _ Ea). cbv beta.
    rewrite (bind_ok _ _ _ _ _ E4). reflexivity. }
  assert (Len : length (w_nodes w4) = S (length (w_nodes w))).
  { rewrite L4, length_app, La, L3, N2. cbn. lia. }
  assert (Hb4 : btn (elems (w_game w4)) = Some b).
  { rewrite G4, Ga, G3, G2. exact Hb. }
  assert (Hlt : (b < length (w_nodes w4))%nat).
  { rewrite Len. assert (b < length (w_nodes w))%nat; [|lia].
    apply lookup_lt_is_Some. eauto. }
  destruct (lookup_lt_is_Some_2 (w_nodes w4) b Hlt) as (xb4 & Hx4).
  exists w4, xb4.
  split; [exact Eh|]. split; [exact Len|]. split; [exact Hb4|].
  split; [exact Hx4|].
  intros rect s ripple w'.
  assert (Ew : w' = exec (createRipple e) w4)
    by (unfold w', exec; rewrite Eh; reflexivity).
  rewrite Eh, Ew.
  destruct (createRipple_geometry w4 e b xb4 Hb4 Hx4)
    as (R1 & R2 & (xr & R3 & R4 & R5 & R6) & R7 & R8 & R9).
  split; [exact R1|]. split; [exact R2|].
  split; [|split; [exact R7|split; [exact R8 | exact R9]]].
  exists xr, (ripple_style (n_rect xb4) e).
  split; [exact R3|]. split; [exact R4|]. split; [exact R5|].
  split; [exact R6|].
  unfold ripple_style, ripple_size. cbn [s_width s_height s_left s_top].
  fold rect. fold s.
  split; [reflexivity|]. split; [reflexivity|].
  split; [reflexivity|]. split; [reflexivity|].
  split; [intros B1 B2; apply js_sub_finite; assumption|].
  split; [intros B1 B2; apply js_sub_finite; assumption|].
  split; [intros x Ex; apply js_sub_centre; exact Ex|].
  split; [intros y Ey; apply js_sub_centre; exact Ey|].
  split.
  - intros D1 D2 D3. destruct (js_sub_exact _ _ _ D1 D2 D3) as (x & Ex & _ & Q).
    exists x. split; [exact Ex | exact Q].
  - intros D1 D2 D3. destruct (js_sub_exact _ _ _ D1 D2 D3) as (y & Ey & _ & Q).
    exists y. split; [exact Ey | exact Q].
Qed.

Lemma handleInteraction_spawns_ripple_witness :
  let w := ready_world ∅ (fun _ => 1 # 4) in
  let e := {| clientX := 30; clientY := 35 |} in
  let b := 0%nat in
  exists (w4 : world) (xb4 : node),
    handleInteraction GAME_CONFIG e w = createRipple e w4 /\
    length (w_nodes w4) = S (length (w_nodes w)) /\
    btn (elems (w_game w4)) = Some b /\
    w_nodes w4 !! b = Some xb4 /\
    let rect := n_rect xb4 in
    let s := Math_max (r_width rect) (r_height rect) in
    let ripple := length (w_nodes w4) in
    let w' := exec (handleInteraction GAME_CONFIG e) w in
    snd (handleInteraction GAME_CONFIG e w) = Ok tt /\
    length (w_nodes w') = S (length (w_nodes w4)) /\
    (exists xr st,
        w_nodes w' !! ripple = Some xr /\
        n_tag xr = "span" /\ n_class xr = [ "ripple" ] /\
        n_style xr = Some st /\
        s_width st = s /\ s_height st = s /\
        s_left st
        = js_sub (js_sub (Some (clientX e)) (Some (r_left rect)))
            (to_double (s / 2)) /\
        s_top st
        = js_sub (js_sub (Some (clientY e)) (Some (r_top rect)))
            (to_double (s / 2)) /\
        ((Qabs (clientX e - r_left rect) <= pow2 1022)%Q ->
         (Qabs s <= pow2 1022)%Q -> exists x, s_left st = Some x) /\
        ((Qabs (clientY e - r_top rect) <= pow2 1022)%Q ->
         (Qabs s <= pow2 1022)%Q -> exists y, s_top st = Some y) /\
        (forall x, s_left st = Some x ->
           (Qabs (x + s / 2 - (clientX e - r_left rect))
            <= centre_error (clientX e - r_left rect) s)%Q) /\
        (forall y, s_top st = Some y ->
           (Qabs (y + s / 2 - (clientY e - r_top rect))
            <= centre_error (clientY e - r_top rect) s)%Q) /\
        (is_double (clientX e - r_left rect) -> is_double (s / 2) ->
         is_double (clientX e - r_left rect - s / 2) ->
         exists x, s_left st = Some x /\
                   (x + s / 2 == clientX e - r_left rect)%Q) /\
        (is_double (clientY e - r_top rect) -> is_double (s / 2) ->
         is_double (clientY e - r_top rect - s / 2) ->
         exists y, s_top st = Some y /\
                   (y + s / 2 == clientY e - r_top rect)%Q)) /\
    (exists xb', w_nodes w' !! b = Some xb'
                 /\ n_children xb' = n_children xb4 ++ [ripple]) /\
    w_timers w' = w_timers w4 ++ [ (400, ripple) ] /\
    (exists xb'',
        w_nodes (exec (dispatch (Timeout (length (w_timers w4)))) w') !! b
        = Some xb''
        /\ ripple ∉ n_children xb'').
Proof.
  intros w e b.
  apply (handleInteraction_spawns_ripple
           w e b 0%nat (default (new_node "") (w_nodes w !! b)));
    vm_compute; reflexivity.
Defined.

(** The claim as worded fails on the centre.  The button's box is
    [{left 8.3, top 20.7, width 120.4, height 40}] and the click is at
    [(57.9, 33.3)], each number the double nearest to the decimal.  The
    ripple is [120.4] wide and the code assigns it the [left]
    [-745908688283239 / 2^46], that is [-10.600000000000009]; this is not
    [clientX - rect.left - s/2], and [left + s/2] is not the pointer's
    offset [clientX - rect.left]. *)
Lemma ripple_centre_is_rounded :
  let rect := {| r_left := fl (83 # 10); r_top := fl (207 # 10);
                 r_width := fl (1204 # 10); r_height := 40 |} in
  let e := {| clientX := fl (579 # 10); clientY := fl (333 # 10) |} in
  let w := run [ DOMContentLoaded;
                 TaskSettled 0 0 (Loaded "data:audio/mpeg;base64,AAAA");
                 TaskSettled 0 1 (Loaded "data:audio/mpeg;base64,BBBB") ]
               (exec (install (game_page rect))
                  (fresh_world ∅ (fun _ => 1 # 4))) in
  let w' := exec (handleInteraction GAME_CONFIG e) w in
  let s := Math_max (r_width rect) (r_height rect) in
  exists (xr : node) (st : style) (x : Q),
    snd (handleInteraction GAME_CONFIG e w) = Ok tt /\
    w_nodes w' !! (length (w_nodes w) + 1)%nat = Some xr /\
    n_class xr = [ "ripple" ] /\
    n_style xr = Some st /\
    s_width st = s /\
    s_left st = Some x /\
    x = (-745908688283239 # 70368744177664)%Q /\
    ~ (x == clientX e - r_left rect - s / 2)%Q /\
    ~ (x + s / 2 == clientX e - r_left rect)%Q.
Proof.
  eexists. eexists. eexists.
  split; [vm_compute; reflexivity|].
  split; [vm_compute; reflexivity|].
  split; [vm_compute; reflexivity|].
  split; [vm_compute; reflexivity|].
  split; [vm_compute; reflexivity|].
  split; [vm_compute; reflexivity|].
  split; [vm_compute; reflexivity|].
  split; intros H; vm_compute in H; discriminate.
Qed.

(** *** Exact increments *)

Lemma of_Z_exact (z : Z) : - 2 ^ 53 <= z <= 2 ^ 53 -> of_Z z = Int z.
Proof.
  assert (P : forall p : positive,
             Zpos p <= 2 ^ 53 -> round_pos (Zpos p) = Int (Zpos p)).
  { intros p Hp. destruct (Z.eq_dec (Zpos p) (2 ^ 53)) as [E|N].
    - rewrite E. vm_compute. reflexivity.
    - unfold round_pos.
      assert (Z.log2 (Zpos p) < 53) by (apply Z.log2_lt_pow2; lia).
      destruct (Z.leb_spec (Z.log2 (Zpos p) - 52) 0); [reflexivity | lia]. }
  intros H. destruct z as [|p|p]; cbn [of_Z].
  - reflexivity.
  - apply P. lia.
  - change (- Zneg p) with (Zpos p). rewrite P by lia. reflexivity.
Qed.

Lemma succ_exact (z : Z) :
  - 2 ^ 53 <= z -> z + 1 <= 2 ^ 53 -> succ (Int z) = Int (z + 1).
Proof. intros H1 H2. cbn [succ]. apply of_Z_exact. lia. Qed.

(** A click on a node whose [onclick] is bound runs [handleInteraction]. *)
Lemma click_runs_handleInteraction
    (w : world) (b : nat) (x : node) (e : pointer_event) :
  w_nodes w !! b = Some x -> n_onclick x = true ->
  exec (dispatch (Click b e)) w = exec (handleInteraction GAME_CONFIG e) w.
Proof.
  intros Hx Hc. unfold exec, dispatch, bind, get. rewrite Hx, Hc.
  unfold catch, ret.
  destruct (handleInteraction GAME_CONFIG e w) as [w1 r]. reflexivity.
Qed.

(** *** Reading back what was written

    [parseInt] undoes [Number::toString] on the integers that a double
    holds exactly. *)

Lemma code_digit_char (d : Z) : 0 <= d <= 9 -> code (digit_char d) = 48 + d.
Proof.
  intros H.
  assert (E : d = 0 \/ d = 1 \/ d = 2 \/ d = 3 \/ d = 4 \/ d = 5 \/ d = 6
              \/ d = 7 \/ d = 8 \/ d = 9) by lia.
  repeat (destruct E as [E|E]; [subst d; reflexivity|]).
  subst d; reflexivity.
Qed.

Lemma digit_val_digit_char (d : Z) :
  0 <= d <= 9 -> digit_val 10 (digit_char d) = Some d.
Proof.
  intros H. unfold digit_val. rewrite (code_digit_char d H).
  destruct (Z.leb_spec 48 (48 + d)); [|lia].
  destruct (Z.leb_spec (48 + d) 57); [|lia].
  cbn. f_equal. lia.
Qed.

Lemma digits_prefix_digit (d : Z) (r : string) (acc : Z) (seen : bool) :
  0 <= d <= 9 ->
  digits_prefix 10 (String (digit_char d) r) acc seen
  = digits_prefix 10 r (acc * 10 + d) true.
Proof.
  intros H. cbn [digits_prefix]. rewrite (digit_val_digit_char d H).
  reflexivity.
Qed.

Lemma dec_fuel_S (f : nat) (z : Z) (acc : string) :
  dec_fuel (S f) z acc
  = if z <? 10 then String (digit_char (z mod 10)) acc
    else dec_fuel f (z / 10) (String (digit_char (z mod 10)) acc).
Proof. reflexivity. Qed.

Lemma string_app_assoc (a b c : string) :
  ((a ++ b) ++ c = a ++ (b ++ c))%string.
Proof.
  induction a as [|x a IH]; [reflexivity|].
  change (String x ((a ++ b) ++ c) = String x (a ++ (b ++ c)))%string.
  rewrite IH. reflexivity.
Qed.

Lemma digits_prefix_dec_fuel (f : nat) :
  forall (z : Z) (rest : string) (seen : bool),
    0 <= z < 10 ^ Z.of_nat (S f) ->
    digits_prefix 10 (dec_fuel (S f) z rest) 0 seen
    = digits_prefix 10 rest z true.
Proof.
  induction f as [|f IH]; intros z rest seen Hz.
  - rewrite dec_fuel_S. change (10 ^ Z.of_nat 1) with 10 in Hz.
    destruct (Z.ltb_spec z 10); [|lia].
    rewrite digits_prefix_digit by (pose proof (Z.mod_pos_bound z 10 ltac:(lia)); lia).
    rewrite Z.mod_small by lia. reflexivity.
  - rewrite (dec_fuel_S (S f)).
    destruct (Z.ltb_spec z 10) as [Hs|Hb].
    + rewrite digits_prefix_digit by (pose proof (Z.mod_pos_bound z 10 ltac:(lia)); lia).
      rewrite Z.mod_small by lia. reflexivity.
    + rewrite IH.
      * rewrite digits_prefix_digit by (pose proof (Z.mod_pos_bound z 10 ltac:(lia)); lia).
        f_equal. pose proof (Z.div_mod z 10). lia.
      * split; [apply Z.div_pos; lia|].
        apply Z.div_lt_upper_bound; [lia|].
        rewrite <- Z.pow_succ_r by lia.
        replace (Z.succ (Z.of_nat (S f))) with (Z.of_nat (S (S f))) by lia.
        apply Hz.
Qed.

Lemma dec_fuel_app (f : nat) :
  forall (z : Z) (rest : string),
    dec_fuel f z rest = (dec_fuel f z "" ++ rest)%string.
Proof.
  induction f as [|f IH]; intros z rest; [reflexivity|].
  rewrite !dec_fuel_S.
  destruct (z <? 10); [reflexivity|].
  rewrite IH. rewrite (IH _ (String _ "")).
  rewrite string_app_assoc. reflexivity.
Qed.

Lemma digits_prefix_zeros (m : nat) :
  forall acc : Z,
    digits_prefix 10 (zeros m) acc true = Some (acc * 10 ^ Z.of_nat m).
Proof.
  induction m as [|m IH]; intros acc.
  - cbn. f_equal. lia.
  - cbn [zeros]. rewrite digits_prefix_digit by lia. rewrite IH.
    f_equal. rewrite Nat2Z.inj_succ, Z.pow_succ_r by lia. lia.
Qed.

Lemma dec_fuel_enough (z : Z) :
  0 <= z -> z < 10 ^ Z.of_nat (S (Z.to_nat (Z.log2 z))).
Proof.
  intros Hz. destruct (Z.eq_dec z 0) as [->|Hn]; [reflexivity|].
  pose proof (Z.log2_nonneg z).
  assert (z < 2 ^ Z.succ (Z.log2 z)) by (apply Z.log2_spec; lia).
  replace (Z.of_nat (S (Z.to_nat (Z.log2 z)))) with (Z.succ (Z.log2 z)) by lia.
  eapply Z.lt_le_trans; [eassumption|].
  apply Z.pow_le_mono_l. lia.
Qed.

(** Parsing the digits of [s] followed by [m] zeros gives [s * 10^m]. *)
Lemma digits_prefix_dec_zeros (s : Z) (m : nat) (seen : bool) :
  0 <= s ->
  digits_prefix 10 (dec s ++ zeros m)%string 0 seen
  = Some (s * 10 ^ Z.of_nat m).
Proof.
  intros Hs. unfold dec. rewrite <- dec_fuel_app.
  rewrite digits_prefix_dec_fuel
    by (split; [exact Hs | apply dec_fuel_enough; exact Hs]).
  apply digits_prefix_zeros.
Qed.

(** The digits of a positive integer start with a non-zero digit. *)
Lemma dec_fuel_head (f : nat) :
  forall (z : Z) (rest : string),
    0 < z < 10 ^ Z.of_nat (S f) ->
    exists (d : Z) (r : string),
      1 <= d <= 9 /\ dec_fuel (S f) z rest = String (digit_char d) r.
Proof.
  induction f as [|f IH]; intros z rest Hz; rewrite dec_fuel_S.
  - change (10 ^ Z.of_nat 1) with 10 in Hz.
    destruct (Z.ltb_spec z 10) as [Hs|Hb]; [|lia].
    exists z, rest. rewrite Z.mod_small by lia. split; [lia | reflexivity].
  - destruct (Z.ltb_spec z 10) as [Hs|Hb].
    + exists z, rest. rewrite Z.mod_small by lia. split; [lia | reflexivity].
    + apply IH. split.
      * apply Z.div_str_pos. lia.
      * apply Z.div_lt_upper_bound; [lia|].
        rewrite <- Z.pow_succ_r by lia.
        replace (Z.succ (Z.of_nat (S f))) with (Z.of_nat (S (S f))) by lia.
        apply Hz.
Qed.

Lemma dec_head (z : Z) :
  0 < z -> exists (d : Z) (r : string),
             1 <= d <= 9 /\ dec z = String (digit_char d) r.
Proof.
  intros Hz. unfold dec. apply dec_fuel_head.
  split; [exact Hz | apply dec_fuel_enough; lia].
Qed.

(** A character in the printable ASCII range is not white space. *)
Lemma ws_char_printable (c : ascii) (r : string) :
  33 <= code c <= 126 -> ws_char (String c r) = None.
Proof.
  intros H. unfold ws_char.
  repeat match goal with
         | |- context [code c =? ?k] =>
             rewrite (proj2 (Z.eqb_neq (code c) k)) by lia
         end.
  cbn [orb andb].
  destruct r as [|c2 [|c3 r3]]; reflexivity.
Qed.

Lemma trim_start_printable (c : ascii) (r : string) :
  33 <= code c <= 126 -> trim_start (String c r) = String c r.
Proof.
  intros H. unfold trim_start. cbn [String.length trim_start_fuel].
  rewrite (ws_char_printable c r H). reflexivity.
Qed.

(** [parseInt] on a string that starts with a non-zero digit reads its
    decimal digits. *)
Lemma parseInt_digits (d : Z) (r : string) (m : Z) :
  1 <= d <= 9 ->
  digits_prefix 10 (String (digit_char d) r) 0 false = Some m ->
  m <> 0 ->
  parseInt (String (digit_char d) r) = of_Z m.
Proof.
  intros Hd Hp Hm. unfold parseInt.
  pose proof (code_digit_char d ltac:(lia)) as Hc.
  rewrite trim_start_printable by lia.
  rewrite Hc.
  rewrite (proj2 (Z.eqb_neq (48 + d) 45)) by lia.
  rewrite (proj2 (Z.eqb_neq (48 + d) 43)) by lia.
  assert (E : (match String (digit_char d) r with
               | String c0 (String cx r0) =>
                   if (code c0 =? 48) && ((code cx =? 120) || (code cx =? 88))
                   then (16, r0) else (10, String (digit_char d) r)
               | _ => (10, String (digit_char d) r)
               end) = (10, String (digit_char d) r)).
  { destruct r as [|cx r0]; [reflexivity|].
    rewrite Hc. rewrite (proj2 (Z.eqb_neq (48 + d) 48)) by lia. reflexivity. }
  rewrite E. rewrite Hp. destruct m; [contradiction | reflexivity..].
Qed.

(** The same after a minus sign. *)
Lemma parseInt_minus_digits (d : Z) (r : string) (m : Z) :
  1 <= d <= 9 ->
  digits_prefix 10 (String (digit_char d) r) 0 false = Some m ->
  m <> 0 ->
  parseInt (String "-" (String (digit_char d) r)) = of_Z (- m).
Proof.
  intros Hd Hp Hm. unfold parseInt.
  rewrite trim_start_printable by (vm_compute; split; discriminate).
  change (code "-" =? 45) with true. cbv iota.
  pose proof (code_digit_char d ltac:(lia)) as Hc.
  assert (E : (match String (digit_char d) r with
               | String c0 (String cx r0) =>
                   if (code c0 =? 48) && ((code cx =? 120) || (code cx =? 88))
                   then (16, r0) else (10, String (digit_char d) r)
               | _ => (10, String (digit_char d) r)
               end) = (10, String (digit_char d) r)).
  { destruct r as [|cx r0]; [reflexivity|].
    rewrite Hc. rewrite (proj2 (Z.eqb_neq (48 + d) 48)) by lia. reflexivity. }
  rewrite E. rewrite Hp. destruct m; [contradiction | reflexivity..].
Qed.

(** *** The shortest digits of a small integer are its own digits *)

Lemma round_pos_large (v : Z) :
  2 ^ 53 <= v ->
  round_pos v = PInf \/ exists u, round_pos v = Int u /\ 2 ^ 53 <= u.
Proof.
  intros Hv. unfold round_pos.
  assert (H53 : 53 <= Z.log2 v) by (apply Z.log2_le_pow2; lia).
  set (e := Z.log2 v - 52).
  destruct (Z.leb_spec e 0) as [?|He]; [lia|].
  assert (Hq : 2 ^ 52 <= v / 2 ^ e).
  { apply Z.div_le_lower_bound; [apply Z.pow_pos_nonneg; lia|].
    rewrite Z.mul_comm, <- Z.pow_add_r by lia.
    replace (52 + e) with (Z.log2 v) by lia.
    apply Z.log2_spec. lia. }
  set (q := v / 2 ^ e) in *.
  set (q' := if v mod 2 ^ e <? 2 ^ (e - 1) then q
             else if 2 ^ (e - 1) <? v mod 2 ^ e then q + 1
             else if Z.even q then q else q + 1).
  assert (Hq' : q <= q').
  { unfold q'. destruct (_ <? _); [lia|]. destruct (_ <? _); [lia|].
    destruct (Z.even q); lia. }
  destruct (2 ^ 1024 <=? q' * 2 ^ e); [left; reflexivity|].
  right. eexists. split; [reflexivity|].
  assert (2 <= 2 ^ e).
  { change 2 with (2 ^ 1) at 1. apply Z.pow_le_mono_r; lia. }
  change (2 ^ 53) with (2 ^ 52 * 2). nia.
Qed.

Lemma of_Z_small_inv (v z : Z) :
  0 < v -> z < 2 ^ 53 -> of_Z v = Int z -> v = z.
Proof.
  intros Hv Hz E. destruct (Z.le_gt_cases v (2 ^ 53)) as [Hs|Hb].
  - rewrite of_Z_exact in E by lia. congruence.
  - destruct v as [|p|p]; try lia. cbn [of_Z] in E.
    destruct (round_pos_large (Zpos p)) as [F|(u & F & Hu)]; [lia| |];
      rewrite F in E; [discriminate|]. injection E as <-. lia.
Qed.

Lemma num_eqb_Int (x : num) (z : Z) : num_eqb x (Int z) = true -> x = Int z.
Proof.
  destruct x; cbn; try discriminate. intros H. apply Z.eqb_eq in H.
  congruence.
Qed.

Lemma candidates_sound (z k s k' n : Z) :
  In (s, k', n) (candidates z k) ->
  k' = k /\ 10 ^ (k - 1) <= s /\ k <= n /\ of_Z (s * 10 ^ (n - k)) = Int z.
Proof.
  unfold candidates. rewrite filter_In. intros [Hin Hf].
  assert (Hk : k' = k).
  { cbn in Hin. repeat (destruct Hin as [Hin|Hin]; [congruence|]).
    contradiction. }
  subst k'. cbn beta iota in Hf.
  apply andb_prop in Hf as [Hf H4]. apply andb_prop in Hf as [Hf H3].
  apply andb_prop in Hf as [H1 H2].
  apply Z.leb_le in H1, H3. apply num_eqb_Int in H4. auto.
Qed.

Lemma closest_keeps (P : Z * Z * Z -> Prop) (z : Z) (l : list (Z * Z * Z)) :
  forall best, P best -> Forall P l -> P (closest z best l).
Proof.
  induction l as [|c r IH]; intros best Hb Hl; cbn [closest]; [exact Hb|].
  inversion Hl; subst. apply IH; [|assumption].
  destruct (_ <? _); assumption.
Qed.

Lemma dec_fuel_length (f : nat) :
  forall (z : Z) (rest : string),
    0 < z ->
    10 ^ (Z.of_nat (String.length (dec_fuel f z rest))
          - Z.of_nat (String.length rest) - 1) <= z.
Proof.
  induction f as [|f IH]; intros z rest Hz.
  - cbn [dec_fuel]. replace (_ - _ - 1) with (-1) by lia. cbn. lia.
  - rewrite dec_fuel_S. destruct (Z.ltb_spec z 10) as [Hs|Hb].
    + cbn [String.length]. replace (_ - _ - 1) with 0 by lia. cbn. lia.
    + specialize (IH (z / 10) (String (digit_char (z mod 10)) rest)
                    ltac:(apply Z.div_str_pos; lia)).
      cbn [String.length] in IH.
      set (L := Z.of_nat (String.length (dec_fuel f (z / 10) _))) in *.
      destruct (Z.le_gt_cases (Z.of_nat (S (String.length rest))) (L - 1))
        as [Hge|Hlt].
      * replace (L - Z.of_nat (String.length rest) - 1)
          with (Z.succ (L - Z.of_nat (S (String.length rest)) - 1)) by lia.
        rewrite Z.pow_succ_r by lia.
        pose proof (Z.mul_div_le z 10 ltac:(lia)). lia.
      * destruct (Z.eq_dec (L - Z.of_nat (String.length rest) - 1) 0) as [E|E].
        -- rewrite E. cbn. lia.
        -- rewrite Z.pow_neg_r by lia. lia.
Qed.

Lemma ndigits_bound (z : Z) : 0 < z -> 10 ^ (ndigits z - 1) <= z.
Proof.
  intros Hz. unfold ndigits, dec.
  pose proof (dec_fuel_length (S (Z.to_nat (Z.log2 z))) z "" Hz) as H.
  cbn [String.length] in H. replace (_ - Z.of_nat 0 - 1) with
    (Z.of_nat (String.length (dec_fuel (S (Z.to_nat (Z.log2 z))) z "")) - 1)
    in H by lia.
  exact H.
Qed.

Lemma pow10_lt_inv (a : Z) (z : Z) : 10 ^ a <= z -> z < 10 ^ 16 -> a < 16.
Proof.
  intros H1 H2. destruct (Z.lt_ge_cases a 16) as [?|Hge]; [assumption|].
  assert (10 ^ 16 <= 10 ^ a) by (apply Z.pow_le_mono_r; lia). lia.
Qed.

Lemma shortest_from_exact (z : Z) (fuel : nat) :
  0 < z < 2 ^ 53 ->
  forall k, 1 <= k ->
    let '(s, k', n) := shortest_from fuel z k in
    s * 10 ^ (n - k') = z /\ 0 < s /\ k' <= n /\ n <= 16.
Proof.
  intros Hz. induction fuel as [|fuel IH]; intros k Hk; cbn [shortest_from].
  - pose proof (ndigits_bound z ltac:(lia)) as Hd.
    pose proof (pow10_lt_inv _ _ Hd ltac:(lia)).
    rewrite Z.sub_diag. cbn. lia.
  - destruct (candidates z k) as [|c r] eqn:Ec; [apply IH; lia|].
    apply (closest_keeps
             (fun '(s, k', n) =>
                s * 10 ^ (n - k') = z /\ 0 < s /\ k' <= n /\ n <= 16)).
    + destruct c as [[s k'] n].
      destruct (candidates_sound z k s k' n) as (-> & H1 & H2 & H3);
        [rewrite Ec; left; reflexivity|].
      assert (Hp : 0 < 10 ^ (k - 1)) by (apply Z.pow_pos_nonneg; lia).
      assert (Hp2 : 0 < 10 ^ (n - k)) by (apply Z.pow_pos_nonneg; lia).
      assert (Hv : s * 10 ^ (n - k) = z)
        by (apply of_Z_small_inv; [nia | lia | exact H3]).
      repeat split; [exact Hv | lia | lia |].
      assert (10 ^ (n - 1) <= z).
      { replace (n - 1) with ((k - 1) + (n - k)) by lia.
        rewrite Z.pow_add_r by lia. nia. }
      pose proof (pow10_lt_inv (n - 1) z ltac:(lia) ltac:(lia)). lia.
    + rewrite Forall_forall. intros [[s k'] n] Hin.
      destruct (candidates_sound z k s k' n) as (-> & H1 & H2 & H3);
        [rewrite Ec; right; apply list_elem_of_In; exact Hin|].
      assert (Hp : 0 < 10 ^ (k - 1)) by (apply Z.pow_pos_nonneg; lia).
      assert (Hp2 : 0 < 10 ^ (n - k)) by (apply Z.pow_pos_nonneg; lia).
      assert (Hv : s * 10 ^ (n - k) = z)
        by (apply of_Z_small_inv; [nia | lia | exact H3]).
      repeat split; [exact Hv | lia | lia |].
      assert (10 ^ (n - 1) <= z).
      { replace (n - 1) with ((k - 1) + (n - k)) by lia.
        rewrite Z.pow_add_r by lia. nia. }
      pose proof (pow10_lt_inv (n - 1) z ltac:(lia) ltac:(lia)). lia.
Qed.

Lemma pos_to_string_parse (z : Z) :
  0 < z < 2 ^ 53 ->
  exists (d : Z) (r : string),
    1 <= d <= 9 /\
    pos_to_string z = String (digit_char d) r /\
    digits_prefix 10 (pos_to_string z) 0 false = Some z.
Proof.
  intros Hz. unfold pos_to_string, shortest.
  pose proof (shortest_from_exact z 17 Hz 1 ltac:(lia)) as H.
  destruct (shortest_from 17 z 1) as [[s k] n].
  destruct H as (Hv & Hs & Hk & Hn).
  destruct (Z.leb_spec n 21) as [_|?]; [|lia].
  destruct (dec_head s Hs) as (d & r & Hd & E).
  exists d, (r ++ zeros (Z.to_nat (n - k)))%string.
  split; [exact Hd|]. split; [rewrite E; reflexivity|].
  rewrite digits_prefix_dec_zeros by lia.
  rewrite Z2Nat.id by lia. rewrite Hv. reflexivity.
Qed.

(** [parseInt] reads back the string of every integer from [-2^53] to
    [2^53]. *)
Lemma parseInt_to_string (z : Z) :
  - 2 ^ 53 <= z <= 2 ^ 53 -> parseInt (to_string (Int z)) = Int z.
Proof.
  intros Hz.
  destruct (Z.eq_dec z (2 ^ 53)) as [->|H1]; [vm_compute; reflexivity|].
  destruct (Z.eq_dec z (- 2 ^ 53)) as [->|H2]; [vm_compute; reflexivity|].
  destruct z as [|p|p]; cbn [to_string].
  - reflexivity.
  - destruct (pos_to_string_parse (Zpos p) ltac:(lia)) as (d & r & Hd & E & P).
    rewrite E in P |- *.
    rewrite (parseInt_digits d r (Zpos p) Hd P ltac:(lia)).
    apply of_Z_exact. lia.
  - destruct (pos_to_string_parse (Zpos p) ltac:(lia)) as (d & r & Hd & E & P).
    rewrite E in P |- *.
    rewrite (parseInt_minus_digits d r (Zpos p) Hd P ltac:(lia)).
    apply of_Z_exact. lia.
Qed.

(** *** Sequences of interactions *)

Lemma interactions_snoc (es : list pointer_event) (e : pointer_event)
    (w : world) :
  interactions (es ++ [e]) w
  = exec (handleInteraction GAME_CONFIG e) (interactions es w).
Proof.
  revert w. induction es as [|a es IH]; intros w; [reflexivity|].
  cbn [interactions app]. apply IH.
Qed.

Lemma interactions_exact (es : list pointer_event) :
  forall (w : world) (s : Z),
    count (w_game w) = Int s ->
    - 2 ^ 53 <= s -> s + Z.of_nat (length es) <= 2 ^ 53 ->
    let w' := interactions es w in
    count (w_game w') = Int (s + Z.of_nat (length es)) /\
    w_storage_log w'
    = w_storage_log w ++ counter_writes s (length es) /\
    (es <> [] ->
     w_storage w' !! "count-v2"
     = Some (to_string (Int (s + Z.of_nat (length es))))).
Proof.
  induction es as [|e es IH] using rev_ind; intros w s Hc Hlo Hhi.
  - cbn [interactions length counter_writes]. cbv zeta.
    rewrite Z.add_0_r, app_nil_r.
    split; [exact Hc|]. split; [reflexivity|]. intros H; contradiction.
  - rewrite length_app in *. cbn [length] in *.
    replace (length es + 1)%nat with (S (length es)) in * by lia.
    destruct (IH w s Hc Hlo ltac:(lia)) as (C & L & _).
    cbv zeta. rewrite interactions_snoc.
    destruct (handleInteraction_counter e (interactions es w))
      as (C' & _ & _ & S' & L').
    rewrite C in C', S', L'.
    rewrite succ_exact in C', S', L' by lia.
    replace (s + Z.of_nat (length es) + 1)
      with (s + Z.of_nat (S (length es))) in * by lia.
    split; [exact C'|]. split.
    + rewrite L', L. cbn [counter_writes]. rewrite app_assoc. reflexivity.
    + intros _. rewrite S'. apply lookup_insert_eq.
Qed.

Lemma interactions_stuck (es : list pointer_event) :
  forall (w : world) (c : num),
    succ c = c -> count (w_game w) = c ->
    let w' := interactions es w in
    count (w_game w') = c /\
    w_storage_log w'
    = w_storage_log w
      ++ List.repeat (SetItem "count-v2" (to_string c)) (length es) /\
    (es <> [] -> w_storage w' !! "count-v2" = Some (to_string c)).
Proof.
  induction es as [|e es IH] using rev_ind; intros w c Hs Hc.
  - cbn [interactions length List.repeat]. cbv zeta. rewrite app_nil_r.
    split; [exact Hc|]. split; [reflexivity|]. intros H; contradiction.
  - destruct (IH w c Hs Hc) as (C & L & _).
    cbv zeta. rewrite interactions_snoc.
    destruct (handleInteraction_counter e (interactions es w))
      as (C' & _ & _ & S' & L').
    rewrite C, Hs in C', S', L'.
    split; [exact C'|]. split.
    + rewrite L', L, length_app. cbn [length].
      replace (length es + 1)%nat with (S (length es)) by lia.
      rewrite <- app_assoc. f_equal.
      change (SetItem "count-v2" (to_string c) :: nil)
        with (List.repeat (SetItem "count-v2" (to_string c)) 1).
      rewrite <- repeat_app. f_equal. lia.
    + intros _. rewrite S'. apply lookup_insert_eq.
Qed.

Lemma restore_to_string (z : Z) :
  - 2 ^ 53 <= z <= 2 ^ 53 ->
  parseInt (or_zero (Some (to_string (Int z)))) = Int z.
Proof.
  intros Hz. pose proof (parseInt_to_string z Hz) as P. unfold or_zero.
  destruct (String.eqb_spec (to_string (Int z)) "") as [E|_]; [|exact P].
  rewrite E in P. vm_compute in P. discriminate.
Qed.

(** *** Extra properties: the counter *)

(** X1.  Every call of [handleInteraction] adds 1 to the counter (Number
    addition) and stores the string of the new value under [count-v2] with
    one [setItem], before any feedback runs: this holds whether or not the
    feedback that follows throws.  The manager, the handles and every other
    key of the storage are left as they were. *)
Theorem handleInteraction_persists_first (e : pointer_event) (w : world) :
  let c := succ (count (w_game w)) in
  let w' := exec (handleInteraction GAME_CONFIG e) w in
  count (w_game w') = c /\
  manager (w_game w') = manager (w_game w) /\
  elems (w_game w') = elems (w_game w) /\
  w_storage w' !! "count-v2" = Some (to_string c) /\
  (forall k : string, k <> "count-v2" -> w_storage w' !! k = w_storage w !! k) /\
  w_storage_log w' = w_storage_log w ++ [ SetItem "count-v2" (to_string c) ].
Proof.
  intros c w'.
  destruct (handleInteraction_counter e w) as (C & Mg & El & S & L).
  fold c w' in C, Mg, El, S, L.
  split; [exact C|]. split; [exact Mg|]. split; [exact El|].
  split; [rewrite S; apply lookup_insert_eq|].
  split; [|exact L].
  intros k Hk. rewrite S. apply lookup_insert_ne. congruence.
Qed.

(** X2.  While the counter is an integer that a double holds exactly
    (from [-2^53] up to [2^53]), [N] interactions take it from [s] to
    [s + N], make exactly [N] storage calls, the [k]-th being
    [setItem('count-v2', String(s + k))], and leave the string of [s + N]
    in the slot. *)
Theorem interactions_count_exactly
    (es : list pointer_event) (w : world) (s : Z) :
  count (w_game w) = Int s ->
  - 2 ^ 53 <= s -> s + Z.of_nat (length es) <= 2 ^ 53 ->
  let w' := interactions es w in
  count (w_game w') = Int (s + Z.of_nat (length es)) /\
  w_storage_log w' = w_storage_log w ++ counter_writes s (length es) /\
  length (w_storage_log w') = (length (w_storage_log w) + length es)%nat /\
  (es <> [] ->
   w_storage w' !! "count-v2"
   = Some (to_string (Int (s + Z.of_nat (length es))))).
Proof.
  intros Hc Hlo Hhi w'.
  destruct (interactions_exact es w s Hc Hlo Hhi) as (C & L & S).
  fold w' in C, L, S.
  split; [exact C|]. split; [exact L|]. split; [|exact S].
  rewrite L, length_app. f_equal.
  clear. induction (length es) as [|n IH]; [reflexivity|].
  cbn [counter_writes]. rewrite length_app, IH. cbn. lia.
Qed.

Lemma interactions_count_exactly_witness :
  let es := [ {| clientX := 30; clientY := 35 |};
              {| clientX := 31; clientY := 36 |};
              {| clientX := 32; clientY := 37 |} ] in
  let w := ready_world {[ "count-v2" := "41" ]} (fun _ => 1 # 4) in
  let w' := interactions es w in
  count (w_game w') = Int (41 + Z.of_nat (length es)) /\
  w_storage_log w' = w_storage_log w ++ counter_writes 41 (length es) /\
  length (w_storage_log w') = (length (w_storage_log w) + length es)%nat /\
  (es <> [] ->
   w_storage w' !! "count-v2"
   = Some (to_string (Int (41 + Z.of_nat (length es))))).
Proof.
  intros es w. apply (interactions_count_exactly es w 41).
  - vm_compute. reflexivity.
  - vm_compute. discriminate.
  - vm_compute. discriminate.
Defined.

(** X3.  What one session counts, the next one restores: after at least
    one interaction in the exact range, [init] on a page with the button,
    run on any world whose slot holds what the interactions left there,
    sets the counter to [s + N]. *)
Theorem next_session_restores_counter
    (es : list pointer_event) (w w2 : world) (s : Z) (b : nat) :
  count (w_game w) = Int s ->
  - 2 ^ 53 <= s -> s + Z.of_nat (length es) <= 2 ^ 53 ->
  es <> [] ->
  w_storage w2 !! "count-v2" = w_storage (interactions es w) !! "count-v2" ->
  w_document w2 !! "counter-button" = Some b ->
  persisted_counter (interactions es w) = Int (s + Z.of_nat (length es)) /\
  count (w_game (exec (init GAME_CONFIG) w2))
  = Int (s + Z.of_nat (length es)).
Proof.
  intros Hc Hlo Hhi Hne Hs Hb.
  destruct (interactions_exact es w s Hc Hlo Hhi) as (_ & _ & S).
  specialize (S Hne).
  assert (P : persisted_counter (interactions es w)
              = Int (s + Z.of_nat (length es))).
  { unfold persisted_counter. rewrite S. apply restore_to_string. lia. }
  split; [exact P|].
  unfold exec. rewrite (init_present w2 b Hb). cbn [fst w_game count].
  rewrite Hs. exact P.
Qed.

Lemma next_session_restores_counter_witness :
  let es := [ {| clientX := 30; clientY := 35 |};
              {| clientX := 31; clientY := 36 |} ] in
  let w := ready_world {[ "count-v2" := "41" ]} (fun _ => 1 # 4) in
  let w2 := page_world (w_storage (interactions es w)) (fun _ => 3 # 4) in
  persisted_counter (interactions es w) = Int (41 + Z.of_nat (length es)) /\
  count (w_game (exec (init GAME_CONFIG) w2))
  = Int (41 + Z.of_nat (length es)).
Proof.
  intros es w w2.
  apply (next_session_restores_counter es w w2 41 0).
  - vm_compute. reflexivity.
  - vm_compute. discriminate.
  - vm_compute. discriminate.
  - discriminate.
  - vm_compute. reflexivity.
  - vm_compute. reflexivity.
Defined.

(** X4.  A counter on which [+ 1] has no effect never moves again: from
    [NaN], from an infinity or from [2^53], any number of interactions
    leaves the counter where it was, although each of them still writes its
    string to the slot. *)
Theorem stuck_counter_never_moves
    (es : list pointer_event) (w : world) (c : num) :
  succ c = c ->
  count (w_game w) = c ->
  let w' := interactions es w in
  (succ NaN = NaN /\ succ PInf = PInf /\ succ NInf = NInf
   /\ succ (Int (2 ^ 53)) = Int (2 ^ 53)) /\
  count (w_game w') = c /\
  w_storage_log w'
  = w_storage_log w
    ++ List.repeat (SetItem "count-v2" (to_string c)) (length es) /\
  (es <> [] -> w_storage w' !! "count-v2" = Some (to_string c)).
Proof.
  intros Hs Hc w'.
  split; [repeat split; vm_compute; reflexivity|].
  exact (interactions_stuck es w c Hs Hc).
Qed.

Lemma stuck_counter_never_moves_witness :
  let es := [ {| clientX := 30; clientY := 35 |};
              {| clientX := 31; clientY := 36 |} ] in
  let w := ready_world {[ "count-v2" := "abc" ]} (fun _ => 1 # 4) in
  let w' := interactions es w in
  (succ NaN = NaN /\ succ PInf = PInf /\ succ NInf = NInf
   /\ succ (Int (2 ^ 53)) = Int (2 ^ 53)) /\
  count (w_game w') = NaN /\
  w_storage_log w'
  = w_storage_log w
    ++ List.repeat (SetItem "count-v2" (to_string NaN)) (length es) /\
  (es <> [] -> w_storage w' !! "count-v2" = Some (to_string NaN)).
Proof.
  intros es w. apply (stuck_counter_never_moves es w NaN).
  - reflexivity.
  - vm_compute. reflexivity.
Defined.

(** *** Extra properties: one batch of [loadAll] *)

Lemma for_each_issue {A} (f : A -> request) (l : list A) :
  forall w : world,
    for_each l (fun a => issue (f a)) w
    = (set_net (w_net w ++ List.map f l) w, Ok tt).
Proof.
  induction l as [|a l IH]; intros w; cbn [for_each List.map].
  - rewrite app_nil_r. destruct w; reflexivity.
  - step. rewrite IH. cbn [w_net set_net]. rewrite <- app_assoc.
    destruct w; reflexivity.
Qed.

(** [loadAll], for any configuration: the requests go out, audio first, and
    a batch of pending tasks is registered. *)
Lemma loadAll_run (cfg : config) (m : nat) (cb : option callback) (w : world) :
  loadAll cfg m cb w
  = (set_batches
       (w_batches w
        ++ [ {| b_manager := m; b_loadedCount := 0;
                b_total := length (audioList cfg);
                b_tasks := replicate (length (audioList cfg)) Pending;
                b_onProgress := cb; b_promise := Pending;
                b_then_ready := false |} ])
       (set_net (w_net w ++ List.map Fetch (audioList cfg)
                         ++ List.map ImageLoad (preloadImages cfg)) w),
     Ok (length (w_batches w))).
Proof.
  unfold loadAll.
  erewrite bind_ok by apply (for_each_issue Fetch).
  erewrite bind_ok by apply (for_each_issue ImageLoad).
  cbn [w_net set_net w_batches]. rewrite <- app_assoc.
  destruct w; reflexivity.
Qed.

Lemma no_rejected_existsb (t : list task_state) :
  Forall (fun s => s <> Rejected) t ->
  existsb (fun s => match s with Rejected => true | _ => false end) t = false.
Proof.
  induction 1 as [|s t Hs _ IH]; [reflexivity|].
  cbn [existsb]. rewrite IH. destruct s; [reflexivity..|contradiction].
Qed.

Lemma no_rejected_insert (t : list task_state) (i : nat) :
  Forall (fun s => s <> Rejected) t ->
  Forall (fun s => s <> Rejected) (<[ i := Fulfilled ]> t).
Proof.
  intros H. apply Forall_insert; [exact H | discriminate].
Qed.

(** The progress report of one task, when the callback returns. *)
Lemma report_normal (cb : option callback) (b lc total : nat) (w : world) :
  returns_normally cb w ->
  exists w1 : world,
    catch
      match cb with
      | Some c =>
          bind (modify (fun w =>
                  set_progress (w_progress w ++ [(b, lc, total)]) w))
               (fun _ => call c lc total)
      | None => ret tt
      end w = (w1, Ok (Ok tt)) /\
    w_batches w1 = w_batches w /\
    w_managers w1 = w_managers w /\
    w_game w1 = w_game w /\
    w_console w1 = w_console w /\
    w_storage w1 = w_storage w /\
    w_storage_log w1 = w_storage_log w /\
    w_net w1 = w_net w /\
    w_progress w1
    = w_progress w ++ match cb with
                      | Some _ => [(b, lc, total)]
                      | None => []
                      end.
Proof.
  intros Hn. destruct cb as [[|throws]|]; cbn [returns_normally] in Hn.
  - destruct (btn (elems (w_game w))) as [n|] eqn:Eb; [|contradiction].
    eexists. unfold catch, bind, modify, call, init_onProgress, bind, get.
    cbn [w_game set_progress]. rewrite Eb. cbn [deref ret].
    unfold update_node, modify. cbn [fst snd].
    split; [reflexivity|]. cbn. repeat split; reflexivity.
  - eexists. unfold catch, bind, modify, call. rewrite Hn.
    cbn [ret]. split; [reflexivity|]. cbn. repeat split; reflexivity.
  - exists w. cbn. rewrite app_nil_r. repeat split; reflexivity.
Qed.

Lemma update_manager_run
    (m : nat) (f : resource_manager -> resource_manager) (w : world)
    (r : resource_manager) :
  w_managers w !! m = Some r ->
  update_manager m f w = (set_managers (<[ m := f r ]> (w_managers w)) w, Ok tt).
Proof. intros H. unfold update_manager, modify. rewrite H. reflexivity. Qed.

Lemma update_batch_run (b : nat) (f : batch -> batch) (w : world) (x : batch) :
  w_batches w !! b = Some x ->
  update_batch b f w = (set_batches (<[ b := f x ]> (w_batches w)) w, Ok tt).
Proof. intros H. unfold update_batch, modify. rewrite H. reflexivity. Qed.

(** The first half of a settling task: the [try] pushes or the [catch]
    logs. *)
Lemma settle_try_run (cfg : config) (x : batch) (i : nat) (o : outcome)
    (w : world) (r : resource_manager) :
  w_managers w !! b_manager x = Some r ->
  exists wA : world,
    match o with
    | Loaded base64 =>
        update_manager (b_manager x) (fun r =>
          {| audioCache := audioCache r ++ [Some base64];
             isReady := isReady r |})
    | ReadError =>
        update_manager (b_manager x) (fun r =>
          {| audioCache := audioCache r ++ [None]; isReady := isReady r |})
    | Failed =>
        console_log ("Failed to load audio: "
                     ++ default "" (audioList cfg !! i))
    end w = (wA, Ok tt) /\
    w_batches wA = w_batches w /\
    w_game wA = w_game w /\
    w_storage wA = w_storage w /\
    w_storage_log wA = w_storage_log w /\
    w_net wA = w_net w /\
    w_progress wA = w_progress w /\
    w_console wA = w_console w ++ failure_logs cfg [(i, o)] /\
    w_managers wA
    = <[ b_manager x :=
           {| audioCache := audioCache r ++ loaded_payloads [(i, o)];
              isReady := isReady r |} ]> (w_managers w).
Proof.
  intros Hm. destruct o as [base64| |].
  - eexists. rewrite (update_manager_run _ _ _ r Hm).
    split; [reflexivity|]. cbn. rewrite app_nil_r. repeat split; reflexivity.
  - eexists. rewrite (update_manager_run _ _ _ r Hm).
    split; [reflexivity|]. cbn. rewrite app_nil_r. repeat split; reflexivity.
  - eexists. unfold console_log, modify. split; [reflexivity|].
    cbn [w_batches w_game w_storage w_storage_log w_net w_progress w_console
         w_managers set_console failure_logs loaded_payloads].
    rewrite app_nil_r. repeat split; try reflexivity.
    symmetry. rewrite list_insert_id; [reflexivity|].
    rewrite Hm. destruct r; reflexivity.
Qed.

(** The [await] of [loadAll], revisited while no task has rejected. *)
Lemma join_run (b : nat) (w : world) (y : batch) (r : resource_manager) :
  w_batches w !! b = Some y ->
  w_managers w !! b_manager y = Some r ->
  b_promise y = Pending ->
  Forall (fun s => s <> Rejected) (b_tasks y) ->
  let done := forallb (fun t => match t with Fulfilled => true | _ => false end)
                      (b_tasks y) in
  exists w' : world,
    join b w = (w', Ok done) /\
    w_batches w'
    = <[ b := {| b_manager := b_manager y; b_loadedCount := b_loadedCount y;
                 b_total := b_total y; b_tasks := b_tasks y;
                 b_onProgress := b_onProgress y;
                 b_promise := if done then Fulfilled else Pending;
                 b_then_ready := b_then_ready y |} ]> (w_batches w) /\
    w_managers w'
    = <[ b_manager y := {| audioCache := audioCache r;
                           isReady := isReady r || done |} ]> (w_managers w) /\
    w_game w' = w_game w /\
    w_storage w' = w_storage w /\
    w_storage_log w' = w_storage_log w /\
    w_net w' = w_net w /\
    w_progress w' = w_progress w /\
    w_console w' = w_console w /\
    w_nodes w' = w_nodes w.
Proof.
  intros Hy Hr Hp Hnr done. unfold join.
  rewrite (bind_ok _ _ w w (Some y)) by (unfold get; rewrite Hy; reflexivity).
  cbv beta iota. rewrite Hp. rewrite (no_rejected_existsb _ Hnr). fold done.
  destruct done eqn:Ed.
  - erewrite bind_ok by apply (update_manager_run _ _ _ r Hr).
    cbv beta.
    erewrite bind_ok
      by (apply (update_batch_run _ _ _ y); cbn [w_batches set_managers];
          exact Hy).
    cbv beta. eexists. split; [reflexivity|].
    cbn. rewrite orb_true_r. repeat split; reflexivity.
  - exists w. split; [reflexivity|].
    rewrite orb_false_r.
    rewrite list_insert_id
      by (rewrite Hy; destruct y; cbn in Hp; subst; reflexivity).
    rewrite list_insert_id by (rewrite Hr; destruct r; reflexivity).
    repeat split; reflexivity.
Qed.

(** One task settles, the callback returning normally. *)
Lemma settle_normal (cfg : config) (b i : nat) (o : outcome) (w : world)
    (x : batch) (r : resource_manager) :
  w_batches w !! b = Some x ->
  w_managers w !! b_manager x = Some r ->
  b_tasks x !! i = Some Pending ->
  b_promise x = Pending ->
  Forall (fun s => s <> Rejected) (b_tasks x) ->
  returns_normally (b_onProgress x) w ->
  let t' := <[ i := Fulfilled ]> (b_tasks x) in
  let done := forallb (fun t => match t with Fulfilled => true | _ => false end)
                      t' in
  exists w' : world,
    settle cfg b i o w = (w', Ok done) /\
    w_batches w'
    = <[ b := {| b_manager := b_manager x;
                 b_loadedCount := S (b_loadedCount x);
                 b_total := b_total x; b_tasks := t';
                 b_onProgress := b_onProgress x;
                 b_promise := if done then Fulfilled else Pending;
                 b_then_ready := b_then_ready x |} ]> (w_batches w) /\
    w_managers w'
    = <[ b_manager x :=
           {| audioCache := audioCache r ++ loaded_payloads [(i, o)];
              isReady := isReady r || done |} ]> (w_managers w) /\
    w_game w' = w_game w /\
    w_storage w' = w_storage w /\
    w_storage_log w' = w_storage_log w /\
    w_net w' = w_net w /\
    w_progress w'
    = w_progress w ++ match b_onProgress x with
                      | Some _ => [(b, S (b_loadedCount x), b_total x)]
                      | None => []
                      end /\
    w_console w' = w_console w ++ failure_logs cfg [(i, o)].
Proof.
  intros Hx Hr Hi Hp Hnr Hn t' done.
  assert (Hbl : (b < length (w_batches w))%nat)
    by (apply lookup_lt_is_Some; eauto).
  assert (Hml : (b_manager x < length (w_managers w))%nat)
    by (apply lookup_lt_is_Some; eauto).
  unfold settle.
  rewrite (bind_ok _ _ w w (Some x)) by (unfold get; rewrite Hx; reflexivity).
  cbv beta iota. rewrite Hi.
  destruct (settle_try_run cfg x i o w r Hr)
    as (wA & EA & BA & GA & SA & LA & NA & PA & CA & MA).
  erewrite bind_ok by exact EA. cbv beta zeta.
  destruct (report_normal (b_onProgress x) b (S (b_loadedCount x))
              (b_total x) wA)
    as (w1 & E1 & B1 & M1 & G1 & C1 & S1 & L1 & N1 & P1).
  { destruct (b_onProgress x) as [[|?]|]; cbn [returns_normally] in *;
      [rewrite GA|..]; assumption. }
  erewrite bind_ok by exact E1. cbv beta.
  erewrite bind_ok
    by (apply (update_batch_run _ _ _ x); rewrite B1, BA; exact Hx).
  cbv beta.
  match goal with
  | |- context [join b ?w3] =>
      destruct (join_run b w3
                  {| b_manager := b_manager x;
                     b_loadedCount := S (b_loadedCount x);
                     b_total := b_total x; b_tasks := t';
                     b_onProgress := b_onProgress x;
                     b_promise := b_promise x;
                     b_then_ready := b_then_ready x |}
                  {| audioCache := audioCache r ++ loaded_payloads [(i, o)];
                     isReady := isReady r |})
        as (w' & EJ & BJ & MJ & GJ & SJ & LJ & NJ & PJ & CJ & _)
  end.
  - cbn [w_batches set_batches]. rewrite B1, BA.
    apply list_lookup_insert_eq. exact Hbl.
  - cbn [w_managers set_batches b_manager]. rewrite M1, MA.
    apply list_lookup_insert_eq. exact Hml.
  - exact Hp.
  - cbn [b_tasks]. apply no_rejected_insert. exact Hnr.
  - cbn [b_tasks b_manager b_loadedCount b_total b_onProgress b_then_ready
         audioCache isReady] in EJ, BJ, MJ. fold done in EJ, BJ, MJ.
    exists w'. split; [exact EJ|].
    cbn [w_batches w_managers w_game w_storage w_storage_log w_net w_progress
         w_console set_batches] in BJ, MJ, GJ, SJ, LJ, NJ, PJ, CJ.
    rewrite BJ, MJ, GJ, SJ, LJ, NJ, PJ, CJ.
    rewrite B1, BA, M1, MA, G1, GA, S1, SA, L1, LA, N1, NA, P1, PA, C1, CA.
    rewrite !list_insert_insert_eq.
    repeat split; reflexivity.
Qed.

Lemma returns_normally_game (cb : option callback) (w w' : world) :
  w_game w' = w_game w -> returns_normally cb w -> returns_normally cb w'.
Proof.
  intros G. destruct cb as [[|?]|]; cbn [returns_normally]; [rewrite G|..];
    auto.
Qed.

Lemma all_fulfilled_no_pending (t : list task_state) (i : nat) :
  forallb (fun s => match s with Fulfilled => true | _ => false end) t = true ->
  t !! i <> Some Pending.
Proof.
  intros H E. rewrite forallb_forall in H.
  apply list_elem_of_lookup_2, list_elem_of_In in E.
  specialize (H _ E). discriminate.
Qed.

(** A run of a batch, task by task. *)
Lemma settle_all_normal (cfg : config) (b : nat)
    (sched : list (nat * outcome)) :
  forall (w : world) (x : batch) (r : resource_manager),
    w_batches w !! b = Some x ->
    w_managers w !! b_manager x = Some r ->
    b_promise x = Pending ->
    Forall (fun s => s <> Rejected) (b_tasks x) ->
    forallb (fun s => match s with Fulfilled => true | _ => false end)
            (b_tasks x) = false ->
    returns_normally (b_onProgress x) w ->
    NoDup (List.map fst sched) ->
    Forall (fun i => b_tasks x !! i = Some Pending) (List.map fst sched) ->
    let w' := settle_all cfg b sched w in
    let t' := mark_done sched (b_tasks x) in
    let done := forallb (fun s => match s with Fulfilled => true
                                          | _ => false end) t' in
    w_batches w' !! b
    = Some {| b_manager := b_manager x;
              b_loadedCount := b_loadedCount x + length sched;
              b_total := b_total x; b_tasks := t';
              b_onProgress := b_onProgress x;
              b_promise := if done then Fulfilled else Pending;
              b_then_ready := b_then_ready x |} /\
    w_managers w' !! b_manager x
    = Some {| audioCache := audioCache r ++ loaded_payloads sched;
              isReady := isReady r || done |} /\
    w_game w' = w_game w /\
    w_storage w' = w_storage w /\
    w_storage_log w' = w_storage_log w /\
    w_net w' = w_net w /\
    w_progress w'
    = w_progress w ++ match b_onProgress x with
                      | Some _ =>
                          List.map (fun j => (b, j, b_total x))
                                   (seq (S (b_loadedCount x)) (length sched))
                      | None => []
                      end /\
    w_console w' = w_console w ++ failure_logs cfg sched.
Proof.
  induction sched as [|[i o] sched IH];
    intros w x r Hx Hr Hp Hnr Hnd Hn Hdup Hpend.
  - cbn [settle_all mark_done length loaded_payloads failure_logs seq
         List.map]. cbv zeta.
    rewrite Hnd, Nat.add_0_r, orb_false_r, !app_nil_r.
    split; [rewrite Hx; destruct x; cbn in Hp; subst; reflexivity|].
    split; [rewrite Hr; destruct r; reflexivity|].
    destruct (b_onProgress x); rewrite ?app_nil_r; repeat split; reflexivity.
  - cbn [List.map fst] in Hdup, Hpend.
    apply NoDup_cons in Hdup as [Hni Hdup].
    apply Forall_cons in Hpend as [Hi Hpend].
    destruct (settle_normal cfg b i o w x r Hx Hr Hi Hp Hnr Hn)
      as (w1 & E1 & B1 & M1 & G1 & S1 & L1 & N1 & P1 & C1).
    assert (Hbl : (b < length (w_batches w))%nat)
      by (apply lookup_lt_is_Some; eauto).
    assert (Hml : (b_manager x < length (w_managers w))%nat)
      by (apply lookup_lt_is_Some; eauto).
    cbn [settle_all mark_done]. unfold exec. rewrite E1. cbn [fst].
    set (t1 := <[ i := Fulfilled ]> (b_tasks x)) in *.
    destruct (forallb (fun t => match t with Fulfilled => true | _ => false end)
                      t1) eqn:Ed.
    + (* the batch resolved: no task is left to settle *)
      destruct sched as [|[j o'] sched].
      * cbn [settle_all mark_done length loaded_payloads failure_logs seq
             List.map]. cbv zeta. rewrite Ed.
        rewrite B1, M1, G1, S1, L1, N1, P1, C1.
        rewrite !list_lookup_insert_eq by assumption.
        rewrite Nat.add_1_r.
        repeat split; reflexivity.
      * exfalso. cbn [List.map fst] in Hpend, Hdup, Hni.
        apply Forall_cons in Hpend as [Hj _].
        apply (all_fulfilled_no_pending t1 j Ed).
        unfold t1. rewrite list_lookup_insert_ne; [exact Hj|].
        intros ->. apply Hni. left.
    + specialize (IH w1
                    {| b_manager := b_manager x;
                       b_loadedCount := S (b_loadedCount x);
                       b_total := b_total x; b_tasks := t1;
                       b_onProgress := b_onProgress x;
                       b_promise := Pending;
                       b_then_ready := b_then_ready x |}
                    {| audioCache := audioCache r ++ loaded_payloads [(i, o)];
                       isReady := isReady r || false |}).
      cbn [b_manager b_loadedCount b_total b_tasks b_onProgress b_promise
           b_then_ready audioCache isReady] in IH.
      destruct IH as (B & M & G & St & L & N & P & C).
      * rewrite B1. apply list_lookup_insert_eq. exact Hbl.
      * rewrite M1. apply list_lookup_insert_eq. exact Hml.
      * reflexivity.
      * apply no_rejected_insert. exact Hnr.
      * exact Ed.
      * apply (returns_normally_game _ w); assumption.
      * exact Hdup.
      * rewrite Forall_forall in Hpend |- *. intros j Hj.
        unfold t1. rewrite list_lookup_insert_ne; [exact (Hpend j Hj)|].
        intros ->. contradiction.
      * cbv zeta. rewrite B, M, G, St, L, N, P, C.
        rewrite G1, S1, L1, N1, P1, C1.
        cbn [length loaded_payloads failure_logs].
        rewrite orb_false_r.
        replace (S (b_loadedCount x) + length sched)%nat
          with (b_loadedCount x + S (length sched))%nat by lia.
        split; [reflexivity|]. split.
        { destruct o; cbn [loaded_payloads]; rewrite <- ?app_assoc;
            rewrite ?app_nil_r; reflexivity. }
        split; [reflexivity|]. split; [reflexivity|].
        split; [reflexivity|]. split; [reflexivity|]. split.
        { destruct (b_onProgress x); rewrite <- app_assoc; reflexivity. }
        destruct o; cbn [failure_logs]; rewrite <- ?app_assoc;
          rewrite ?app_nil_r; reflexivity.
Qed.

(** *** Counting the pending tasks *)

Lemma pending_insert (t : list task_state) :
  forall i : nat,
    t !! i = Some Pending ->
    S (length (List.filter is_pending (<[ i := Fulfilled ]> t)))
    = length (List.filter is_pending t).
Proof.
  induction t as [|s t IH]; intros [|i] H; try discriminate.
  - cbn in H. injection H as ->. reflexivity.
  - cbn [lookup list_lookup] in H. specialize (IH i H).
    change (<[ S i := Fulfilled ]> (s :: t)) with (s :: <[ i := Fulfilled ]> t).
    cbn [List.filter]. destruct (is_pending s); cbn [length]; lia.
Qed.

Lemma pending_replicate (n : nat) :
  length (List.filter is_pending (replicate n Pending)) = n.
Proof. induction n as [|n IH]; cbn; [reflexivity | rewrite IH; reflexivity]. Qed.

Lemma all_fulfilled_pending (t : list task_state) :
  Forall (fun s => s <> Rejected) t ->
  forallb (fun s => match s with Fulfilled => true | _ => false end) t
  = Nat.eqb (length (List.filter is_pending t)) 0.
Proof.
  induction 1 as [|s t Hs _ IH]; [reflexivity|].
  cbn [forallb List.filter]. destruct s; cbn; [reflexivity | exact IH |].
  contradiction.
Qed.

Lemma mark_done_pending (sched : list (nat * outcome)) :
  forall t : list task_state,
    Forall (fun s => s <> Rejected) t ->
    NoDup (List.map fst sched) ->
    Forall (fun i => t !! i = Some Pending) (List.map fst sched) ->
    Forall (fun s => s <> Rejected) (mark_done sched t) /\
    (length (List.filter is_pending (mark_done sched t)) + length sched
     = length (List.filter is_pending t))%nat.
Proof.
  induction sched as [|[i o] sched IH]; intros t Hnr Hdup Hp.
  - cbn. split; [exact Hnr | lia].
  - cbn [List.map fst] in Hdup, Hp.
    apply NoDup_cons in Hdup as [Hni Hdup].
    apply Forall_cons in Hp as [Hi Hp].
    cbn [mark_done length].
    destruct (IH (<[ i := Fulfilled ]> t)) as (F & E).
    + apply no_rejected_insert. exact Hnr.
    + exact Hdup.
    + rewrite Forall_forall in Hp |- *. intros j Hj.
      rewrite list_lookup_insert_ne; [exact (Hp j Hj)|].
      intros ->. contradiction.
    + split; [exact F|]. pose proof (pending_insert t i Hi). lia.
Qed.

Lemma valid_schedule_pending (total : nat) (sched : list (nat * outcome)) :
  valid_schedule total sched ->
  Forall (fun i => replicate total Pending !! i = Some Pending)
         (List.map fst sched).
Proof.
  intros [_ H]. eapply Forall_impl; [exact H|].
  intros i Hi. cbn beta in Hi. apply lookup_replicate_2. exact Hi.
Qed.

Lemma no_rejected_replicate (n : nat) :
  Forall (fun s => s <> Rejected) (replicate n Pending).
Proof. apply Forall_replicate. discriminate. Qed.

(** All the tasks are fulfilled exactly when the schedule has settled as
    many tasks as the batch has. *)
Lemma mark_done_all (total : nat) (sched : list (nat * outcome)) :
  valid_schedule total sched ->
  (length sched <= total)%nat /\
  forallb (fun s => match s with Fulfilled => true | _ => false end)
          (mark_done sched (replicate total Pending))
  = Nat.eqb (length sched) total.
Proof.
  intros V.
  destruct (mark_done_pending sched (replicate total Pending)
              (no_rejected_replicate total) (proj1 V)
              (valid_schedule_pending total sched V)) as (F & E).
  rewrite pending_replicate in E.
  split; [lia|]. rewrite (all_fulfilled_pending _ F).
  destruct (Nat.eqb_spec (length sched) total);
    destruct (Nat.eqb_spec
                (length (List.filter is_pending
                           (mark_done sched (replicate total Pending)))) 0);
    try reflexivity; lia.
Qed.

(** A whole batch: [loadAll] up to its [await], the microtask that
    revisits the [await], then the tasks settling in any valid order. *)
Lemma batch_run (cfg : config) (w0 : world) (m : nat) (r : resource_manager)
    (cb : option callback) (sched : list (nat * outcome)) :
  w_managers w0 !! m = Some r ->
  returns_normally cb w0 ->
  valid_schedule (length (audioList cfg)) sched ->
  let total := length (audioList cfg) in
  let b := length (w_batches w0) in
  let w' := settle_all cfg b sched (exec (bind (loadAll cfg m cb) join) w0) in
  let done := Nat.eqb (length sched) total in
  (exists x, w_batches w' !! b = Some x /\
             b_promise x = (if done then Fulfilled else Pending) /\
             b_loadedCount x = length sched /\ b_total x = total) /\
  w_managers w' !! m
  = Some {| audioCache := audioCache r ++ loaded_payloads sched;
            isReady := isReady r || done |} /\
  w_game w' = w_game w0 /\
  w_storage w' = w_storage w0 /\
  w_storage_log w' = w_storage_log w0 /\
  w_net w' = w_net w0 ++ List.map Fetch (audioList cfg)
                      ++ List.map ImageLoad (preloadImages cfg) /\
  w_progress w'
  = w_progress w0 ++ match cb with
                     | Some _ => progress_calls b (length sched) total
                     | None => []
                     end /\
  w_console w' = w_console w0 ++ failure_logs cfg sched.
Proof.
  intros Hr Hn V total b w' done.
  destruct (mark_done_all total sched V) as (Hle & Hall).
  set (y := {| b_manager := m; b_loadedCount := 0; b_total := total;
               b_tasks := replicate total Pending; b_onProgress := cb;
               b_promise := Pending; b_then_ready := false |}).
  set (wl := exec (loadAll cfg m cb) w0).
  assert (El : loadAll cfg m cb w0 = (wl, Ok b)).
  { unfold wl, exec. rewrite loadAll_run. reflexivity. }
  assert (Bl : w_batches wl = w_batches w0 ++ [y]).
  { unfold wl, exec. rewrite loadAll_run. reflexivity. }
  assert (Fl : w_managers wl = w_managers w0 /\ w_game wl = w_game w0 /\
               w_storage wl = w_storage w0 /\
               w_storage_log wl = w_storage_log w0 /\
               w_progress wl = w_progress w0 /\
               w_console wl = w_console w0 /\
               w_net wl = w_net w0 ++ List.map Fetch (audioList cfg)
                                   ++ List.map ImageLoad (preloadImages cfg)).
  { unfold wl, exec. rewrite loadAll_run. cbn. repeat split; reflexivity. }
  destruct Fl as (Ml & Gl & Sl & Ll & Pl & Cl & Nl).
  destruct (join_run b wl y r) as (w1 & EJ & BJ & MJ & GJ & SJ & LJ & NJ & PJ
                                   & CJ & _).
  { rewrite Bl. apply lookup_snoc_length. }
  { rewrite Ml. exact Hr. }
  { reflexivity. }
  { apply no_rejected_replicate. }
  unfold y in EJ, BJ, MJ.
  cbn [b_manager b_loadedCount b_total b_tasks b_onProgress b_then_ready]
    in EJ, BJ, MJ.
  assert (Ew : exec (bind (loadAll cfg m cb) join) w0 = w1).
  { unfold exec. rewrite (bind_ok _ _ _ _ _ El), EJ. reflexivity. }
  unfold w'. rewrite Ew. clear w'.
  assert (Hb1 : forall z, (w_batches w0 ++ [y]) !! b = Some y /\
                          <[ b := z ]> (w_batches w0 ++ [y]) !! b = Some z).
  { intros z. split; [apply lookup_snoc_length|].
    apply list_lookup_insert_eq. rewrite length_app. cbn. unfold b. lia. }
  assert (Hml : (m < length (w_managers w0))%nat)
    by (apply lookup_lt_is_Some; eauto).
  destruct (forallb (fun t => match t with Fulfilled => true | _ => false end)
                    (replicate total Pending)) eqn:E0.
  - (* no audio at all: the batch resolves at once *)
    assert (Ht : total = 0%nat).
    { destruct total; [reflexivity | discriminate]. }
    assert (Hs : sched = []) by (destruct sched; [reflexivity | cbn in Hle; lia]).
    subst sched. cbn [settle_all].
    unfold done. cbn [length]. rewrite Ht. cbn [Nat.eqb].
    rewrite BJ, MJ, GJ, SJ, LJ, NJ, PJ, CJ, Bl, Ml, Gl, Sl, Ll, Nl, Pl, Cl.
    rewrite (proj2 (Hb1 _)), list_lookup_insert_eq by exact Hml.
    split; [eexists; split; [reflexivity|]; cbn; rewrite Ht; auto|].
    cbn [loaded_payloads failure_logs progress_calls seq List.map].
    rewrite !app_nil_r.
    destruct cb; rewrite ?app_nil_r; repeat split; reflexivity.
  - pose proof (settle_all_normal cfg b sched w1 y
                  {| audioCache := audioCache r; isReady := isReady r || false |})
      as H.
    unfold y in H.
    cbn [b_manager b_loadedCount b_total b_tasks b_onProgress b_promise
         b_then_ready audioCache isReady] in H.
    destruct H as (B & M & G & St & L & N & P & C).
    + rewrite BJ, Bl. rewrite (proj2 (Hb1 _)). reflexivity.
    + rewrite MJ, Ml. rewrite list_lookup_insert_eq by exact Hml. reflexivity.
    + reflexivity.
    + apply no_rejected_replicate.
    + exact E0.
    + apply (returns_normally_game _ w0); [rewrite GJ, Gl; reflexivity|].
      exact Hn.
    + exact (proj1 V).
    + apply valid_schedule_pending. exact V.
    + rewrite Hall in B, M. fold done in B, M.
      rewrite B, M, G, St, L, N, P, C.
      rewrite GJ, SJ, LJ, NJ, PJ, CJ, Gl, Sl, Ll, Nl, Pl, Cl.
      rewrite orb_false_r.
      split; [eexists; split; [reflexivity|]; cbn; auto|].
      repeat split; reflexivity.
Qed.

Lemma loaded_or_failed (cfg : config) (sched : list (nat * outcome)) :
  (length (loaded_payloads sched) + length (failure_logs cfg sched)
   = length sched)%nat.
Proof.
  induction sched as [|[i [s| |]] sched IH]; cbn; lia.
Qed.

(** X5.  One batch of [loadAll], with a callback that returns normally, its
    tasks settling in any order and with any outcomes.  After [k] tasks
    have settled, [onProgress] has been called exactly [k] times, with
    [(1, total)], [(2, total)], ..., [(k, total)] in this order; the
    promise of the batch is resolved if and only if [k = total], that is,
    when every audio task has settled; the images count for nothing in
    this ([total] is the number of audio locators), although they were
    requested; and the controller and the storage are untouched. *)
Theorem loadAll_progress_and_resolution
    (cfg : config) (w0 : world) (m : nat) (r : resource_manager)
    (cb : callback) (sched : list (nat * outcome)) :
  w_managers w0 !! m = Some r ->
  returns_normally (Some cb) w0 ->
  valid_schedule (length (audioList cfg)) sched ->
  let total := length (audioList cfg) in
  let b := length (w_batches w0) in
  let w' := settle_all cfg b sched
              (exec (bind (loadAll cfg m (Some cb)) join) w0) in
  (length sched <= total)%nat /\
  (exists x, w_batches w' !! b = Some x /\
             b_total x = total /\
             b_loadedCount x = length sched /\
             (b_promise x = Fulfilled <-> length sched = total) /\
             (b_promise x = Pending <-> length sched <> total)) /\
  w_progress w' = w_progress w0 ++ progress_calls b (length sched) total /\
  length (progress_calls b (length sched) total) = length sched /\
  w_net w' = w_net w0 ++ List.map Fetch (audioList cfg)
                      ++ List.map ImageLoad (preloadImages cfg) /\
  w_game w' = w_game w0 /\
  w_storage w' = w_storage w0 /\
  w_storage_log w' = w_storage_log w0.
Proof.
  intros Hr Hn V total b w'.
  destruct (batch_run cfg w0 m r (Some cb) sched Hr Hn V)
    as ((x & B & Pr & Lc & Tt) & _ & G & S & L & N & P & _).
  fold total b w' in B, G, S, L, N, P, Pr, Tt.
  split; [exact (proj1 (mark_done_all total sched V))|].
  split.
  { exists x. split; [exact B|]. split; [exact Tt|]. split; [exact Lc|].
    rewrite Pr. destruct (Nat.eqb_spec (length sched) total);
      split; split; intros; try congruence; try discriminate; auto. }
  split; [exact P|]. split.
  { unfold progress_calls. rewrite length_map, length_seq. reflexivity. }
  auto.
Qed.

Lemma loadAll_progress_and_resolution_witness :
  let cfg := GAME_CONFIG in
  let w0 := loading_world ∅ (fun _ => 1 # 2) in
  let sched := [ (1%nat, Failed); (0%nat, Loaded "data:audio/mpeg;base64,AAAA") ] in
  let total := length (audioList cfg) in
  let b := length (w_batches w0) in
  let w' := settle_all cfg b sched
              (exec (bind (loadAll cfg 0 (Some InitProgress)) join) w0) in
  (length sched <= total)%nat /\
  (exists x, w_batches w' !! b = Some x /\
             b_total x = total /\
             b_loadedCount x = length sched /\
             (b_promise x = Fulfilled <-> length sched = total) /\
             (b_promise x = Pending <-> length sched <> total)) /\
  w_progress w' = w_progress w0 ++ progress_calls b (length sched) total /\
  length (progress_calls b (length sched) total) = length sched /\
  w_net w' = w_net w0 ++ List.map Fetch (audioList cfg)
                      ++ List.map ImageLoad (preloadImages cfg) /\
  w_game w' = w_game w0 /\
  w_storage w' = w_storage w0 /\
  w_storage_log w' = w_storage_log w0.
Proof.
  intros cfg w0 sched.
  apply (loadAll_progress_and_resolution cfg w0 0
           {| audioCache := []; isReady := false |} InitProgress sched).
  - vm_compute. reflexivity.
  - vm_compute. discriminate.
  - split; [apply (bool_decide_unpack _); vm_compute; exact I|].
    apply (bool_decide_unpack _); vm_compute; exact I.
Defined.

Lemma schedule_entries (cfg : config) (sched : list (nat * outcome)) :
  (forall i s, (i, Loaded s) ∈ sched -> Some s ∈ loaded_payloads sched) /\
  (forall i, (i, ReadError) ∈ sched -> None ∈ loaded_payloads sched) /\
  (forall i, (i, Failed) ∈ sched ->
             ("Failed to load audio: " ++ default "" (audioList cfg !! i))%string
               ∈ failure_logs cfg sched) /\
  length (failure_logs cfg sched)
  = length (List.filter (fun '(_, o) => match o with Failed => true | _ => false end)
              sched).
Proof.
  induction sched as [|[j o] sched (IH1 & IH2 & IH3 & IH4)].
  - repeat split; intros *; rewrite list_elem_of_In; intros [].
  - repeat split; intros *; try rewrite !list_elem_of_In; try intros [E|H];
      try (injection E as -> ->; cbn; left; reflexivity).
    + apply list_elem_of_In in H. apply IH1, list_elem_of_In in H.
      destruct o; cbn; auto.
    + apply list_elem_of_In in H. apply IH2, list_elem_of_In in H.
      destruct o; cbn; auto.
    + apply list_elem_of_In in H. apply IH3, list_elem_of_In in H.
      destruct o; cbn; auto.
    + destruct o; cbn; rewrite IH4; reflexivity.
Qed.

(** X6.  Failures do not stop a batch whose callback, if it has one,
    returns normally.  Whatever the outcomes, once every task has settled
    the promise is resolved and [isReady] is true; until then [isReady] is
    what it was.  The cache has gained one entry per task whose awaited
    promises all resolved, in completion order (so at most [total]
    entries): the payload, or [null] when the reader ended on a failed
    read, which is cached like a payload and logged nowhere.  The console
    has gained one line per task whose [fetch] or [blob()] rejected, naming
    its locator. *)
Theorem loadAll_tolerates_failures
    (cfg : config) (w0 : world) (m : nat) (r : resource_manager)
    (cb : option callback) (sched : list (nat * outcome)) :
  w_managers w0 !! m = Some r ->
  returns_normally cb w0 ->
  valid_schedule (length (audioList cfg)) sched ->
  let total := length (audioList cfg) in
  let b := length (w_batches w0) in
  let w' := settle_all cfg b sched (exec (bind (loadAll cfg m cb) join) w0) in
  (exists r', w_managers w' !! m = Some r' /\
              audioCache r' = audioCache r ++ loaded_payloads sched /\
              (forall i s, (i, Loaded s) ∈ sched -> Some s ∈ audioCache r') /\
              (forall i, (i, ReadError) ∈ sched -> None ∈ audioCache r') /\
              (length sched = total -> isReady r' = true) /\
              (length sched <> total -> isReady r' = isReady r)) /\
  (exists x, w_batches w' !! b = Some x /\
             (length sched = total -> b_promise x = Fulfilled)) /\
  w_console w' = w_console w0 ++ failure_logs cfg sched /\
  (forall i, (i, Failed) ∈ sched ->
             ("Failed to load audio: " ++ default "" (audioList cfg !! i))%string
               ∈ w_console w') /\
  length (failure_logs cfg sched)
  = length (List.filter (fun '(_, o) => match o with Failed => true | _ => false end)
              sched) /\
  (length (loaded_payloads sched) + length (failure_logs cfg sched)
   = length sched)%nat /\
  (length (loaded_payloads sched) <= total)%nat.
Proof.
  intros Hr Hn V total b w'.
  destruct (batch_run cfg w0 m r cb sched Hr Hn V)
    as ((x & B & Pr & _ & _) & M & _ & _ & _ & _ & _ & C).
  fold total b w' in B, Pr, M, C.
  pose proof (loaded_or_failed cfg sched) as Hlf.
  pose proof (proj1 (mark_done_all total sched V)) as Hle.
  destruct (schedule_entries cfg sched) as (E1 & E2 & E3 & E4).
  split.
  { eexists. split; [exact M|]. cbn [audioCache isReady].
    split; [reflexivity|].
    split; [intros i s H; apply list_elem_of_In, in_or_app; right;
            apply list_elem_of_In; eapply E1; exact H|].
    split; [intros i H; apply list_elem_of_In, in_or_app; right;
            apply list_elem_of_In; eapply E2; exact H|].
    split; intros H.
    - rewrite (proj2 (Nat.eqb_eq _ _) H). apply orb_true_r.
    - rewrite (proj2 (Nat.eqb_neq _ _) H). apply orb_false_r. }
  split.
  { exists x. split; [exact B|]. intros H. rewrite Pr.
    rewrite (proj2 (Nat.eqb_eq _ _) H). reflexivity. }
  split; [exact C|].
  split; [intros i H; rewrite C; apply list_elem_of_In, in_or_app; right;
          apply list_elem_of_In, E3; exact H|].
  split; [exact E4|]. split; [exact Hlf | lia].
Qed.

Lemma loadAll_tolerates_failures_witness :
  let cfg := GAME_CONFIG in
  let w0 := loading_world ∅ (fun _ => 1 # 2) in
  let m := 0%nat in
  let r := {| audioCache := []; isReady := false |} in
  let sched := [ (1%nat, Failed); (0%nat, ReadError) ] in
  let total := length (audioList cfg) in
  let b := length (w_batches w0) in
  let w' := settle_all cfg b sched
              (exec (bind (loadAll cfg 0 (Some InitProgress)) join) w0) in
  (exists r', w_managers w' !! m = Some r' /\
              audioCache r' = audioCache r ++ loaded_payloads sched /\
              (forall i s, (i, Loaded s) ∈ sched -> Some s ∈ audioCache r') /\
              (forall i, (i, ReadError) ∈ sched -> None ∈ audioCache r') /\
              (length sched = total -> isReady r' = true) /\
              (length sched <> total -> isReady r' = isReady r)) /\
  (exists x, w_batches w' !! b = Some x /\
             (length sched = total -> b_promise x = Fulfilled)) /\
  w_console w' = w_console w0 ++ failure_logs cfg sched /\
  (forall i, (i, Failed) ∈ sched ->
             ("Failed to load audio: " ++ default "" (audioList cfg !! i))%string
               ∈ w_console w') /\
  length (failure_logs cfg sched)
  = length (List.filter (fun '(_, o) => match o with Failed => true | _ => false end)
              sched) /\
  (length (loaded_payloads sched) + length (failure_logs cfg sched)
   = length sched)%nat /\
  (length (loaded_payloads sched) <= total)%nat.
Proof.
  intros cfg w0 m r sched.
  apply (loadAll_tolerates_failures cfg w0 m r (Some InitProgress) sched).
  - vm_compute. reflexivity.
  - vm_compute. discriminate.
  - split; [apply (bool_decide_unpack _); vm_compute; exact I|].
    apply (bool_decide_unpack _); vm_compute; exact I.
Defined.

(** *** When the callback throws *)

(** Whatever the callback does, it leaves the batches and the managers
    alone. *)
Lemma report_any (cb : option callback) (b lc total : nat) (w : world) :
  exists (w1 : world) (res : result unit),
    catch
      match cb with
      | Some c =>
          bind (modify (fun w =>
                  set_progress (w_progress w ++ [(b, lc, total)]) w))
               (fun _ => call c lc total)
      | None => ret tt
      end w = (w1, Ok res) /\
    w_batches w1 = w_batches w /\
    w_managers w1 = w_managers w /\
    w_game w1 = w_game w /\
    w_progress w1
    = w_progress w ++ match cb with
                      | Some _ => [(b, lc, total)]
                      | None => []
                      end /\
    (throws_at cb lc total w -> res = Throw).
Proof.
  destruct cb as [[|throws]|].
  - unfold catch, bind, modify, call, init_onProgress, bind, get.
    cbn [w_game set_progress].
    destruct (btn (elems (w_game w))) as [n|] eqn:Eb; cbn [deref ret throw].
    + unfold update_node, modify. eexists. eexists.
      split; [reflexivity|]. cbn. rewrite Eb.
      repeat split; try reflexivity. discriminate.
    + eexists. eexists. split; [reflexivity|]. cbn.
      repeat split; reflexivity.
  - unfold catch, bind, modify, call.
    destruct (throws lc total) eqn:Et; eexists; eexists;
      (split; [reflexivity|]); cbn; rewrite ?Et;
      repeat split; try reflexivity; discriminate.
  - exists w, (Ok tt). cbn. rewrite app_nil_r.
    repeat split; try reflexivity. contradiction.
Qed.

(** A task settles while its callback throws: the task rejects, and with it
    the promise of the batch. *)
Lemma settle_throwing (cfg : config) (b i : nat) (o : outcome) (w : world)
    (x : batch) (r : resource_manager) :
  w_batches w !! b = Some x ->
  w_managers w !! b_manager x = Some r ->
  b_tasks x !! i = Some Pending ->
  b_promise x = Pending ->
  throws_at (b_onProgress x) (S (b_loadedCount x)) (b_total x) w ->
  exists w' : world,
    settle cfg b i o w = (w', Ok false) /\
    w_batches w' !! b
    = Some {| b_manager := b_manager x;
              b_loadedCount := S (b_loadedCount x);
              b_total := b_total x;
              b_tasks := <[ i := Rejected ]> (b_tasks x);
              b_onProgress := b_onProgress x;
              b_promise := Rejected;
              b_then_ready := b_then_ready x |} /\
    w_managers w' !! b_manager x
    = Some {| audioCache := audioCache r ++ loaded_payloads [(i, o)];
              isReady := isReady r |} /\
    w_game w' = w_game w /\
    w_progress w'
    = w_progress w ++ [(b, S (b_loadedCount x), b_total x)].
Proof.
  intros Hx Hr Hi Hp Ht.
  assert (Hbl : (b < length (w_batches w))%nat)
    by (apply lookup_lt_is_Some; eauto).
  assert (Hml : (b_manager x < length (w_managers w))%nat)
    by (apply lookup_lt_is_Some; eauto).
  assert (Hil : (i < length (b_tasks x))%nat)
    by (apply lookup_lt_is_Some; eauto).
  unfold settle.
  rewrite (bind_ok _ _ w w (Some x)) by (unfold get; rewrite Hx; reflexivity).
  cbv beta iota. rewrite Hi.
  destruct (settle_try_run cfg x i o w r Hr)
    as (wA & EA & BA & GA & _ & _ & _ & PA & _ & MA).
  erewrite bind_ok by exact EA. cbv beta zeta.
  destruct (report_any (b_onProgress x) b (S (b_loadedCount x)) (b_total x) wA)
    as (w1 & res & E1 & B1 & M1 & G1 & P1 & T1).
  assert (res = Throw) as ->.
  { apply T1. destruct (b_onProgress x) as [[|?]|]; cbn [throws_at] in *;
      [rewrite GA|..]; assumption. }
  erewrite bind_ok by exact E1. cbv beta iota.
  set (x1 := {| b_manager := b_manager x;
                b_loadedCount := S (b_loadedCount x);
                b_total := b_total x;
                b_tasks := <[ i := Rejected ]> (b_tasks x);
                b_onProgress := b_onProgress x;
                b_promise := b_promise x;
                b_then_ready := b_then_ready x |}).
  set (w3 := set_batches (<[ b := x1 ]> (w_batches w1)) w1).
  assert (E3 : forall f,
             f x = x1 -> update_batch b f w1 = (w3, Ok tt)).
  { intros f Hf. rewrite (update_batch_run b f w1 x) by (rewrite B1, BA; exact Hx).
    rewrite Hf. reflexivity. }
  erewrite bind_ok by (apply E3; reflexivity). cbv beta.
  assert (B3 : w_batches w3 !! b = Some x1).
  { unfold w3. cbn [w_batches set_batches]. rewrite B1, BA.
    apply list_lookup_insert_eq. exact Hbl. }
  unfold join.
  rewrite (bind_ok _ _ w3 w3 (Some x1))
    by (unfold get; rewrite B3; reflexivity).
  cbv beta iota.
  assert (Ex : existsb
                 (fun t => match t with Rejected => true | _ => false end)
                 (b_tasks x1) = true).
  { apply existsb_exists. exists Rejected. split; [|reflexivity].
    apply list_elem_of_In, list_elem_of_lookup. exists i.
    unfold x1. cbn [b_tasks]. apply list_lookup_insert_eq. exact Hil. }
  replace (b_promise x1) with Pending by (symmetry; exact Hp).
  rewrite Ex.
  erewrite bind_ok by (apply (update_batch_run _ _ _ x1); exact B3).
  cbv beta. eexists. split; [reflexivity|].
  unfold w3.
  cbn [w_batches w_managers w_game w_progress set_batches].
  rewrite B1, BA, M1, MA, G1, GA, P1, PA.
  rewrite list_insert_insert_eq.
  rewrite !list_lookup_insert_eq by assumption.
  destruct (b_onProgress x) as [c|] eqn:Ecb; [|contradiction].
  unfold x1. cbn [b_manager b_loadedCount b_total b_tasks b_onProgress
                  b_then_ready].
  rewrite ?Ecb. repeat split; reflexivity.
Qed.

(** Once the promise of a batch is settled, a task that settles later
    changes neither the promise nor [isReady]. *)
Lemma settle_after_settled (cfg : config) (b i : nat) (o : outcome) (w : world)
    (x : batch) (r : resource_manager) :
  w_batches w !! b = Some x ->
  w_managers w !! b_manager x = Some r ->
  b_promise x <> Pending ->
  exists (w' : world) (x' : batch) (r' : resource_manager),
    settle cfg b i o w = (w', Ok false) /\
    w_batches w' !! b = Some x' /\
    b_promise x' = b_promise x /\
    b_manager x' = b_manager x /\
    w_managers w' !! b_manager x = Some r' /\
    isReady r' = isReady r.
Proof.
  intros Hx Hr Hp.
  assert (Hbl : (b < length (w_batches w))%nat)
    by (apply lookup_lt_is_Some; eauto).
  assert (Hml : (b_manager x < length (w_managers w))%nat)
    by (apply lookup_lt_is_Some; eauto).
  unfold settle.
  rewrite (bind_ok _ _ w w (Some x)) by (unfold get; rewrite Hx; reflexivity).
  cbv beta iota.
  destruct (b_tasks x !! i) as [[| |]|] eqn:Hi;
    try (exists w, x, r; repeat split; assumption || reflexivity).
  destruct (settle_try_run cfg x i o w r Hr)
    as (wA & EA & BA & GA & _ & _ & _ & PA & _ & MA).
  erewrite bind_ok by exact EA. cbv beta zeta.
  destruct (report_any (b_onProgress x) b (S (b_loadedCount x)) (b_total x) wA)
    as (w1 & res & E1 & B1 & M1 & G1 & P1 & _).
  erewrite bind_ok by exact E1. cbv beta.
  set (x1 := {| b_manager := b_manager x;
                b_loadedCount := S (b_loadedCount x);
                b_total := b_total x;
                b_tasks := <[ i := match res with
                                   | Ok _ => Fulfilled
                                   | Throw => Rejected
                                   end ]> (b_tasks x);
                b_onProgress := b_onProgress x;
                b_promise := b_promise x;
                b_then_ready := b_then_ready x |}).
  set (w3 := set_batches (<[ b := x1 ]> (w_batches w1)) w1).
  assert (E3 : forall f, f x = x1 -> update_batch b f w1 = (w3, Ok tt)).
  { intros f Hf.
    rewrite (update_batch_run b f w1 x) by (rewrite B1, BA; exact Hx).
    rewrite Hf. reflexivity. }
  erewrite bind_ok by (apply E3; reflexivity). cbv beta.
  assert (B3 : w_batches w3 !! b = Some x1).
  { unfold w3. cbn [w_batches set_batches]. rewrite B1, BA.
    apply list_lookup_insert_eq. exact Hbl. }
  unfold join.
  rewrite (bind_ok _ _ w3 w3 (Some x1))
    by (unfold get; rewrite B3; reflexivity).
  cbv beta iota.
  change (b_promise x1) with (b_promise x).
  exists w3, x1. eexists.
  split; [destruct (b_promise x); [contradiction | reflexivity..]|].
  split; [exact B3|]. split; [reflexivity|]. split; [reflexivity|].
  unfold w3. cbn [w_managers set_batches]. rewrite M1, MA.
  split; [apply list_lookup_insert_eq; exact Hml | reflexivity].
Qed.

Lemma settle_all_after_settled (cfg : config) (b : nat)
    (sched : list (nat * outcome)) :
  forall (w : world) (x : batch) (r : resource_manager),
    w_batches w !! b = Some x ->
    w_managers w !! b_manager x = Some r ->
    b_promise x <> Pending ->
    exists (x' : batch) (r' : resource_manager),
      w_batches (settle_all cfg b sched w) !! b = Some x' /\
      b_promise x' = b_promise x /\
      w_managers (settle_all cfg b sched w) !! b_manager x = Some r' /\
      isReady r' = isReady r.
Proof.
  induction sched as [|[i o] sched IH]; intros w x r Hx Hr Hp.
  - exists x, r. auto.
  - destruct (settle_after_settled cfg b i o w x r Hx Hr Hp)
      as (w1 & x1 & r1 & E & B & P & Mg & M & R).
    cbn [settle_all]. unfold exec. rewrite E. cbn [fst].
    destruct (IH w1 x1 r1 B) as (x' & r' & B' & P' & M' & R').
    + rewrite Mg. exact M.
    + rewrite P. exact Hp.
    + exists x', r'. rewrite Mg in M'. rewrite P', P, R', R. auto.
Qed.

(** X7.  A callback that throws rejects the batch for good.  When a task
    settles and [onProgress] throws (for the callback of [init]: when the
    button handle has become [null] in the meantime), the entry of the task
    (its payload, or [null] after a failed read) is still cached and the
    call still counted, but the task rejects and with it the
    promise of [loadAll]: [isReady] is not set, [onGameReady] does not run,
    and however the remaining tasks settle afterwards the promise stays
    rejected and [isReady] stays what it was. *)
Theorem throwing_callback_rejects_batch
    (cfg : config) (b i : nat) (o : outcome) (w : world)
    (x : batch) (r : resource_manager) :
  w_batches w !! b = Some x ->
  w_managers w !! b_manager x = Some r ->
  b_tasks x !! i = Some Pending ->
  b_promise x = Pending ->
  throws_at (b_onProgress x) (S (b_loadedCount x)) (b_total x) w ->
  let w' := exec (settle cfg b i o) w in
  snd (settle cfg b i o w) = Ok false /\
  (exists x', w_batches w' !! b = Some x' /\
              b_promise x' = Rejected /\
              b_tasks x' !! i = Some Rejected /\
              b_loadedCount x' = S (b_loadedCount x)) /\
  (exists r', w_managers w' !! b_manager x = Some r' /\
              audioCache r' = audioCache r ++ loaded_payloads [(i, o)] /\
              isReady r' = isReady r) /\
  w_progress w' = w_progress w ++ [(b, S (b_loadedCount x), b_total x)] /\
  (cfg = GAME_CONFIG -> exec (dispatch (TaskSettled b i o)) w = w') /\
  (forall sched : list (nat * outcome),
      exists x'' r'',
        w_batches (settle_all cfg b sched w') !! b = Some x'' /\
        b_promise x'' = Rejected /\
        w_managers (settle_all cfg b sched w') !! b_manager x = Some r'' /\
        isReady r'' = isReady r).
Proof.
  intros Hx Hr Hi Hp Ht w'.
  destruct (settle_throwing cfg b i o w x r Hx Hr Hi Hp Ht)
    as (w1 & E & B & M & G & P).
  assert (Ew : w' = w1) by (unfold w', exec; rewrite E; reflexivity).
  assert (Hil : (i < length (b_tasks x))%nat)
    by (apply lookup_lt_is_Some; eauto).
  rewrite Ew, E. clear w' Ew.
  split; [reflexivity|].
  split.
  { eexists. split; [exact B|]. cbn [b_promise b_tasks b_loadedCount].
    split; [reflexivity|]. split; [|reflexivity].
    apply list_lookup_insert_eq. exact Hil. }
  split; [eexists; split; [exact M|]; split; reflexivity|].
  split; [exact P|]. split.
  - intros ->. unfold exec, dispatch.
    rewrite (bind_ok _ _ _ _ _ E). unfold then_ready.
    rewrite (bind_ok _ _ w1 w1 (w_batches w1 !! b)) by reflexivity.
    rewrite B. reflexivity.
  - intros sched.
    destruct (settle_all_after_settled cfg b sched w1 _ _ B M)
      as (x'' & r'' & B' & P' & M' & R'); [discriminate|].
    exists x'', r''. auto.
Qed.

Lemma throwing_callback_rejects_batch_witness :
  let cfg := GAME_CONFIG in
  let w := stale_world ∅ (fun _ => 1 # 2) in
  let x := {| b_manager := 0; b_loadedCount := 0; b_total := 2;
              b_tasks := [ Pending; Pending ];
              b_onProgress := Some InitProgress; b_promise := Pending;
              b_then_ready := true |} in
  let r := {| audioCache := []; isReady := false |} in
  let b := 0%nat in
  let i := 1%nat in
  let o := Loaded "data:audio/mpeg;base64,BBBB" in
  let w' := exec (settle cfg b i o) w in
  snd (settle cfg b i o w) = Ok false /\
  (exists x', w_batches w' !! b = Some x' /\
              b_promise x' = Rejected /\
              b_tasks x' !! i = Some Rejected /\
              b_loadedCount x' = S (b_loadedCount x)) /\
  (exists r', w_managers w' !! b_manager x = Some r' /\
              audioCache r' = audioCache r ++ loaded_payloads [(i, o)] /\
              isReady r' = isReady r) /\
  w_progress w' = w_progress w ++ [(b, S (b_loadedCount x), b_total x)] /\
  (cfg = GAME_CONFIG -> exec (dispatch (TaskSettled b i o)) w = w') /\
  (forall sched : list (nat * outcome),
      exists x'' r'',
        w_batches (settle_all cfg b sched w') !! b = Some x'' /\
        b_promise x'' = Rejected /\
        w_managers (settle_all cfg b sched w') !! b_manager x = Some r'' /\
        isReady r'' = isReady r).
Proof.
  intros cfg w x r b i o.
  apply (throwing_callback_rejects_batch cfg b i o w x r);
    vm_compute; reflexivity.
Defined.

(** *** Extra properties: a new pass of [init] *)

Lemma playAudio_empty (w : world) (m : nat) (r : resource_manager) :
  manager (w_game w) = Some m ->
  w_managers w !! m = Some r ->
  audioCache r = [] ->
  playAudio w = (w, Ok tt).
Proof.
  intros Hg Hm Hc. unfold playAudio.
  rewrite (bind_ok _ _ w w (Some m)) by (unfold get; rewrite Hg; reflexivity).
  cbv beta.
  rewrite (bind_ok _ _ w w m) by reflexivity. cbv beta.
  rewrite (bind_ok _ _ w w None) by (apply (getRandomAudio_empty w m r Hm Hc)).
  reflexivity.
Qed.

(** X8.  Every pass of [init] on the widget's page starts from a new
    [ResourceManager]: the controller's manager is a fresh instance with an
    empty cache and [isReady] false, whatever the previous one had loaded,
    and the instances that existed are left as they were.  So right after
    [init], [getRandomAudio] returns [null] without drawing and [playAudio]
    returns without playing.  [init] itself does not bind the click
    handler: the button's [onclick] is what it was. *)
Theorem init_starts_fresh_manager (w : world) (b : nat) (x : node) :
  w_document w !! "counter-button" = Some b ->
  w_nodes w !! b = Some x ->
  let w' := exec (init GAME_CONFIG) w in
  let m := length (w_managers w) in
  manager (w_game w') = Some m /\
  w_managers w' !! m = Some {| audioCache := []; isReady := false |} /\
  (forall (k : nat) (r : resource_manager),
      w_managers w !! k = Some r -> w_managers w' !! k = Some r) /\
  getRandomAudio m w' = (w', Ok None) /\
  playAudio w' = (w', Ok tt) /\
  (exists x', w_nodes w' !! b = Some x' /\ n_onclick x' = n_onclick x).
Proof.
  intros Hb Hx w' m.
  assert (Ew : w' = fst (init GAME_CONFIG w)) by reflexivity.
  rewrite (init_present w b Hb) in Ew. cbn [fst] in Ew.
  assert (Hg : manager (w_game w') = Some m) by (rewrite Ew; reflexivity).
  assert (Hm : w_managers w' !! m
               = Some {| audioCache := []; isReady := false |}).
  { rewrite Ew. cbn [w_managers]. apply lookup_snoc_length. }
  split; [exact Hg|]. split; [exact Hm|]. split.
  { intros k r Hk. rewrite Ew. cbn [w_managers].
    apply lookup_app_l_Some. exact Hk. }
  split; [apply (getRandomAudio_empty w' m _ Hm); reflexivity|].
  split; [apply (playAudio_empty w' m _ Hg Hm); reflexivity|].
  rewrite Ew. cbn [w_nodes counter].
  destruct (w_document w !! "local-counter") as [n|]; [|eauto].
  destruct (w_nodes w !! n) as [xn|] eqn:Hn; [|eauto].
  destruct (Nat.eq_dec n b) as [->|Hne].
  - rewrite Hx in Hn. injection Hn as <-.
    rewrite list_lookup_insert_eq by (apply lookup_lt_is_Some; eauto).
    eexists. split; reflexivity.
  - rewrite list_lookup_insert_ne by exact Hne. eauto.
Qed.

Lemma init_starts_fresh_manager_witness :
  let w := exec (swap_page (game_page box)) (ready_world ∅ (fun _ => 1 # 2)) in
  let b := 5%nat in
  let x := default (new_node "") (w_nodes w !! b) in
  let w' := exec (init GAME_CONFIG) w in
  let m := length (w_managers w) in
  manager (w_game w') = Some m /\
  w_managers w' !! m = Some {| audioCache := []; isReady := false |} /\
  (forall (k : nat) (r : resource_manager),
      w_managers w !! k = Some r -> w_managers w' !! k = Some r) /\
  getRandomAudio m w' = (w', Ok None) /\
  playAudio w' = (w', Ok tt) /\
  (exists x', w_nodes w' !! b = Some x' /\ n_onclick x' = n_onclick x).
Proof.
  intros w b x. apply (init_starts_fresh_manager w b x);
    vm_compute; reflexivity.
Defined.

(** *** Extra properties: [playAudio] *)



(** *** Extra properties: [onGameReady] *)

Lemma onclick_of_update_text (w : world) (n : nat) (s : string) (k : nat) :
  onclick_of (exec (update_node n (set_text s)) w) k = onclick_of w k.
Proof.
  unfold onclick_of, exec, update_node, modify. cbn [fst w_nodes set_nodes].
  destruct (w_nodes w !! n) as [x|] eqn:Hn; [|reflexivity].
  destruct (Nat.eq_dec n k) as [->|Hne].
  - rewrite list_lookup_insert_eq by (apply lookup_lt_is_Some; eauto).
    rewrite Hn. reflexivity.
  - rewrite list_lookup_insert_ne by exact Hne. reflexivity.
Qed.

Lemma setRandomText_keeps_onclick (cfg : config) (elem : option nat)
    (key : text_key) (w : world) (k : nat) :
  onclick_of (exec (setRandomText cfg elem key) w) k = onclick_of w k /\
  w_document (exec (setRandomText cfg elem key) w) = w_document w.
Proof.
  unfold setRandomText.
  destruct elem as [n|]; [|split; reflexivity].
  destruct (texts cfg !! key_name key) as [[s|l]|]; [| |split; reflexivity].
  - destruct (String.eqb s ""); [split; reflexivity|].
    split; [apply onclick_of_update_text | reflexivity].
  - unfold exec, bind, Math_random.
    split; [|reflexivity].
    apply (onclick_of_update_text (set_draws (S (w_draws w)) w)).
Qed.

Lemma refreshTexts_keeps_onclick (w : world) (k : nat) :
  onclick_of (exec (refreshTexts GAME_CONFIG) w) k = onclick_of w k /\
  w_document (exec (refreshTexts GAME_CONFIG) w) = w_document w /\
  w_game (exec (refreshTexts GAME_CONFIG) w) = w_game w /\
  w_storage (exec (refreshTexts GAME_CONFIG) w) = w_storage w /\
  snd (refreshTexts GAME_CONFIG w) = Ok tt.
Proof.
  destruct (keeps_refreshTexts GAME_CONFIG w) as (G & S & _).
  unfold exec at 1 2. rewrite refreshTexts_steps. cbn [fst snd].
  split.
  { rewrite (proj1 (setRandomText_keeps_onclick _ _ _ _ _)).
    rewrite (proj1 (setRandomText_keeps_onclick _ _ _ _ _)).
    apply setRandomText_keeps_onclick. }
  split.
  { rewrite (proj2 (setRandomText_keeps_onclick _ _ _ _ k)).
    rewrite (proj2 (setRandomText_keeps_onclick _ _ _ _ k)).
    apply (setRandomText_keeps_onclick _ _ _ _ k). }
  auto.
Qed.

Lemma onclick_of_remove (w : world) (l k : nat) :
  onclick_of (exec (remove l) w) k = onclick_of w k.
Proof.
  unfold onclick_of, exec, remove, modify.
  cbn [fst w_nodes set_nodes set_body set_document].
  rewrite lookup_map. destruct (w_nodes w !! k); reflexivity.
Qed.

(** The world after the first statement of [onGameReady]. *)
Lemma onGameReady_steps (w : world) :
  let w1 := match loading (elems (w_game w)) with
            | Some l => exec (remove l) w
            | None => w
            end in
  w_game w1 = w_game w /\
  w_storage w1 = w_storage w /\
  (forall k, onclick_of w1 k = onclick_of w k) /\
  (forall l, loading (elems (w_game w)) = Some l ->
             forall id, w_document w1 !! id <> Some l) /\
  onGameReady GAME_CONFIG w
  = bind (deref (btn (elems (w_game w))))
         (fun b => bind (update_node b (set_onclick true))
                        (fun _ => refreshTexts GAME_CONFIG)) w1.
Proof.
  intros w1. unfold w1.
  destruct (loading (elems (w_game w))) as [l|] eqn:El.
  - split; [reflexivity|]. split; [reflexivity|].
    split; [intros k; apply onclick_of_remove|]. split.
    + intros l' [= <-] id H.
      unfold exec, remove, modify in H. cbn [fst w_document set_document] in H.
      apply map_lookup_filter_Some in H as [_ H]. cbn in H. contradiction.
    + unfold onGameReady.
      rewrite (bind_ok _ _ w w (Some l)) by (unfold get; rewrite El; reflexivity).
      cbv beta iota.
      rewrite (bind_ok _ _ w (exec (remove l) w) tt) by reflexivity.
      cbv beta.
      rewrite (bind_ok _ _ _ _ (btn (elems (w_game w)))) by reflexivity.
      reflexivity.
  - split; [reflexivity|]. split; [reflexivity|].
    split; [reflexivity|]. split; [discriminate|].
    unfold onGameReady.
    rewrite (bind_ok _ _ w w None) by (unfold get; rewrite El; reflexivity).
    cbv beta iota.
    rewrite (bind_ok _ _ w w tt) by reflexivity. cbv beta.
    rewrite (bind_ok _ _ _ _ (btn (elems (w_game w)))) by reflexivity.
    reflexivity.
Qed.

(** X10.  [onGameReady] with the button handle bound: it returns normally,
    the button carries the click handler afterwards, no other node's
    [onclick] changes, the loading indicator (if there was one) is no
    longer in the document, and the controller and the storage are
    untouched.  With the button handle [null] it throws, after removing the
    indicator, and binds no handler at all. *)
Theorem onGameReady_binds_handler (w : world) (b : nat) (x : node) :
  btn (elems (w_game w)) = Some b ->
  w_nodes w !! b = Some x ->
  let w' := exec (onGameReady GAME_CONFIG) w in
  snd (onGameReady GAME_CONFIG w) = Ok tt /\
  onclick_of w' b = Some true /\
  (forall n, n <> b -> onclick_of w' n = onclick_of w n) /\
  (forall l, loading (elems (w_game w)) = Some l ->
             forall id, w_document w' !! id <> Some l) /\
  w_game w' = w_game w /\
  w_storage w' = w_storage w /\
  (forall w0 : world,
      btn (elems (w_game w0)) = None ->
      snd (onGameReady GAME_CONFIG w0) = Throw /\
      (forall n, onclick_of (exec (onGameReady GAME_CONFIG) w0) n
                 = onclick_of w0 n) /\
      (forall l, loading (elems (w_game w0)) = Some l ->
                 forall id,
                   w_document (exec (onGameReady GAME_CONFIG) w0) !! id
                   <> Some l)).
Proof.
  intros Hb Hx w'.
  destruct (onGameReady_steps w) as (G1 & S1 & O1 & D1 & E).
  set (w1 := match loading (elems (w_game w)) with
             | Some l => exec (remove l) w
             | None => w
             end) in *.
  assert (Hx1 : exists x1, w_nodes w1 !! b = Some x1).
  { specialize (O1 b). unfold onclick_of in O1. rewrite Hx in O1.
    destruct (w_nodes w1 !! b) as [x1|]; [eauto | discriminate]. }
  destruct Hx1 as (x1 & Hx1).
  set (w2 := set_nodes (<[ b := set_onclick true x1 ]> (w_nodes w1)) w1).
  assert (E2 : onGameReady GAME_CONFIG w = refreshTexts GAME_CONFIG w2).
  { rewrite E, Hb.
    rewrite (bind_ok _ _ w1 w1 b) by reflexivity. cbv beta.
    rewrite (bind_ok _ _ w1 w2 tt)
      by (apply (update_node_nodes b _ w1 x1 Hx1)).
    reflexivity. }
  destruct (refreshTexts_keeps_onclick w2 b) as (_ & D & G & S & R).
  assert (Hbl : (b < length (w_nodes w1))%nat)
    by (apply lookup_lt_is_Some; eauto).
  unfold w', exec. rewrite E2.
  split; [exact R|]. split.
  { fold (exec (refreshTexts GAME_CONFIG) w2).
    rewrite (proj1 (refreshTexts_keeps_onclick w2 b)).
    unfold onclick_of, w2. cbn [w_nodes set_nodes].
    rewrite list_lookup_insert_eq by exact Hbl. reflexivity. }
  split.
  { intros n Hn. fold (exec (refreshTexts GAME_CONFIG) w2).
    rewrite (proj1 (refreshTexts_keeps_onclick w2 n)).
    rewrite <- O1. unfold onclick_of, w2. cbn [w_nodes set_nodes].
    rewrite list_lookup_insert_ne by congruence. reflexivity. }
  split.
  { intros l Hl id. fold (exec (refreshTexts GAME_CONFIG) w2).
    rewrite D. apply (D1 l Hl). }
  split; [fold (exec (refreshTexts GAME_CONFIG) w2); rewrite G; exact G1|].
  split; [fold (exec (refreshTexts GAME_CONFIG) w2); rewrite S; exact S1|].
  intros w0 H0.
  destruct (onGameReady_steps w0) as (_ & _ & O0 & D0 & E0).
  unfold exec. rewrite E0, H0. cbn [deref].
  erewrite bind_throw by reflexivity. cbn [fst snd].
  split; [reflexivity|]. split; [exact O0 | exact D0].
Qed.

Lemma onGameReady_binds_handler_witness :
  let w := run [ TaskSettled 0 0 Failed ] (loading_world ∅ (fun _ => 1 # 2)) in
  let b := 0%nat in
  let x := default (new_node "") (w_nodes w !! b) in
  let w' := exec (onGameReady GAME_CONFIG) w in
  snd (onGameReady GAME_CONFIG w) = Ok tt /\
  onclick_of w' b = Some true /\
  (forall n, n <> b -> onclick_of w' n = onclick_of w n) /\
  (forall l, loading (elems (w_game w)) = Some l ->
             forall id, w_document w' !! id <> Some l) /\
  w_game w' = w_game w /\
  w_storage w' = w_storage w /\
  (forall w0 : world,
      btn (elems (w_game w0)) = None ->
      snd (onGameReady GAME_CONFIG w0) = Throw /\
      (forall n, onclick_of (exec (onGameReady GAME_CONFIG) w0) n
                 = onclick_of w0 n) /\
      (forall l, loading (elems (w_game w0)) = Some l ->
                 forall id,
                   w_document (exec (onGameReady GAME_CONFIG) w0) !! id
                   <> Some l)).
Proof.
  intros w b x. apply (onGameReady_binds_handler w b x);
    vm_compute; reflexivity.
Defined.

(** *** Extra properties: [setRandomText] *)

(** X11.  The local [setRandomText] of [refreshTexts], for any
    configuration and for the three keys it is called with
    ([counter-button], [counter-descriptions], [counter-unit]).  On an
    element that exists and a key whose value is a non-empty array, one draw
    is consumed and the element's text becomes one of the entries of the
    array (never [undefined]): the index [Math.floor(Math.random() *
    length)], with the product rounded as a double, stays below the length.
    It does nothing at all, and draws nothing, when the element is [null] or
    the configuration has no entry under the key; a non-empty fixed string
    is assigned as it is, without a draw. *)
Theorem setRandomText_assigns_variant
    (cfg : config) (key : text_key) (w : world) (n : nat) (x : node)
    (l : list string) :
  w_nodes w !! n = Some x ->
  texts cfg !! key_name key = Some (Variants l) ->
  l <> [] ->
  is_random (w_rng w (w_draws w)) ->
  (exists s : string,
      s ∈ l /\
      l !! Z.to_nat (floor_mul (w_rng w (w_draws w)) (length l)) = Some s /\
      setRandomText cfg (Some n) key w
      = (set_nodes (<[ n := set_text s x ]> (w_nodes w))
           (set_draws (S (w_draws w)) w), Ok tt)) /\
  (forall (w0 : world) (k : text_key),
      setRandomText cfg None k w0 = (w0, Ok tt)) /\
  (forall (w0 : world) (e0 : option nat) (k : text_key),
      texts cfg !! key_name k = None ->
      setRandomText cfg e0 k w0 = (w0, Ok tt)) /\
  (forall (w0 : world) (n0 : nat) (x0 : node) (k : text_key) (s : string),
      w_nodes w0 !! n0 = Some x0 ->
      texts cfg !! key_name k = Some (Fixed s) -> s <> "" ->
      setRandomText cfg (Some n0) k w0
      = (set_nodes (<[ n0 := set_text s x0 ]> (w_nodes w0)) w0, Ok tt)).
Proof.
  intros Hx Hk Hl Hr. split; [|split; [|split]].
  - assert (Hlen : (0 < length l)%nat) by (destruct l; [congruence | cbn; lia]).
    pose proof (floor_mul_range _ _ Hr Hlen) as Hi.
    destruct (js_index_in_range l _ Hi) as (s & Hs & Hlk).
    exists s. split; [eapply list_elem_of_lookup_2; exact Hlk|].
    split; [exact Hlk|].
    unfold setRandomText. rewrite Hk.
    rewrite (bind_ok _ _ w (set_draws (S (w_draws w)) w)
               (w_rng w (w_draws w))) by reflexivity.
    cbv beta. rewrite Hs. cbn [default].
    apply (update_node_nodes n _ (set_draws (S (w_draws w)) w) x Hx).
  - reflexivity.
  - intros w0 e0 k H0. unfold setRandomText. rewrite H0.
    destruct e0; reflexivity.
  - intros w0 n0 x0 k s H0 Hf Hs. unfold setRandomText. rewrite Hf.
    destruct (String.eqb_spec s ""); [contradiction|].
    apply (update_node_nodes n0 _ w0 x0 H0).
Qed.

Lemma setRandomText_assigns_variant_witness :
  let cfg := GAME_CONFIG in
  let key := CounterButton in
  let w := ready_world ∅ (fun _ => 3 # 4) in
  let n := 0%nat in
  let x := default (new_node "") (w_nodes w !! n) in
  let l := [ "邦卡卡邦！"; "SenSei！" ] in
  (exists s : string,
      s ∈ l /\
      l !! Z.to_nat (floor_mul (w_rng w (w_draws w)) (length l)) = Some s /\
      setRandomText cfg (Some n) key w
      = (set_nodes (<[ n := set_text s x ]> (w_nodes w))
           (set_draws (S (w_draws w)) w), Ok tt)) /\
  (forall (w0 : world) (k : text_key),
      setRandomText cfg None k w0 = (w0, Ok tt)) /\
  (forall (w0 : world) (e0 : option nat) (k : text_key),
      texts cfg !! key_name k = None ->
      setRandomText cfg e0 k w0 = (w0, Ok tt)) /\
  (forall (w0 : world) (n0 : nat) (x0 : node) (k : text_key) (s : string),
      w_nodes w0 !! n0 = Some x0 ->
      texts cfg !! key_name k = Some (Fixed s) -> s <> "" ->
      setRandomText cfg (Some n0) k w0
      = (set_nodes (<[ n0 := set_text s x0 ]> (w_nodes w0)) w0, Ok tt)).
Proof.
  intros cfg key w n x l.
  apply (setRandomText_assigns_variant cfg key w n x l).
  - vm_compute. reflexivity.
  - vm_compute. reflexivity.
  - discriminate.
  - draw_ok 3 (-2).
Defined.

(** *** Extra properties: from loading to ready *)

Lemma clicks_bind {A B} (m : M A) (k : A -> M B) :
  keeps_clicks m -> (forall a, keeps_clicks (k a)) -> keeps_clicks (bind m k).
Proof.
  intros Hm Hk w. unfold bind. specialize (Hm w).
  destruct (m w) as [w1 [a|]]; cbn [fst] in *; [|exact Hm].
  destruct (Hk a w1) as (O & D). destruct Hm as (O1 & D1).
  split; [intros n; rewrite O; apply O1 | rewrite D; exact D1].
Qed.

Lemma clicks_catch {A} (m : M A) : keeps_clicks m -> keeps_clicks (catch m).
Proof.
  intros Hm w. unfold catch. specialize (Hm w).
  destruct (m w) as [w1 r]. exact Hm.
Qed.

Lemma clicks_ret {A} (a : A) : keeps_clicks (ret a).
Proof. intros w. split; reflexivity. Qed.

Lemma clicks_throw {A} : keeps_clicks (@throw A).
Proof. intros w. split; reflexivity. Qed.

Lemma clicks_get {A} (f : world -> A) : keeps_clicks (get f).
Proof. intros w. split; reflexivity. Qed.

Lemma clicks_deref (h : option nat) : keeps_clicks (deref h).
Proof. destruct h; [apply clicks_ret | apply clicks_throw]. Qed.

Lemma clicks_update_text (n : nat) (s : string) :
  keeps_clicks (update_node n (set_text s)).
Proof.
  intros w. split; [|reflexivity].
  intros k. apply (onclick_of_update_text w n s k).
Qed.

Lemma clicks_update_manager (m : nat)
    (f : resource_manager -> resource_manager) :
  keeps_clicks (update_manager m f).
Proof. intros w. split; reflexivity. Qed.

Lemma clicks_update_batch (b : nat) (f : batch -> batch) :
  keeps_clicks (update_batch b f).
Proof. intros w. split; reflexivity. Qed.

Lemma clicks_console_log (s : string) : keeps_clicks (console_log s).
Proof. intros w. split; reflexivity. Qed.

Lemma clicks_set_progress (f : world -> list (nat * nat * nat)) :
  keeps_clicks (modify (fun w => set_progress (f w) w)).
Proof. intros w. split; reflexivity. Qed.

Lemma clicks_call (c : callback) (current total : nat) :
  keeps_clicks (call c current total).
Proof.
  destruct c as [|throws]; cbn [call].
  - unfold init_onProgress.
    apply clicks_bind; [apply clicks_get|]. intros h.
    apply clicks_bind; [apply clicks_deref|]. intros n.
    apply clicks_update_text.
  - destruct (throws current total); [apply clicks_throw | apply clicks_ret].
Qed.

Lemma clicks_join (b : nat) : keeps_clicks (join b).
Proof.
  unfold join. apply clicks_bind; [apply clicks_get|]. intros [x|];
    [|apply clicks_ret].
  destruct (b_promise x); try apply clicks_ret.
  destruct (existsb _ _).
  - apply clicks_bind; [apply clicks_update_batch|]. intros _.
    apply clicks_ret.
  - destruct (forallb _ _); [|apply clicks_ret].
    apply clicks_bind; [apply clicks_update_manager|]. intros _.
    apply clicks_bind; [apply clicks_update_batch|]. intros _.
    apply clicks_ret.
Qed.

(** A settling task changes no click handler. *)
Lemma clicks_settle (cfg : config) (b i : nat) (o : outcome) :
  keeps_clicks (settle cfg b i o).
Proof.
  unfold settle. apply clicks_bind; [apply clicks_get|]. intros [x|];
    [|apply clicks_ret].
  destruct (b_tasks x !! i) as [[| |]|]; try apply clicks_ret.
  apply clicks_bind.
  { destruct o;
      [apply clicks_update_manager | apply clicks_update_manager
      | apply clicks_console_log]. }
  intros _. cbv zeta.
  apply clicks_bind.
  { apply clicks_catch. destruct (b_onProgress x) as [c|];
      [|apply clicks_ret].
    apply clicks_bind; [apply clicks_set_progress|]. intros _.
    apply clicks_call. }
  intros r. apply clicks_bind; [apply clicks_update_batch|]. intros _.
  apply clicks_join.
Qed.

(** While a task of the batch is pending and none has rejected, the [await]
    of [loadAll] stays where it is. *)
Lemma join_pending (b : nat) (w : world) (y : batch) :
  w_batches w !! b = Some y ->
  Forall (fun s => s <> Rejected) (b_tasks y) ->
  forallb (fun t => match t with Fulfilled => true | _ => false end)
          (b_tasks y) = false ->
  join b w = (w, Ok false).
Proof.
  intros Hy Hnr Hf. unfold join.
  rewrite (bind_ok _ _ w w (Some y)) by (unfold get; rewrite Hy; reflexivity).
  cbv beta iota. destruct (b_promise y); try reflexivity.
  rewrite (no_rejected_existsb _ Hnr), Hf. reflexivity.
Qed.

Lemma then_ready_false (b : nat) (w : world) :
  then_ready b false w = (w, Ok tt).
Proof.
  unfold then_ready.
  rewrite (bind_ok _ _ w w (w_batches w !! b)) by reflexivity. cbv beta.
  destruct (w_batches w !! b); reflexivity.
Qed.

Lemma then_ready_true (b : nat) (w : world) (y : batch) :
  w_batches w !! b = Some y -> b_then_ready y = true ->
  then_ready b true w = (exec (onGameReady GAME_CONFIG) w, Ok tt).
Proof.
  intros Hy Ht. unfold then_ready.
  rewrite (bind_ok _ _ w w (Some y)) by (unfold get; rewrite Hy; reflexivity).
  cbv beta iota. rewrite Ht. cbn [andb].
  unfold bind, catch, exec.
  destruct (onGameReady GAME_CONFIG w) as [w1 r]. reflexivity.
Qed.

(** [DOMContentLoaded] on the widget's page, the flag unset: [init] runs,
    and the batch it starts is still pending after the microtask. *)
Lemma dispatch_DOMContentLoaded_run (w : world) (b : nat) :
  w_document w !! "counter-button" = Some b ->
  w_initialized w = false ->
  exec (dispatch DOMContentLoaded) w = exec (init GAME_CONFIG) w.
Proof.
  intros Hb Hf.
  pose proof (init_present w b Hb) as E. cbv zeta in E.
  unfold exec at 2. rewrite E. cbn [fst].
  match type of E with _ = (?t, _) => set (wi := t) in * end.
  assert (Em : main w = (wi, Ok (Some (length (w_batches w))))).
  { unfold main.
    rewrite (bind_ok _ _ w w false) by (unfold get; rewrite Hf; reflexivity).
    exact E. }
  unfold exec, dispatch, after_init.
  rewrite (bind_ok _ _ w wi (Ok (Some (length (w_batches w)))))
    by (unfold catch; rewrite Em; reflexivity).
  cbv beta iota.
  erewrite bind_ok.
  2: { eapply join_pending.
       - unfold wi. cbn [w_batches]. apply lookup_snoc_length.
       - cbn [b_tasks]. repeat constructor; discriminate.
       - reflexivity. }
  rewrite then_ready_false. reflexivity.
Qed.

Lemma init_keeps_clicks (w : world) (k : nat) :
  onclick_of (exec (init GAME_CONFIG) w) k = onclick_of w k.
Proof.
  destruct (w_document w !! "counter-button") as [b|] eqn:Hb.
  - unfold exec. rewrite (init_present w b Hb). cbn [fst].
    unfold onclick_of. cbn [w_nodes counter].
    destruct (w_document w !! "local-counter") as [n|]; [|reflexivity].
    destruct (w_nodes w !! n) as [xn|] eqn:Hn; [|reflexivity].
    destruct (Nat.eq_dec n k) as [->|Hne].
    + rewrite list_lookup_insert_eq by (apply lookup_lt_is_Some; eauto).
      rewrite Hn. reflexivity.
    + rewrite list_lookup_insert_ne by exact Hne. reflexivity.
  - unfold exec. rewrite (init_absent _ w Hb). reflexivity.
Qed.

(** A click on a node that does not carry the handler changes nothing. *)
Lemma click_unbound (w : world) (n : nat) (e : pointer_event) :
  onclick_of w n <> Some true ->
  exec (dispatch (Click n e)) w = w.
Proof.
  intros H. unfold exec, dispatch, bind, get. unfold onclick_of in H.
  destruct (w_nodes w !! n) as [x|]; [|reflexivity].
  cbn in H. destruct (n_onclick x); [|reflexivity]. contradiction.
Qed.

Lemma onGameReady_bound (w : world) (b : nat) :
  btn (elems (w_game w)) = Some b ->
  onclick_of w b <> None ->
  let w' := exec (onGameReady GAME_CONFIG) w in
  onclick_of w' b = Some true /\
  w_game w' = w_game w /\
  w_storage w' = w_storage w /\
  w_managers w' = w_managers w.
Proof.
  intros Hb Hx w'.
  destruct (onGameReady_steps w) as (G1 & S1 & O1 & _ & E).
  set (w1 := match loading (elems (w_game w)) with
             | Some l => exec (remove l) w
             | None => w
             end) in *.
  assert (M1 : w_managers w1 = w_managers w).
  { unfold w1. destruct (loading (elems (w_game w))); reflexivity. }
  assert (Hx1 : exists x1, w_nodes w1 !! b = Some x1).
  { specialize (O1 b). unfold onclick_of in O1, Hx.
    destruct (w_nodes w1 !! b) as [x1|]; [eauto|].
    destruct (w_nodes w !! b); [discriminate | contradiction]. }
  destruct Hx1 as (x1 & Hx1).
  set (w2 := set_nodes (<[ b := set_onclick true x1 ]> (w_nodes w1)) w1).
  assert (E2 : onGameReady GAME_CONFIG w = refreshTexts GAME_CONFIG w2).
  { rewrite E, Hb.
    rewrite (bind_ok _ _ w1 w1 b) by reflexivity. cbv beta.
    rewrite (bind_ok _ _ w1 w2 tt)
      by (apply (update_node_nodes b _ w1 x1 Hx1)).
    reflexivity. }
  destruct (refreshTexts_keeps_onclick w2 b) as (O & _ & G & S & _).
  assert (Hbl : (b < length (w_nodes w1))%nat)
    by (apply lookup_lt_is_Some; eauto).
  assert (Ew : w' = exec (refreshTexts GAME_CONFIG) w2)
    by (unfold w', exec; rewrite E2; reflexivity).
  rewrite Ew, O, G, S.
  split.
  { unfold onclick_of, w2. cbn [w_nodes set_nodes].
    rewrite list_lookup_insert_eq by exact Hbl. reflexivity. }
  split; [exact G1|]. split; [exact S1|].
  rewrite <- M1.
  unfold exec. rewrite refreshTexts_steps. cbn [fst].
  assert (K : forall cfg elem key w0,
             w_managers (exec (setRandomText cfg elem key) w0)
             = w_managers w0).
  { intros cfg elem key w0. unfold exec, setRandomText.
    destruct elem as [n|]; [|reflexivity].
    destruct (texts cfg !! key_name key) as [[s|l]|]; try reflexivity.
    - destruct (String.eqb s ""); reflexivity.
    }
  rewrite !K. reflexivity.
Qed.

(** X12.  From loading to ready, on the widget's page.  After
    [DOMContentLoaded] the button does not carry the click handler, and a
    click on it changes nothing; the same holds after the first of the two
    audio tasks has settled.  When the second one settles, in either order
    and whatever the two outcomes, the manager is ready, its cache holds
    the entries of the tasks whose awaits resolved (the payloads that
    loaded, [null] for a failed read), and the button carries the handler:
    the next
    click adds 1 to the counter read at start-up and stores it. *)
Theorem clicks_count_once_ready
    (w : world) (b : nat) (x : node) (i j : nat) (o o' : outcome)
    (e : pointer_event) :
  w_document w !! "counter-button" = Some b ->
  w_nodes w !! b = Some x ->
  n_onclick x = false ->
  w_initialized w = false ->
  (i = 0%nat /\ j = 1%nat) \/ (i = 1%nat /\ j = 0%nat) ->
  let b0 := length (w_batches w) in
  let w1 := exec (dispatch DOMContentLoaded) w in
  let w2 := exec (dispatch (TaskSettled b0 i o)) w1 in
  let w3 := exec (dispatch (TaskSettled b0 j o')) w2 in
  exec (dispatch (Click b e)) w1 = w1 /\
  exec (dispatch (Click b e)) w2 = w2 /\
  onclick_of w3 b = Some true /\
  (exists r, w_managers w3 !! length (w_managers w) = Some r /\
             isReady r = true /\
             audioCache r = loaded_payloads [ (i, o); (j, o') ]) /\
  count (w_game w3) = count (w_game w1) /\
  count (w_game (exec (dispatch (Click b e)) w3))
  = succ (count (w_game w1)) /\
  w_storage (exec (dispatch (Click b e)) w3) !! "count-v2"
  = Some (to_string (succ (count (w_game w1)))).
Proof.
  intros Hb Hx Hc Hf Hij b0 w1 w2 w3.
  set (m0 := length (w_managers w)).
  set (y0 := {| b_manager := m0; b_loadedCount := 0; b_total := 2;
                b_tasks := [ Pending; Pending ];
                b_onProgress := Some InitProgress; b_promise := Pending;
                b_then_ready := true |}).
  set (r0 := {| audioCache := []; isReady := false |}).
  (* after DOMContentLoaded *)
  assert (E1 : w1 = exec (init GAME_CONFIG) w)
    by (apply (dispatch_DOMContentLoaded_run w b Hb Hf)).
  assert (F1 : w_batches w1 !! b0 = Some y0 /\
               w_managers w1 !! m0 = Some r0 /\
               btn (elems (w_game w1)) = Some b).
  { rewrite E1. unfold exec. rewrite (init_present w b Hb). cbn [fst].
    cbn [w_batches w_managers w_game elems btn].
    split; [apply lookup_snoc_length|].
    split; [apply lookup_snoc_length | reflexivity]. }
  destruct F1 as (B1 & M1 & G1).
  assert (O1 : onclick_of w1 b = Some false).
  { rewrite E1, init_keeps_clicks. unfold onclick_of. rewrite Hx. cbn.
    rewrite Hc. reflexivity. }
  assert (Hbl : (b0 < length (w_batches w1))%nat)
    by (apply lookup_lt_is_Some; eauto).
  assert (Hml : (m0 < length (w_managers w1))%nat)
    by (apply lookup_lt_is_Some; eauto).
  assert (Hi : [ Pending; Pending ] !! i = Some Pending /\
               forallb (fun t => match t with Fulfilled => true | _ => false end)
                       (<[ i := Fulfilled ]> [ Pending; Pending ]) = false /\
               <[ i := Fulfilled ]> [ Pending; Pending ] !! j = Some Pending /\
               forallb (fun t => match t with Fulfilled => true | _ => false end)
                       (<[ j := Fulfilled ]>
                          (<[ i := Fulfilled ]> [ Pending; Pending ])) = true).
  { destruct Hij as [[-> ->]|[-> ->]]; repeat split; reflexivity. }
  destruct Hi as (Hi1 & Hd1 & Hj2 & Hd2).
  (* the first task settles *)
  destruct (settle_normal GAME_CONFIG b0 i o w1 y0 r0 B1 M1 Hi1 eq_refl)
    as (w2' & E2 & B2 & M2 & G2 & S2 & _).
  { repeat constructor; discriminate. }
  { cbn. rewrite G1. discriminate. }
  cbn [b_manager b_loadedCount b_total b_tasks b_onProgress b_then_ready y0]
    in E2, B2, M2.
  rewrite Hd1 in E2, B2, M2.
  assert (Ew2 : w2 = w2').
  { unfold w2, exec, dispatch. rewrite (bind_ok _ _ _ _ _ E2).
    rewrite then_ready_false. reflexivity. }
  assert (O2 : onclick_of w2 b = Some false).
  { rewrite Ew2. replace w2' with (fst (settle GAME_CONFIG b0 i o w1))
      by (rewrite E2; reflexivity).
    rewrite (proj1 (clicks_settle GAME_CONFIG b0 i o w1)). exact O1. }
  (* the second task settles *)
  destruct (settle_normal GAME_CONFIG b0 j o' w2'
              {| b_manager := m0; b_loadedCount := 1; b_total := 2;
                 b_tasks := <[ i := Fulfilled ]> [ Pending; Pending ];
                 b_onProgress := Some InitProgress; b_promise := Pending;
                 b_then_ready := true |}
              {| audioCache := [] ++ loaded_payloads [(i, o)];
                 isReady := false || false |})
    as (w3' & E3 & B3 & M3 & G3 & S3 & _).
  { rewrite B2. apply list_lookup_insert_eq. exact Hbl. }
  { cbn [b_manager]. rewrite M2. apply list_lookup_insert_eq. exact Hml. }
  { exact Hj2. }
  { reflexivity. }
  { cbn [b_tasks]. apply no_rejected_insert. repeat constructor; discriminate. }
  { cbn. rewrite G2, G1. discriminate. }
  cbn [b_manager b_loadedCount b_total b_tasks b_onProgress b_then_ready
       audioCache isReady] in E3, B3, M3.
  rewrite Hd2 in E3, B3, M3.
  assert (B3' : exists y3, w_batches w3' !! b0 = Some y3
                           /\ b_then_ready y3 = true).
  { eexists. split.
    - rewrite B3. apply list_lookup_insert_eq.
      rewrite B2, length_insert. exact Hbl.
    - reflexivity. }
  destruct B3' as (y3 & By3 & Ty3).
  assert (Ew3 : w3 = exec (onGameReady GAME_CONFIG) w3').
  { unfold w3, exec at 1, dispatch. rewrite Ew2.
    rewrite (bind_ok _ _ _ _ _ E3).
    rewrite (then_ready_true b0 w3' y3 By3 Ty3). reflexivity. }
  assert (O3' : onclick_of w3' b = Some false).
  { replace w3' with (fst (settle GAME_CONFIG b0 j o' w2'))
      by (rewrite E3; reflexivity).
    rewrite (proj1 (clicks_settle GAME_CONFIG b0 j o' w2')).
    rewrite <- Ew2. exact O2. }
  destruct (onGameReady_bound w3' b) as (O3 & G4 & S4 & M4).
  { rewrite G3, G2. exact G1. }
  { rewrite O3'. discriminate. }
  rewrite <- Ew3 in O3, G4, S4, M4.
  assert (Gall : w_game w3 = w_game w1) by (rewrite G4, G3, G2; reflexivity).
  (* the clicks *)
  split; [apply click_unbound; rewrite O1; discriminate|].
  split; [apply click_unbound; rewrite O2; discriminate|].
  split; [exact O3|].
  split.
  { eexists. split.
    - rewrite M4, M3. apply list_lookup_insert_eq.
      rewrite M2, length_insert. exact Hml.
    - cbn [isReady audioCache]. split; [reflexivity|].
      destruct o, o'; reflexivity. }
  split; [rewrite Gall; reflexivity|].
  assert (Hx3 : exists x3, w_nodes w3 !! b = Some x3 /\ n_onclick x3 = true).
  { unfold onclick_of in O3. destruct (w_nodes w3 !! b) as [x3|];
      [|discriminate]. cbn in O3. injection O3 as O3. eauto. }
  destruct Hx3 as (x3 & Hx3 & Hc3).
  rewrite (click_runs_handleInteraction w3 b x3 e Hx3 Hc3).
  destruct (handleInteraction_counter e w3) as (C & _ & _ & St & _).
  rewrite Gall in C, St.
  split; [exact C|]. rewrite St. apply lookup_insert_eq.
Qed.

Lemma clicks_count_once_ready_witness :
  let w := page_world {[ "count-v2" := "41" ]} (fun _ => 1 # 4) in
  let b := 0%nat in
  let x := default (new_node "") (w_nodes w !! b) in
  let i := 1%nat in
  let j := 0%nat in
  let o := Failed in
  let o' := Loaded "data:audio/mpeg;base64,AAAA" in
  let e := {| clientX := 30; clientY := 35 |} in
  let b0 := length (w_batches w) in
  let w1 := exec (dispatch DOMContentLoaded) w in
  let w2 := exec (dispatch (TaskSettled b0 i o)) w1 in
  let w3 := exec (dispatch (TaskSettled b0 j o')) w2 in
  exec (dispatch (Click b e)) w1 = w1 /\
  exec (dispatch (Click b e)) w2 = w2 /\
  onclick_of w3 b = Some true /\
  (exists r, w_managers w3 !! length (w_managers w) = Some r /\
             isReady r = true /\
             audioCache r = loaded_payloads [ (i, o); (j, o') ]) /\
  count (w_game w3) = count (w_game w1) /\
  count (w_game (exec (dispatch (Click b e)) w3))
  = succ (count (w_game w1)) /\
  w_storage (exec (dispatch (Click b e)) w3) !! "count-v2"
  = Some (to_string (succ (count (w_game w1)))).
Proof.
  intros w b x i j o o' e.
  apply (clicks_count_once_ready w b x i j o o' e).
  - vm_compute. reflexivity.
  - vm_compute. reflexivity.
  - vm_compute. reflexivity.
  - vm_compute. reflexivity.
  - right. split; reflexivity.
Defined.

(** *** Extra properties: the display *)

Lemma text_bind (n : nat) {A B} (m : M A) (k : A -> M B) :
  keeps_text n m -> (forall a, keeps_text n (k a)) -> keeps_text n (bind m k).
Proof.
  intros Hm Hk w x Hx. unfold bind. destruct (Hm w x Hx) as (x1 & H1 & T1).
  destruct (m w) as [w1 [a|]]; cbn [fst] in *; [|eauto].
  destruct (Hk a w1 x1 H1) as (x2 & H2 & T2).
  exists x2. split; [exact H2 | congruence].
Qed.

Lemma text_same (n : nat) {A} (m : M A) :
  (forall w, w_nodes (fst (m w)) = w_nodes w) -> keeps_text n m.
Proof. intros H w x Hx. rewrite H. eauto. Qed.

Lemma text_deref (n : nat) (h : option nat) : keeps_text n (deref h).
Proof. apply text_same. intros w. destruct h; reflexivity. Qed.

Lemma text_update_other (n k : nat) (f : node -> node) :
  k <> n -> keeps_text n (update_node k f).
Proof.
  intros Hk w x Hx. unfold update_node, modify. cbn [fst w_nodes set_nodes].
  destruct (w_nodes w !! k); [|eauto].
  rewrite list_lookup_insert_ne by exact Hk. eauto.
Qed.

Lemma text_update_keeping (n k : nat) (f : node -> node) :
  (forall x, n_text (f x) = n_text x) -> keeps_text n (update_node k f).
Proof.
  intros Hf w x Hx. destruct (Nat.eq_dec k n) as [->|Hk];
    [|apply (text_update_other n k f Hk w x Hx)].
  unfold update_node, modify. cbn [fst w_nodes set_nodes]. rewrite Hx.
  rewrite list_lookup_insert_eq by (apply lookup_lt_is_Some; eauto).
  eauto.
Qed.

Lemma text_createElement (n : nat) (y : node) : keeps_text n (createElement y).
Proof.
  intros w x Hx. unfold createElement. cbn [fst w_nodes set_nodes].
  exists x. split; [apply lookup_app_l_Some; exact Hx | reflexivity].
Qed.

Lemma text_setRandomText (n : nat) (cfg : config) (h : option nat)
    (key : text_key) :
  h <> Some n -> keeps_text n (setRandomText cfg h key).
Proof.
  intros Hh. unfold setRandomText.
  destruct h as [k|]; [|apply text_same; reflexivity].
  assert (k <> n) by congruence.
  destruct (texts cfg !! key_name key) as [[s|l]|]; [| |apply text_same; reflexivity].
  - destruct (String.eqb s ""); [apply text_same; reflexivity|].
    apply text_update_other. assumption.
  - apply text_bind; [apply text_same; reflexivity|]. intros r.
    apply text_update_other. assumption.
Qed.

Lemma text_playAudio (n : nat) : keeps_text n playAudio.
Proof.
  apply text_same. intros w.
  unfold playAudio, bind, get, deref, getRandomAudio, bind, get, Math_random.
  destruct (manager (w_game w)) as [m|]; [|reflexivity]. cbn [ret fst].
  destruct (Nat.eqb _ 0); cbn [ret fst]; [reflexivity|].
  destruct (js_index _ _) as [[s|]|]; try reflexivity.
  destruct (String.eqb s ""); reflexivity.
Qed.

Lemma text_spawnHerta (n : nat) : keeps_text n spawnHerta.
Proof.
  unfold spawnHerta. apply text_bind; [apply text_same; reflexivity|].
  intros r. apply text_bind; [apply text_createElement|]. intros img.
  apply text_same. reflexivity.
Qed.

Lemma text_createRipple (n : nat) (e : pointer_event) :
  keeps_text n (createRipple e).
Proof.
  unfold createRipple. apply text_bind; [apply text_same; reflexivity|].
  intros h. apply text_bind; [apply text_createElement|]. intros ripple.
  apply text_bind; [apply text_deref|]. intros b.
  apply text_bind; [apply text_same; reflexivity|]. intros rect.
  apply text_bind; [apply text_update_keeping; reflexivity|]. intros _.
  apply text_bind; [apply text_update_keeping; reflexivity|]. intros _.
  apply text_same. reflexivity.
Qed.

(** Up to [2^53] the digits shown are those of the value itself. *)
Lemma locale_digits_exact (z : Z) : 0 < z <= 2 ^ 53 -> locale_digits z = z.
Proof.
  intros Hz. destruct (Z.eq_dec z (2 ^ 53)) as [->|N].
  - vm_compute. reflexivity.
  - unfold locale_digits, shortest.
    pose proof (shortest_from_exact z 17 ltac:(lia) 1 ltac:(lia)) as H.
    destruct (shortest_from 17 z 1) as [[s k] n]. tauto.
Qed.

(** X13.  The display follows the counter.  When the counter element
    exists and is none of the three elements that [refreshTexts] writes to,
    and the new count, if it is a finite number, lies within [-2^53 .. 2^53],
    then after [handleInteraction], whether or not its feedback throws, the
    counter element reads the [en-US] rendering of the new count (for a
    positive count its decimal digits grouped by thousands), the value
    whose string the same call stored under [count-v2]. *)
Theorem handleInteraction_shows_count
    (w : world) (e : pointer_event) (n : nat) (x : node) :
  counter (elems (w_game w)) = Some n ->
  w_nodes w !! n = Some x ->
  btn (elems (w_game w)) <> Some n ->
  ctDesc (elems (w_game w)) <> Some n ->
  ctUnit (elems (w_game w)) <> Some n ->
  let c := succ (count (w_game w)) in
  (forall z, c = Int z -> Z.abs z <= 2 ^ 53) ->
  let w' := exec (handleInteraction GAME_CONFIG e) w in
  (exists x', w_nodes w' !! n = Some x' /\ n_text x' = to_locale_string c) /\
  (forall z, c = Int z -> 0 < z -> to_locale_string c = grouped z) /\
  count (w_game w') = c /\
  w_storage w' !! "count-v2" = Some (to_string c).
Proof.
  intros Hn Hx Hb Hd Hu c Hrange w'.
  destruct (handleInteraction_counter e w) as (C & _ & _ & St & _).
  fold c w' in C, St.
  split; [|split; [|split; [exact C | rewrite St; apply lookup_insert_eq]]].
  2:{ intros z Ez Hz. specialize (Hrange z Ez). rewrite Ez.
      destruct z as [|p|p]; try lia. cbn [to_locale_string].
      rewrite locale_digits_exact by lia. reflexivity. }
  unfold w', exec. rewrite handleInteraction_steps. fold c.
  set (w2 := set_storage _ _).
  set (w3 := set_nodes (<[ n := set_text (to_locale_string c) x ]> (w_nodes w2))
               w2).
  assert (G3 : w_game w3 = set_count c (w_game w)) by reflexivity.
  assert (H3 : w_nodes w3 !! n = Some (set_text (to_locale_string c) x)).
  { unfold w3. cbn [w_nodes set_nodes].
    apply list_lookup_insert_eq. apply lookup_lt_is_Some. eauto. }
  assert (Eu : updateDisplay GAME_CONFIG true w2
               = (exec (refreshTexts GAME_CONFIG) w3, Ok tt)).
  { unfold updateDisplay.
    rewrite (bind_ok _ _ w2 w2 (w_game w2)) by reflexivity. cbv beta.
    change (counter (elems (w_game w2))) with (counter (elems (w_game w))).
    rewrite Hn.
    rewrite (bind_ok _ _ w2 w3 tt)
      by (apply (update_node_nodes n _ w2 x); exact Hx).
    cbv beta iota. unfold exec. rewrite refreshTexts_steps. reflexivity. }
  rewrite (bind_ok _ _ _ _ _ Eu).
  (* [refreshTexts] writes elsewhere *)
  assert (H4 : exists x4, w_nodes (exec (refreshTexts GAME_CONFIG) w3) !! n
                          = Some x4 /\ n_text x4 = to_locale_string c).
  { unfold exec. rewrite refreshTexts_steps. cbn [fst].
    rewrite G3. cbn [elems set_count].
    destruct (text_setRandomText n GAME_CONFIG _ CounterButton Hb w3 _ H3)
      as (xa & Ha & Ta).
    destruct (text_setRandomText n GAME_CONFIG _ CounterDescriptions Hd
                _ _ Ha) as (xb & Hb' & Tb).
    destruct (text_setRandomText n GAME_CONFIG _ CounterUnit Hu _ _ Hb')
      as (xc & Hc & Tc).
    exists xc. split; [exact Hc|]. rewrite Tc, Tb, Ta. reflexivity. }
  destruct H4 as (x4 & H4 & T4).
  assert (K : keeps_text n
                (bind playAudio (fun _ =>
                   bind spawnHerta (fun _ => createRipple e)))).
  { apply text_bind; [apply text_playAudio|]. intros _.
    apply text_bind; [apply text_spawnHerta|]. intros _.
    apply text_createRipple. }
  destruct (K _ _ H4) as (x5 & H5 & T5).
  exists x5. split; [exact H5 | congruence].
Qed.

Lemma handleInteraction_shows_count_witness :
  let w := ready_world {[ "count-v2" := "1233" ]} (fun _ => 1 # 4) in
  let e := {| clientX := 30; clientY := 35 |} in
  let n := 1%nat in
  let x := default (new_node "") (w_nodes w !! n) in
  let c := succ (count (w_game w)) in
  let w' := exec (handleInteraction GAME_CONFIG e) w in
  (exists x', w_nodes w' !! n = Some x' /\ n_text x' = to_locale_string c) /\
  (forall z, c = Int z -> 0 < z -> to_locale_string c = grouped z) /\
  count (w_game w') = c /\
  w_storage w' !! "count-v2" = Some (to_string c).
Proof.
  intros w e n x. apply (handleInteraction_shows_count w e n x).
  - vm_compute. reflexivity.
  - vm_compute. reflexivity.
  - vm_compute. discriminate.
  - vm_compute. discriminate.
  - vm_compute. discriminate.
  - intros z E. vm_compute in E. inversion E. vm_compute. discriminate.
Defined.

(** *** The counter over a session *)




(** *** The promise of a batch *)

(** C2, as the code has it.  In one batch of [loadAll] whose callback, if
    there is one, returns normally from every call: the tasks settling in
    any order and with any outcomes, the promise is resolved exactly when
    every audio task has settled, and pending until then; [total] is the
    number of audio locators, the images being requested but counting for
    nothing; [isReady] is set at that moment and not before; [onProgress]
    has been called once per settled task, the [j]-th call with
    [(j, total)], so [total] times in all, from [(1, total)] to
    [(total, total)].  When a call of [onProgress] throws, the task that
    made it rejects and the promise of the batch is rejected: it never
    resolves, however the other tasks settle. *)
Theorem loadAll_resolves_when_settled
    (cfg : config) (w0 : world) (m : nat) (r : resource_manager)
    (cb : option callback) (sched : list (nat * outcome)) :
  w_managers w0 !! m = Some r ->
  returns_normally cb w0 ->
  valid_schedule (length (audioList cfg)) sched ->
  let total := length (audioList cfg) in
  let b := length (w_batches w0) in
  let w' := settle_all cfg b sched (exec (bind (loadAll cfg m cb) join) w0) in
  (length sched <= total)%nat /\
  (exists x, w_batches w' !! b = Some x /\
             b_total x = length (audioList cfg) /\
             b_loadedCount x = length sched /\
             (b_promise x = Fulfilled <-> length sched = total) /\
             (b_promise x = Pending <-> length sched <> total) /\
             b_promise x <> Rejected) /\
  (exists r', w_managers w' !! m = Some r' /\
              (length sched = total -> isReady r' = true) /\
              (length sched <> total -> isReady r' = isReady r)) /\
  w_progress w'
  = w_progress w0 ++ match cb with
                     | Some _ => progress_calls b (length sched) total
                     | None => []
                     end /\
  length (progress_calls b (length sched) total) = length sched /\
  (forall j, (j < length sched)%nat ->
             nth j (progress_calls b (length sched) total) (b, 0%nat, total)
             = (b, S j, total)) /\
  w_net w' = w_net w0 ++ List.map Fetch (audioList cfg)
                      ++ List.map ImageLoad (preloadImages cfg) /\
  (forall (b1 i : nat) (o : outcome) (w1 : world) (x1 : batch)
          (r1 : resource_manager) (rest : list (nat * outcome)),
      w_batches w1 !! b1 = Some x1 ->
      w_managers w1 !! b_manager x1 = Some r1 ->
      b_tasks x1 !! i = Some Pending ->
      b_promise x1 = Pending ->
      throws_at (b_onProgress x1) (S (b_loadedCount x1)) (b_total x1) w1 ->
      exists x2 r2,
        w_batches (settle_all cfg b1 rest (exec (settle cfg b1 i o) w1)) !! b1
        = Some x2 /\
        b_promise x2 = Rejected /\
        w_managers (settle_all cfg b1 rest (exec (settle cfg b1 i o) w1))
          !! b_manager x1 = Some r2 /\
        isReady r2 = isReady r1).
Proof.
  intros Hr Hn V total b w'.
  destruct (batch_run cfg w0 m r cb sched Hr Hn V)
    as ((x & B & Pr & Lc & Tt) & M & _ & _ & _ & N & P & _).
  fold total b w' in B, M, N, P, Pr, Tt.
  split; [exact (proj1 (mark_done_all total sched V))|].
  split.
  { exists x. split; [exact B|]. split; [exact Tt|]. split; [exact Lc|].
    rewrite Pr. destruct (Nat.eqb_spec (length sched) total);
      repeat split; intros; try congruence; try discriminate; auto. }
  split.
  { eexists. split; [exact M|]. cbn [isReady]. split; intros H.
    - rewrite (proj2 (Nat.eqb_eq _ _) H). apply orb_true_r.
    - rewrite (proj2 (Nat.eqb_neq _ _) H). apply orb_false_r. }
  split; [exact P|].
  split; [unfold progress_calls; rewrite length_map, length_seq; reflexivity|].
  split.
  { intros j Hj. unfold progress_calls.
    change (b, 0%nat, total) with ((fun j => (b, j, total)) 0%nat).
    rewrite map_nth, seq_nth by exact Hj. reflexivity. }
  split; [exact N|].
  intros b1 i o w1 x1 r1 rest Hx Hm Hi Hp Ht.
  destruct (settle_throwing cfg b1 i o w1 x1 r1 Hx Hm Hi Hp Ht)
    as (w2 & E & B2 & M2 & _ & _).
  unfold exec. rewrite E. cbn [fst].
  destruct (settle_all_after_settled cfg b1 rest w2 _ _ B2 M2)
    as (x2 & r2 & B3 & P3 & M3 & R3); [discriminate|].
  exists x2, r2. auto.
Qed.

Lemma loadAll_resolves_when_settled_witness :
  let cfg := GAME_CONFIG in
  let w0 := loading_world ∅ (fun _ => 1 # 2) in
  let m := 0%nat in
  let r := {| audioCache := []; isReady := false |} in
  let cb := Some InitProgress in
  let sched := [ (1%nat, Failed);
                 (0%nat, Loaded "data:audio/mpeg;base64,AAAA") ] in
  let total := length (audioList cfg) in
  let b := length (w_batches w0) in
  let w' := settle_all cfg b sched (exec (bind (loadAll cfg m cb) join) w0) in
  (length sched <= total)%nat /\
  (exists x, w_batches w' !! b = Some x /\
             b_total x = length (audioList cfg) /\
             b_loadedCount x = length sched /\
             (b_promise x = Fulfilled <-> length sched = total) /\
             (b_promise x = Pending <-> length sched <> total) /\
             b_promise x <> Rejected) /\
  (exists r', w_managers w' !! m = Some r' /\
              (length sched = total -> isReady r' = true) /\
              (length sched <> total -> isReady r' = isReady r)) /\
  w_progress w'
  = w_progress w0 ++ match cb with
                     | Some _ => progress_calls b (length sched) total
                     | None => []
                     end /\
  length (progress_calls b (length sched) total) = length sched /\
  (forall j, (j < length sched)%nat ->
             nth j (progress_calls b (length sched) total) (b, 0%nat, total)
             = (b, S j, total)) /\
  w_net w' = w_net w0 ++ List.map Fetch (audioList cfg)
                      ++ List.map ImageLoad (preloadImages cfg) /\
  (forall (b1 i : nat) (o : outcome) (w1 : world) (x1 : batch)
          (r1 : resource_manager) (rest : list (nat * outcome)),
      w_batches w1 !! b1 = Some x1 ->
      w_managers w1 !! b_manager x1 = Some r1 ->
      b_tasks x1 !! i = Some Pending ->
      b_promise x1 = Pending ->
      throws_at (b_onProgress x1) (S (b_loadedCount x1)) (b_total x1) w1 ->
      exists x2 r2,
        w_batches (settle_all cfg b1 rest (exec (settle cfg b1 i o) w1)) !! b1
        = Some x2 /\
        b_promise x2 = Rejected /\
        w_managers (settle_all cfg b1 rest (exec (settle cfg b1 i o) w1))
          !! b_manager x1 = Some r2 /\
        isReady r2 = isReady r1).
Proof.
  intros cfg w0 m r cb sched.
  apply (loadAll_resolves_when_settled cfg w0 m r cb sched).
  - vm_compute. reflexivity.
  - vm_compute. discriminate.
  - split; [apply (bool_decide_unpack _); vm_compute; exact I|].
    apply (bool_decide_unpack _); vm_compute; exact I.
Defined.

(** The claim as worded fails when the callback throws.  The audio is
    loading when the visitor moves to a page without the button; [init]
    runs again there and leaves the button handle [null].  Then both audio
    tasks of the first page load.  Every task has settled and [onProgress]
    was called with [(1, 2)] and [(2, 2)], but each call threw on the
    [null] handle: the promise of [loadAll] is rejected, not resolved, and
    [isReady] is still false. *)
Lemma batch_settled_but_rejected :
  let w := run [ TaskSettled 0 0 (Loaded "data:audio/mpeg;base64,AAAA");
                 TaskSettled 0 1 (Loaded "data:audio/mpeg;base64,BBBB") ]
               (stale_world ∅ (fun _ => 1 # 2)) in
  exists (x : batch) (r : resource_manager),
    w_batches w !! 0%nat = Some x /\
    b_total x = 2%nat /\
    b_loadedCount x = 2%nat /\
    b_tasks x = [ Rejected; Rejected ] /\
    b_promise x = Rejected /\
    b_promise x <> Fulfilled /\
    w_managers w !! 0%nat = Some r /\
    isReady r = false /\
    w_progress w = [ (0%nat, 1%nat, 2%nat); (0%nat, 2%nat, 2%nat) ].
Proof.
  eexists. eexists.
  split; [vm_compute; reflexivity|].
  split; [vm_compute; reflexivity|].
  split; [vm_compute; reflexivity|].
  split; [vm_compute; reflexivity|].
  split; [vm_compute; reflexivity|].
  split; [vm_compute; discriminate|].
  split; [vm_compute; reflexivity|].
  split; vm_compute; reflexivity.
Qed.

(** *** Failures in a batch *)




